(** * The R3000A CPU core of PCSX-Redux: state model, instruction cache,
      delayed loads, interrupt scheduling and kernel-call interception.

    Shallow embedding of [src/core/r3000a.h].  Unsigned machine integers
    are values of [Z] with their wrap-around written out, the two
    instruction-cache buffers are byte lists accessed through 32-bit
    little-endian loads and stores, C++ arrays are lists indexed with
    stdpp's lookup and insert, and code that can call [abort()] or leave
    defined behaviour returns an [outcome]. *)

From Stdlib Require Import ZArith Lia Bool.
From Stdlib Require Import Floats.SpecFloat.
From stdpp Require Import base list.

Local Open Scope Z_scope.

(** ** Machine integers *)

Definition wrap32 (z : Z) : Z := z mod 2 ^ 32.
Definition wrap64 (z : Z) : Z := z mod 2 ^ 64.

(** ** Outcomes of a call

    [Aborted] is a call of [abort()]; [Undefined] is undefined behaviour of
    the C++ code (an array indexed out of bounds, a shift by 32 or more, a
    float converted to an integer type that cannot hold it). *)

Inductive outcome (A : Type) : Type :=
| Ok (a : A)
| Aborted
| Undefined.

Arguments Ok {A} a.
Arguments Aborted {A}.
Arguments Undefined {A}.

#[export] Instance outcome_ret : MRet outcome := fun A a => Ok a.
#[export] Instance outcome_bind : MBind outcome := fun A B k m =>
  match m with
  | Ok a => k a
  | Aborted => Aborted
  | Undefined => Undefined
  end.

(** An array element read at an index of type [unsigned]. *)
Definition at_index {A : Type} (arr : list A) (i : Z) : outcome A :=
  if i <? 0 then Undefined
  else match arr !! Z.to_nat i with
       | Some a => Ok a
       | None => Undefined
       end.

(** ** Byte buffers

    [*(uint32_t * )(buf + off)] on a little-endian host; [SWAP_LE32] is the
    identity there. *)

Definition byte_of (k v : Z) : Z := (v / 2 ^ (8 * k)) mod 256.

Definition in_buffer (buf : list Z) (off : Z) : bool :=
  (0 <=? off) && (off + 4 <=? Z.of_nat (length buf)).

Definition load32 (buf : list Z) (off : Z) : outcome Z :=
  if in_buffer buf off then
    match buf !! Z.to_nat off, buf !! Z.to_nat (off + 1),
          buf !! Z.to_nat (off + 2), buf !! Z.to_nat (off + 3) with
    | Some b0, Some b1, Some b2, Some b3 =>
        Ok (b0 + b1 * 2 ^ 8 + b2 * 2 ^ 16 + b3 * 2 ^ 24)
    | _, _, _, _ => Undefined
    end
  else Undefined.

(** The four bytes of [v], least significant first, put at [off]. *)
Definition poke32 (buf : list Z) (off v : Z) : list Z :=
  <[Z.to_nat (off + 3) := byte_of 3 v]>
    (<[Z.to_nat (off + 2) := byte_of 2 v]>
      (<[Z.to_nat (off + 1) := byte_of 1 v]>
        (<[Z.to_nat off := byte_of 0 v]> buf))).

Definition store32 (buf : list Z) (off v : Z) : outcome (list Z) :=
  if in_buffer buf off then Ok (poke32 buf off v) else Undefined.

(** [memset(buf, 0xff, sizeof(buf))] *)
Definition memset_ff (buf : list Z) : list Z := replicate (length buf) 0xff.

(** ** Single-precision floats

    [float] is IEEE 754 binary32: 24 bits of precision, infinities at
    exponent 128, rounding to nearest with ties to even. *)

Definition float : Type := spec_float.

Definition float_one : float := S754_finite false 8388608 (-23).

(** Conversion of a [uint32_t] to [float]. *)
Definition float_of_uint32 (n : Z) : float := binary_normalize 24 128 n 0 false.

Definition float_mul (x y : float) : float := SFmul 24 128 x y.

(** [uint64_t(f)]: the fractional part is discarded; the behaviour is
    undefined when the truncated value does not fit. *)
Definition uint64_of_float (f : float) : outcome Z :=
  match f with
  | S754_zero _ => Ok 0
  | S754_finite s m e =>
      let t := if 0 <=? e then Z.shiftl (Zpos m) e else Z.shiftr (Zpos m) (- e) in
      if s then (if t =? 0 then Ok 0 else Undefined)
      else if t <? 2 ^ 64 then Ok t else Undefined
  | _ => Undefined
  end.

(** ** Architectural state *)

(** One entry of [m_delayedLoadInfo]. *)
Module DelayedLoadInfo.
Record t : Type := Build {
  index : Z;
  value : Z;
  mask : Z;
  pcValue : Z;
  active : bool;
  pcActive : bool;
  fromLink : bool
}.

Definition init : t := Build 0 0 0 0 false false false.

Definition set_index (v : Z) (d : t) : t :=
  Build v (value d) (mask d) (pcValue d) (active d) (pcActive d) (fromLink d).
Definition set_value (v : Z) (d : t) : t :=
  Build (index d) v (mask d) (pcValue d) (active d) (pcActive d) (fromLink d).
Definition set_mask (v : Z) (d : t) : t :=
  Build (index d) (value d) v (pcValue d) (active d) (pcActive d) (fromLink d).
Definition set_pcValue (v : Z) (d : t) : t :=
  Build (index d) (value d) (mask d) v (active d) (pcActive d) (fromLink d).
Definition set_active (v : bool) (d : t) : t :=
  Build (index d) (value d) (mask d) (pcValue d) v (pcActive d) (fromLink d).
Definition set_pcActive (v : bool) (d : t) : t :=
  Build (index d) (value d) (mask d) (pcValue d) (active d) v (fromLink d).
Definition set_fromLink (v : bool) (d : t) : t :=
  Build (index d) (value d) (mask d) (pcValue d) (active d) (pcActive d) v.
End DelayedLoadInfo.

(** [struct psxRegisters]; [GPR] is the view [GPR.r] of the union, 34 words
    with [lo] and [hi] at 32 and 33. *)
Module psxRegisters.
Record t : Type := Build {
  GPR : list Z;
  CP0 : list Z;
  CP2D : list Z;
  CP2C : list Z;
  pc : Z;
  code : Z;
  cycle : Z;
  previousCycles : Z;
  interrupt : Z;
  spuInterrupt : bool;
  intTargets : list Z;
  lowestTarget : Z;
  iCacheAddr : list Z;
  iCacheCode : list Z
}.

Definition set_GPR (v : list Z) (r : t) : t :=
  Build v (CP0 r) (CP2D r) (CP2C r) (pc r) (code r) (cycle r)
    (previousCycles r) (interrupt r) (spuInterrupt r) (intTargets r)
    (lowestTarget r) (iCacheAddr r) (iCacheCode r).
Definition set_pc (v : Z) (r : t) : t :=
  Build (GPR r) (CP0 r) (CP2D r) (CP2C r) v (code r) (cycle r)
    (previousCycles r) (interrupt r) (spuInterrupt r) (intTargets r)
    (lowestTarget r) (iCacheAddr r) (iCacheCode r).
Definition set_interrupt (v : Z) (r : t) : t :=
  Build (GPR r) (CP0 r) (CP2D r) (CP2C r) (pc r) (code r) (cycle r)
    (previousCycles r) v (spuInterrupt r) (intTargets r)
    (lowestTarget r) (iCacheAddr r) (iCacheCode r).
Definition set_intTargets (v : list Z) (r : t) : t :=
  Build (GPR r) (CP0 r) (CP2D r) (CP2C r) (pc r) (code r) (cycle r)
    (previousCycles r) (interrupt r) (spuInterrupt r) v
    (lowestTarget r) (iCacheAddr r) (iCacheCode r).
Definition set_lowestTarget (v : Z) (r : t) : t :=
  Build (GPR r) (CP0 r) (CP2D r) (CP2C r) (pc r) (code r) (cycle r)
    (previousCycles r) (interrupt r) (spuInterrupt r) (intTargets r)
    v (iCacheAddr r) (iCacheCode r).
Definition set_iCacheAddr (v : list Z) (r : t) : t :=
  Build (GPR r) (CP0 r) (CP2D r) (CP2C r) (pc r) (code r) (cycle r)
    (previousCycles r) (interrupt r) (spuInterrupt r) (intTargets r)
    (lowestTarget r) v (iCacheCode r).
Definition set_iCacheCode (v : list Z) (r : t) : t :=
  Build (GPR r) (CP0 r) (CP2D r) (CP2C r) (pc r) (code r) (cycle r)
    (previousCycles r) (interrupt r) (spuInterrupt r) (intTargets r)
    (lowestTarget r) (iCacheAddr r) v.

(** [memset(&m_regs, 0, sizeof(m_regs))] *)
Definition zero : t :=
  Build (replicate 34 0) (replicate 32 0) (replicate 32 0) (replicate 32 0)
    0 0 0 0 0 false (replicate 32 0) 0
    (replicate 4096 0) (replicate 4096 0).
End psxRegisters.

(** The data members of [class R3000Acpu] that its inline member functions
    use. *)
Record R3000Acpu : Type := Build_R3000Acpu {
  m_regs : psxRegisters.t;
  m_interruptScales : list float;
  m_shellStarted : bool;
  m_inISR : bool;
  m_nextIsDelaySlot : bool;
  m_inDelaySlot : bool;
  m_delayedLoadInfo : list DelayedLoadInfo.t;
  m_currentDelayedLoad : Z
}.

Definition set_m_regs (v : psxRegisters.t) (c : R3000Acpu) : R3000Acpu :=
  Build_R3000Acpu v (m_interruptScales c) (m_shellStarted c) (m_inISR c)
    (m_nextIsDelaySlot c) (m_inDelaySlot c) (m_delayedLoadInfo c)
    (m_currentDelayedLoad c).
Definition set_m_shellStarted (v : bool) (c : R3000Acpu) : R3000Acpu :=
  Build_R3000Acpu (m_regs c) (m_interruptScales c) v (m_inISR c)
    (m_nextIsDelaySlot c) (m_inDelaySlot c) (m_delayedLoadInfo c)
    (m_currentDelayedLoad c).
Definition set_m_delayedLoadInfo (v : list DelayedLoadInfo.t) (c : R3000Acpu)
  : R3000Acpu :=
  Build_R3000Acpu (m_regs c) (m_interruptScales c) (m_shellStarted c)
    (m_inISR c) (m_nextIsDelaySlot c) (m_inDelaySlot c) v
    (m_currentDelayedLoad c).
Definition set_m_currentDelayedLoad (v : Z) (c : R3000Acpu) : R3000Acpu :=
  Build_R3000Acpu (m_regs c) (m_interruptScales c) (m_shellStarted c)
    (m_inISR c) (m_nextIsDelaySlot c) (m_inDelaySlot c)
    (m_delayedLoadInfo c) v.

(** The default member initialisers of the class, over given registers. *)
Definition construct (regs : psxRegisters.t) : R3000Acpu :=
  Build_R3000Acpu regs (replicate 15 float_one) false false false false
    (replicate 2 DelayedLoadInfo.init) 0.

(** An array element written at an index of type [unsigned]. *)
Definition store_index {A : Type} (arr : list A) (i : Z) (a : A)
  : outcome (list A) :=
  if (0 <=? i) && (i <? Z.of_nat (length arr)) then Ok (<[Z.to_nat i := a]> arr)
  else Undefined.

(** ** Reset *)

Definition invalidateCache (c : R3000Acpu) : R3000Acpu :=
  let regs := m_regs c in
  let regs := psxRegisters.set_iCacheAddr
                (memset_ff (psxRegisters.iCacheAddr regs)) regs in
  let regs := psxRegisters.set_iCacheCode
                (memset_ff (psxRegisters.iCacheCode regs)) regs in
  set_m_regs regs c.

Definition Reset (c : R3000Acpu) : R3000Acpu :=
  let c := invalidateCache c in
  set_m_regs (psxRegisters.set_interrupt 0 (m_regs c)) c.

(** A CPU as [psxReset] leaves it: registers zeroed, cache invalidated. *)
Definition power_on : R3000Acpu := Reset (construct psxRegisters.zero).

(** ** Interrupt scheduling

    [1 << interrupt] is undefined from 32 on, [m_interruptScales] has 15
    entries and [intTargets] 32; [eCycle * m_interruptScales[interrupt]] is
    a product of [float]s.  [PSXIRQ_LOG] only writes to the log. *)

Definition scheduleInterrupt (c : R3000Acpu) (interrupt eCycle : Z)
  : outcome R3000Acpu :=
  if 32 <=? interrupt then Undefined
  else
    if negb (Z.land (psxRegisters.interrupt (m_regs c))
                    (wrap32 (Z.shiftl 1 interrupt)) =? 0)
    then Ok c
    else
      let cycle := psxRegisters.cycle (m_regs c) in
      scale ← at_index (m_interruptScales c) interrupt;
      delta ← uint64_of_float (float_mul (float_of_uint32 eCycle) scale);
      let target := wrap64 (cycle + delta) in
      let regs := m_regs c in
      let regs := psxRegisters.set_interrupt
                    (Z.lor (psxRegisters.interrupt regs)
                           (wrap32 (Z.shiftl 1 interrupt))) regs in
      targets ← store_index (psxRegisters.intTargets regs) interrupt target;
      let regs := psxRegisters.set_intTargets targets regs in
      let regs := if target <? psxRegisters.lowestTarget regs
                  then psxRegisters.set_lowestTarget target regs
                  else regs in
      Ok (set_m_regs regs c).

(** ** Delayed loads *)

(** [delayedLoadRef] returns a reference to the [value] field of the current
    slot; the reference is the number of that slot. *)
Definition delayedLoadRef (c : R3000Acpu) (reg mask : Z)
  : outcome (R3000Acpu * Z) :=
  if 32 <=? reg then Aborted
  else
    let cur := m_currentDelayedLoad c in
    delayedLoad ← at_index (m_delayedLoadInfo c) cur;
    let delayedLoad := DelayedLoadInfo.set_active true delayedLoad in
    let delayedLoad := DelayedLoadInfo.set_index reg delayedLoad in
    let delayedLoad := DelayedLoadInfo.set_mask mask delayedLoad in
    info ← store_index (m_delayedLoadInfo c) cur delayedLoad;
    Ok (set_m_delayedLoadInfo info c, cur).

(** A store through the reference [delayedLoadRef] returned. *)
Definition write_ref (c : R3000Acpu) (ref value : Z) : outcome R3000Acpu :=
  slot ← at_index (m_delayedLoadInfo c) ref;
  info ← store_index (m_delayedLoadInfo c) ref
           (DelayedLoadInfo.set_value value slot);
  Ok (set_m_delayedLoadInfo info c).

Definition delayedLoad (c : R3000Acpu) (reg value mask : Z)
  : outcome R3000Acpu :=
  '(c, ref) ← delayedLoadRef c reg mask;
  write_ref c ref value.

Definition delayedPCLoad (c : R3000Acpu) (value : Z) (fromLink : bool)
  : outcome R3000Acpu :=
  let cur := m_currentDelayedLoad c in
  delayedLoad ← at_index (m_delayedLoadInfo c) cur;
  let delayedLoad := DelayedLoadInfo.set_pcActive true delayedLoad in
  let delayedLoad := DelayedLoadInfo.set_pcValue value delayedLoad in
  let delayedLoad := DelayedLoadInfo.set_fromLink fromLink delayedLoad in
  info ← store_index (m_delayedLoadInfo c) cur delayedLoad;
  Ok (set_m_delayedLoadInfo info c).

Definition flushCurrentDelayedLoad (c : R3000Acpu) : outcome R3000Acpu :=
  let cur := m_currentDelayedLoad c in
  delayedLoad ← at_index (m_delayedLoadInfo c) cur;
  if DelayedLoadInfo.active delayedLoad then
    let gpr := psxRegisters.GPR (m_regs c) in
    reg ← at_index gpr (DelayedLoadInfo.index delayedLoad);
    let reg := Z.land reg (DelayedLoadInfo.mask delayedLoad) in
    let reg := Z.lor reg (DelayedLoadInfo.value delayedLoad) in
    gpr ← store_index gpr (DelayedLoadInfo.index delayedLoad) reg;
    let c := set_m_regs (psxRegisters.set_GPR gpr (m_regs c)) c in
    info ← store_index (m_delayedLoadInfo c) cur
             (DelayedLoadInfo.set_active false delayedLoad);
    Ok (set_m_delayedLoadInfo info c)
  else Ok c.

(** ** Events sent to collaborators *)

Inductive Event : Type :=
| ShellReached
| processA0KernelCall (call : Z)
| processB0KernelCall (call : Z)
| logA0KernelCall (call : Z)
| logB0KernelCall (call : Z)
| logC0KernelCall (call : Z).

#[export] Instance Event_eq_dec : EqDecision Event.
Proof. solve_decision. Defined.

(** [hasToRun]; [running] is what [g_system->running()] answers. *)
Definition hasToRun (running : bool) (c : R3000Acpu)
  : R3000Acpu * list Event * bool :=
  if negb (m_shellStarted c) then
    if psxRegisters.pc (m_regs c) =? 0x80030000
    then (set_m_shellStarted true c, [ShellReached], running)
    else (c, [], running)
  else (c, [], running).

(** ** Kernel-call interception

    [ramMask] is [g_emulator->getRamMask()] and [kernelLog] the debug setting
    [KernelLog]; the result lists the handlers called, in order. *)
Definition InterceptBIOS (checkPC : bool) (ramMask : Z) (kernelLog : bool)
    (c : R3000Acpu) (currentPC : Z) : outcome (list Event) :=
  let pc := Z.land currentPC ramMask in
  let base := Z.land (Z.shiftr currentPC 20) 0xffc in
  if checkPC && negb (base =? 0x000) && negb (base =? 0x800)
     && negb (base =? 0xa00)
  then Ok []
  else
    t1 ← at_index (psxRegisters.GPR (m_regs c)) 9;
    let call := Z.land t1 0xff in
    let processed :=
      if pc =? 0xa0 then [processA0KernelCall call]
      else if pc =? 0xb0 then [processB0KernelCall call]
      else [] in
    let logged :=
      if kernelLog then
        if pc =? 0xa0 then [logA0KernelCall call]
        else if pc =? 0xb0 then [logB0KernelCall call]
        else if pc =? 0xc0 then [logC0KernelCall call]
        else []
      else [] in
    Ok (processed ++ logged).

(** ** Instruction cache

    [~0xf] converted to [uint32_t] clears the low four bits, as [Z.lnot 0xf]
    does on [Z]. *)

Definition flushICacheLine (c : R3000Acpu) (pc : Z) : outcome R3000Acpu :=
  let pcBank := Z.shiftr pc 24 in
  if (pcBank =? 0x00) || (pcBank =? 0x80) then
    let pcCache := Z.land pc 0xfff in
    let pcCache := Z.land pcCache (Z.lnot 0xf) in
    let iAddr := psxRegisters.iCacheAddr (m_regs c) in
    let iCode := psxRegisters.iCacheCode (m_regs c) in
    iAddr ← store32 iAddr (pcCache + 0x0) 0xff;
    iAddr ← store32 iAddr (pcCache + 0x4) 0xff;
    iAddr ← store32 iAddr (pcCache + 0x8) 0xff;
    iAddr ← store32 iAddr (pcCache + 0xc) 0xff;
    iCode ← store32 iCode (pcCache + 0x0) 0xff;
    iCode ← store32 iCode (pcCache + 0x4) 0xff;
    iCode ← store32 iCode (pcCache + 0x8) 0xff;
    iCode ← store32 iCode (pcCache + 0xc) 0xff;
    Ok (set_m_regs (psxRegisters.set_iCacheCode iCode
                      (psxRegisters.set_iCacheAddr iAddr (m_regs c))) c)
  else Ok c.

(** The memory collaborator [g_emulator->m_mem]: a read has a purpose tag
    ([Memory::ReadType], of which the CPU uses [Instr]), answers a word and
    may change the memory. *)
Inductive ReadType : Type := Instr | Data.

#[export] Instance ReadType_eq_dec : EqDecision ReadType.
Proof. solve_decision. Defined.

Class Memory (M : Type) : Type := mem_read32 : M → Z → ReadType → Z * M.

(** The memory together with the reads issued to it so far. *)
Record Bus (M : Type) : Type := Build_Bus {
  bus_mem : M;
  bus_reads : list (Z * ReadType)
}.
Arguments Build_Bus {M} _ _.
Arguments bus_mem {M} _.
Arguments bus_reads {M} _.

Section WithMemory.
Context {M : Type} `{!Memory M}.

Definition read32 (b : Bus M) (addr : Z) (t : ReadType) : Z * Bus M :=
  let '(v, m) := mem_read32 (bus_mem b) addr t in
  (wrap32 v, Build_Bus m (bus_reads b ++ [(addr, t)])).

Definition readICache (c : R3000Acpu) (b : Bus M) (pc : Z)
  : outcome (Z * R3000Acpu * Bus M) :=
  let pcBank := Z.shiftr pc 24 in
  let default (c : R3000Acpu) (b : Bus M) :=
    let '(w, b) := read32 b pc Instr in Ok (w, c, b) in
  if (pcBank =? 0x00) || (pcBank =? 0x80) then
    let pcOffset := Z.land pc 0xffffff in
    let pcCache := Z.land pc 0xfff in
    let iAddr := psxRegisters.iCacheAddr (m_regs c) in
    let iCode := psxRegisters.iCacheCode (m_regs c) in
    tag ← load32 iAddr pcCache;
    if tag =? pcOffset then
      w ← load32 iCode pcCache;
      Ok (w, c, b)
    else
      let pcOffset := Z.land pcOffset (Z.lnot 0xf) in
      let pcCache := Z.land pcCache (Z.lnot 0xf) in
      iAddr ← store32 iAddr (pcCache + 0x0) (pcOffset + 0x0);
      iAddr ← store32 iAddr (pcCache + 0x4) (pcOffset + 0x4);
      iAddr ← store32 iAddr (pcCache + 0x8) (pcOffset + 0x8);
      iAddr ← store32 iAddr (pcCache + 0xc) (pcOffset + 0xc);
      let pcOffset := Z.land pc (Z.lnot 0xf) in
      let '(w0, b) := read32 b (pcOffset + 0x0) Instr in
      iCode ← store32 iCode (pcCache + 0x0) w0;
      let '(w1, b) := read32 b (pcOffset + 0x4) Instr in
      iCode ← store32 iCode (pcCache + 0x4) w1;
      let '(w2, b) := read32 b (pcOffset + 0x8) Instr in
      iCode ← store32 iCode (pcCache + 0x8) w2;
      let '(w3, b) := read32 b (pcOffset + 0xc) Instr in
      iCode ← store32 iCode (pcCache + 0xc) w3;
      default
        (set_m_regs (psxRegisters.set_iCacheCode iCode
                       (psxRegisters.set_iCacheAddr iAddr (m_regs c))) c)
        b
  else default c b.
End WithMemory.

(** Modelled from the spec: [Clear] is pure virtual in [r3000a.h] and its
    overrides live in the backends.  The spec has [Clear(address, size)]
    inform the engine that a memory range has been overwritten, forcing cache
    invalidation, and has line invalidation used after code writes: the line
    of every address of the range is invalidated with [flushICacheLine]. *)
Fixpoint Clear_from (n : nat) (c : R3000Acpu) (Addr : Z) : outcome R3000Acpu :=
  match n with
  | O => Ok c
  | S n' => c ← flushICacheLine c (wrap32 Addr); Clear_from n' c (Addr + 1)
  end.

Definition Clear (c : R3000Acpu) (Addr Size : Z) : outcome R3000Acpu :=
  Clear_from (Z.to_nat Size) c Addr.

(** ** The CPU driven by a backend

    A backend calls the member functions above and, between the calls, stores
    the next program counter into [m_regs.pc] and alternates
    [m_currentDelayedLoad]. *)

Inductive Op : Type :=
| OpSetPC (v : Z)
| OpNextDelayedLoad
| OpHasToRun (running : bool)
| OpScheduleInterrupt (interrupt eCycle : Z)
| OpDelayedLoadRef (reg mask : Z)
| OpDelayedLoad (reg value mask : Z)
| OpDelayedPCLoad (value : Z) (fromLink : bool)
| OpFlushCurrentDelayedLoad
| OpInvalidateCache
| OpFlushICacheLine (pc : Z)
| OpReadICache (pc : Z)
| OpReset.

Section Machine.
Context {M : Type} `{!Memory M}.

Definition State : Type := R3000Acpu * Bus M.

Definition step (op : Op) (st : State) : outcome (State * list Event) :=
  let '(c, b) := st in
  match op with
  | OpSetPC v =>
      Ok (set_m_regs (psxRegisters.set_pc (wrap32 v) (m_regs c)) c, b, [])
  | OpNextDelayedLoad =>
      Ok (set_m_currentDelayedLoad (Z.lxor (m_currentDelayedLoad c) 1) c, b, [])
  | OpHasToRun running =>
      let '(c, evs, _) := hasToRun running c in Ok (c, b, evs)
  | OpScheduleInterrupt interrupt eCycle =>
      c ← scheduleInterrupt c interrupt eCycle; Ok (c, b, [])
  | OpDelayedLoadRef reg mask =>
      '(c, _) ← delayedLoadRef c reg mask; Ok (c, b, [])
  | OpDelayedLoad reg value mask =>
      c ← delayedLoad c reg value mask; Ok (c, b, [])
  | OpDelayedPCLoad value fromLink =>
      c ← delayedPCLoad c value fromLink; Ok (c, b, [])
  | OpFlushCurrentDelayedLoad =>
      c ← flushCurrentDelayedLoad c; Ok (c, b, [])
  | OpInvalidateCache => Ok (invalidateCache c, b, [])
  | OpFlushICacheLine pc => c ← flushICacheLine c pc; Ok (c, b, [])
  | OpReadICache pc => '(_, c, b) ← readICache c b pc; Ok (c, b, [])
  | OpReset => Ok (Reset c, b, [])
  end.

Fixpoint run (ops : list Op) (st : State) : outcome (State * list Event) :=
  match ops with
  | [] => Ok (st, [])
  | op :: ops =>
      '(st, evs) ← step op st;
      '(st, evs') ← run ops st;
      Ok (st, evs ++ evs')
  end.
End Machine.

(** The number of [hasToRun] checks of a run that see the program counter at
    the shell's entry point, for a run that starts at [pc]. *)
Fixpoint shell_checks (ops : list Op) (pc : Z) : nat :=
  match ops with
  | [] => O
  | OpSetPC v :: ops => shell_checks ops (wrap32 v)
  | OpHasToRun _ :: ops =>
      if pc =? 0x80030000 then S (shell_checks ops pc) else shell_checks ops pc
  | _ :: ops => shell_checks ops pc
  end.

(** The program counter after a run that starts at [pc]. *)
Fixpoint pc_after (ops : list Op) (pc : Z) : Z :=
  match ops with
  | [] => pc
  | OpSetPC v :: ops => pc_after ops (wrap32 v)
  | _ :: ops => pc_after ops pc
  end.

(** Whether an operation queues a delayed load of register 0. *)
Definition loads_r0 (op : Op) : bool :=
  match op with
  | OpDelayedLoadRef reg _ | OpDelayedLoad reg _ _ => reg =? 0
  | _ => false
  end.

(** ** Memories to run the model on *)

(** A memory that answers every read with the number of reads before it. *)
Inductive CountingMemory : Type := Counting (n : Z).

#[export] Instance CountingMemory_read : Memory CountingMemory :=
  fun m _ _ => match m with Counting n => (n, Counting (n + 1)) end.

(** A read-only memory holding at each address a word made from it. *)
Inductive PatternMemory : Type := Pattern.

#[export] Instance PatternMemory_read : Memory PatternMemory :=
  fun m addr _ => (Z.lxor addr 0x3c1f0000, m).

Definition idle {M : Type} (m : M) : Bus M := Build_Bus m [].

(** The call number a handler was given. *)
Definition call_of (e : Event) : option Z :=
  match e with
  | ShellReached => None
  | processA0KernelCall call | processB0KernelCall call
  | logA0KernelCall call | logB0KernelCall call | logC0KernelCall call =>
      Some call
  end.

(** A CPU whose current slot holds a pending load of [value] under [mask]
    for register [reg], which holds [old]. *)
Definition pending (reg old value mask : Z) : R3000Acpu :=
  let c := power_on in
  let c := set_m_regs
             (psxRegisters.set_GPR
                (<[Z.to_nat reg := old]> (psxRegisters.GPR (m_regs c)))
                (m_regs c)) c in
  set_m_delayedLoadInfo
    (<[0%nat := DelayedLoadInfo.Build reg value mask 0 true false false]>
       (m_delayedLoadInfo c)) c.

(** Register 0 holds zero and no slot is waiting to be committed into it. *)
Definition zero_register_guarded (c : R3000Acpu) : Prop :=
  at_index (psxRegisters.GPR (m_regs c)) 0 = Ok 0 ∧
  Forall (λ d, DelayedLoadInfo.active d = true → DelayedLoadInfo.index d ≠ 0)
         (m_delayedLoadInfo c).

(** The addresses the instruction cache holds: the banks 0x00 and 0x80. *)
Definition cacheable (pc : Z) : bool :=
  let pcBank := Z.shiftr pc 24 in (pcBank =? 0x00) || (pcBank =? 0x80).

(** Both cache buffers have the 0x1000 bytes of their declaration. *)
Definition cache_sized (c : R3000Acpu) : Prop :=
  length (psxRegisters.iCacheAddr (m_regs c)) = 4096%nat ∧
  length (psxRegisters.iCacheCode (m_regs c)) = 4096%nat.

(** Four words stored at the four word offsets of the line at [line]. *)
Definition poke_line (buf : list Z) (line v0 v1 v2 v3 : Z) : list Z :=
  poke32 (poke32 (poke32 (poke32 buf (line + 0x0) v0) (line + 0x4) v1)
            (line + 0x8) v2) (line + 0xc) v3.

(** The CPU after the cache line of [pc] was filled with the words [w0],
    [w1], [w2], [w3]. *)
Definition filled (c : R3000Acpu) (pc w0 w1 w2 w3 : Z) : R3000Acpu :=
  let pcOffset := Z.land (Z.land pc 0xffffff) (Z.lnot 0xf) in
  let pcCache := Z.land (Z.land pc 0xfff) (Z.lnot 0xf) in
  let regs := m_regs c in
  let iAddr := poke_line (psxRegisters.iCacheAddr regs) pcCache
                 (pcOffset + 0x0) (pcOffset + 0x4) (pcOffset + 0x8)
                 (pcOffset + 0xc) in
  let iCode := poke_line (psxRegisters.iCacheCode regs) pcCache w0 w1 w2 w3 in
  set_m_regs (psxRegisters.set_iCacheCode iCode
                (psxRegisters.set_iCacheAddr iAddr regs)) c.

(** The CPU after the cache line of [pc] was invalidated. *)
Definition flushed (c : R3000Acpu) (pc : Z) : R3000Acpu :=
  let pcCache := Z.land (Z.land pc 0xfff) (Z.lnot 0xf) in
  let regs := m_regs c in
  let iAddr := poke_line (psxRegisters.iCacheAddr regs) pcCache
                 0xff 0xff 0xff 0xff in
  let iCode := poke_line (psxRegisters.iCacheCode regs) pcCache
                 0xff 0xff 0xff 0xff in
  set_m_regs (psxRegisters.set_iCacheCode iCode
                (psxRegisters.set_iCacheAddr iAddr regs)) c.

(** The word of a filled line that belongs to the word-aligned [pc]. *)
Definition word_of_line (pc w0 w1 w2 w3 : Z) : Z :=
  let slot := pc mod 16 in
  if slot =? 0 then w0 else if slot =? 4 then w1
  else if slot =? 8 then w2 else w3.

(** ** Instruction fields

    The macros [_fOp_] ... [_fImmLU_] of an instruction word, a [uint32_t];
    [_Op_] ... [_ImmLU_] apply them to [m_regs.code] of the CPU. *)

Definition _fOp_ (code : Z) : Z := Z.shiftr code 26.
Definition _fFunct_ (code : Z) : Z := Z.land code 0x3F.
Definition _fRd_ (code : Z) : Z := Z.land (Z.shiftr code 11) 0x1F.
Definition _fRt_ (code : Z) : Z := Z.land (Z.shiftr code 16) 0x1F.
Definition _fRs_ (code : Z) : Z := Z.land (Z.shiftr code 21) 0x1F.
Definition _fSa_ (code : Z) : Z := Z.land (Z.shiftr code 6) 0x1F.

(** [(uint16_t)x] and [(int16_t)x] *)
Definition uint16 (x : Z) : Z := x mod 2 ^ 16.
Definition int16 (x : Z) : Z :=
  let u := x mod 2 ^ 16 in if u <? 2 ^ 15 then u else u - 2 ^ 16.

Definition _fIm_ (code : Z) : Z := uint16 code.
Definition _fTarget_ (code : Z) : Z := Z.land code 0x03ffffff.
Definition _fImm_ (code : Z) : Z := int16 code.
Definition _fImmU_ (code : Z) : Z := Z.land code 0xffff.
Definition _fImmLU_ (code : Z) : Z := wrap32 (Z.shiftl code 16).

Definition _PC_ (c : R3000Acpu) : Z := psxRegisters.pc (m_regs c).
Definition _Op_ (c : R3000Acpu) : Z := _fOp_ (psxRegisters.code (m_regs c)).
Definition _Funct_ (c : R3000Acpu) : Z :=
  _fFunct_ (psxRegisters.code (m_regs c)).
Definition _Rd_ (c : R3000Acpu) : Z := _fRd_ (psxRegisters.code (m_regs c)).
Definition _Rt_ (c : R3000Acpu) : Z := _fRt_ (psxRegisters.code (m_regs c)).
Definition _Rs_ (c : R3000Acpu) : Z := _fRs_ (psxRegisters.code (m_regs c)).
Definition _Sa_ (c : R3000Acpu) : Z := _fSa_ (psxRegisters.code (m_regs c)).
Definition _Im_ (c : R3000Acpu) : Z := _fIm_ (psxRegisters.code (m_regs c)).
Definition _Target_ (c : R3000Acpu) : Z :=
  _fTarget_ (psxRegisters.code (m_regs c)).

(** [(_Target_ * 4) + (_PC_ & 0xf0000000)], in [uint32_t] *)
Definition _JumpTarget_ (c : R3000Acpu) : Z :=
  wrap32 (wrap32 (_Target_ c * 4) + Z.land (_PC_ c) 0xf0000000).

(** [(int16_t)_Im_ * 4 + _PC_]: the product is an [int], the sum a
    [uint32_t]. *)
Definition _BranchTarget_ (c : R3000Acpu) : Z :=
  wrap32 (int16 (_Im_ c) * 4 + _PC_ c).

(** ** Mask and shift tables of the unaligned loads *)

Definition LWL_MASK : list Z := [0xffffff; 0xffff; 0xff; 0].
Definition LWL_SHIFT : list Z := [24; 16; 8; 0].
Definition LWR_MASK : list Z := [0; 0xff000000; 0xffff0000; 0xffffff00].
Definition LWR_SHIFT : list Z := [0; 8; 16; 24].

(** The cached lowest deadline is at or below the deadline of every armed
    source. *)
Definition lowest_bounds_armed (c : R3000Acpu) : Prop :=
  ∀ i t, 0 <= i < 32 →
         Z.testbit (psxRegisters.interrupt (m_regs c)) i = true →
         at_index (psxRegisters.intTargets (m_regs c)) i = Ok t →
         psxRegisters.lowestTarget (m_regs c) <= t.

(** The CPU after source [i] was armed with the deadline [target]. *)
Definition armed_at (c : R3000Acpu) (i target : Z) : R3000Acpu :=
  let regs := m_regs c in
  set_m_regs
    (psxRegisters.set_lowestTarget
       (Z.min (psxRegisters.lowestTarget regs) target)
       (psxRegisters.set_intTargets
          (<[Z.to_nat i := target]> (psxRegisters.intTargets regs))
          (psxRegisters.set_interrupt
             (Z.lor (psxRegisters.interrupt regs) (2 ^ i)) regs))) c.

(** The tag and the word that the cache holds for [pc] are those of [pc]
    and [w]. *)
Definition resident (c : R3000Acpu) (pc w : Z) : Prop :=
  load32 (psxRegisters.iCacheAddr (m_regs c)) (Z.land pc 0xfff)
    = Ok (Z.land pc 0xffffff) ∧
  load32 (psxRegisters.iCacheCode (m_regs c)) (Z.land pc 0xfff) = Ok w.

(** The index of the cache line of [pc]. *)
Definition line_of (pc : Z) : Z := Z.land (Z.land pc 0xfff) (Z.lnot 0xf).

(** The deadline [scheduleInterrupt] computes for a source. *)
Definition deadline (c : R3000Acpu) (interrupt eCycle : Z) : outcome Z :=
  scale ← at_index (m_interruptScales c) interrupt;
  delta ← uint64_of_float (float_mul (float_of_uint32 eCycle) scale);
  Ok (wrap64 (psxRegisters.cycle (m_regs c) + delta)).

(** The interrupt table of the CPU. *)
Definition interrupt_table (c : R3000Acpu) : Z * list Z * Z :=
  (psxRegisters.interrupt (m_regs c), psxRegisters.intTargets (m_regs c),
   psxRegisters.lowestTarget (m_regs c)).

(** A CPU about to execute the instruction word [code] at [pc]. *)
Definition at_instruction (pc code : Z) : R3000Acpu :=
  let r := m_regs power_on in
  set_m_regs
    (psxRegisters.Build (psxRegisters.GPR r) (psxRegisters.CP0 r)
       (psxRegisters.CP2D r) (psxRegisters.CP2C r) pc code
       (psxRegisters.cycle r) (psxRegisters.previousCycles r)
       (psxRegisters.interrupt r) (psxRegisters.spuInterrupt r)
       (psxRegisters.intTargets r) (psxRegisters.lowestTarget r)
       (psxRegisters.iCacheAddr r) (psxRegisters.iCacheCode r))
    power_on.

(** The CPU and the bus after [power_on] fetched 0x80030004 from the pattern
    memory. *)
Definition warm : R3000Acpu :=
  filled power_on 0x80030004 0xbc1c0000 0xbc1c0004 0xbc1c0008 0xbc1c000c.

Definition warm_bus : Bus PatternMemory :=
  Build_Bus Pattern
    [(0x80030000, Instr); (0x80030004, Instr); (0x80030008, Instr);
     (0x8003000c, Instr); (0x80030004, Instr)].

(** [m_interruptScales] is a public, non-const member: other code may store
    other factors than the initial 1.0 into it. *)
Definition set_m_interruptScales (v : list float) (c : R3000Acpu) : R3000Acpu :=
  Build_R3000Acpu (m_regs c) v (m_shellStarted c) (m_inISR c)
    (m_nextIsDelaySlot c) (m_inDelaySlot c) (m_delayedLoadInfo c)
    (m_currentDelayedLoad c).

(** The scale factor 1.5. *)
Definition float_three_halves : float := S754_finite false 12582912 (-23).

(** The CPU at cycle [cycle], with the cached lowest deadline [lowest]. *)
Definition clocked (cycle lowest : Z) : R3000Acpu :=
  let r := m_regs power_on in
  set_m_regs
    (psxRegisters.Build (psxRegisters.GPR r) (psxRegisters.CP0 r)
       (psxRegisters.CP2D r) (psxRegisters.CP2C r) (psxRegisters.pc r)
       (psxRegisters.code r) cycle (psxRegisters.previousCycles r)
       (psxRegisters.interrupt r) (psxRegisters.spuInterrupt r)
       (psxRegisters.intTargets r) lowest
       (psxRegisters.iCacheAddr r) (psxRegisters.iCacheCode r))
    power_on.

(** What [n] right shifts leave of [m]: the quotient by [2 ^ n], and in the
    round and sticky bits the place of the remainder below, at or above the
    half of [2 ^ n]. *)
Definition shifted (m n : Z) (mrs : shr_record) : Prop :=
  ∃ rest,
    0 <= shr_m mrs ∧ 0 <= rest < 2 ^ n ∧
    m = shr_m mrs * 2 ^ n + rest ∧
    shr_r mrs = (2 ^ n <=? 2 * rest) ∧
    shr_s mrs = negb ((rest =? 0) || (2 * rest =? 2 ^ n)).


(** * Properties *)

(** ** The outcome monad *)

Lemma bind_Ok {A B : Type} (a : A) (k : A → outcome B) :
  (Ok a ≫= k) = k a.
Proof. reflexivity. Qed.

Lemma bind_Ok_inv {A B : Type} (m : outcome A) (k : A → outcome B) (b : B) :
  (m ≫= k) = Ok b → ∃ a, m = Ok a ∧ k a = Ok b.
Proof. destruct m; cbn; intros; [eauto | discriminate..]. Qed.

Ltac inv_bind H :=
  let a := fresh "x" in
  let E := fresh "E" in
  apply bind_Ok_inv in H; destruct H as (a & E & H).

(** ** Arrays *)

Lemma at_index_Ok {A : Type} (arr : list A) (i : Z) (a : A) :
  at_index arr i = Ok a ↔ 0 <= i ∧ arr !! Z.to_nat i = Some a.
Proof.
  unfold at_index. destruct (Z.ltb_spec i 0).
  - split; [discriminate | lia].
  - destruct (arr !! Z.to_nat i); split; intros; try discriminate.
    + split; [lia | congruence].
    + destruct H0 as [_ ?]; congruence.
    + destruct H0 as [_ ?]; congruence.
Qed.

Lemma store_index_Ok {A : Type} (arr arr' : list A) (i : Z) (a : A) :
  store_index arr i a = Ok arr' →
  0 <= i < Z.of_nat (length arr) ∧ arr' = <[Z.to_nat i := a]> arr.
Proof.
  unfold store_index.
  destruct (Z.leb_spec 0 i), (Z.ltb_spec i (Z.of_nat (length arr)));
    cbn; intros; try discriminate.
  split; [lia | congruence].
Qed.

Lemma store_index_in_range {A : Type} (arr : list A) (i : Z) (a : A) :
  0 <= i < Z.of_nat (length arr) →
  store_index arr i a = Ok (<[Z.to_nat i := a]> arr).
Proof.
  intros. unfold store_index.
  destruct (Z.leb_spec 0 i), (Z.ltb_spec i (Z.of_nat (length arr)));
    cbn; [reflexivity | lia..].
Qed.

Lemma at_index_in_range {A : Type} (arr : list A) (i : Z) (a : A) :
  at_index arr i = Ok a → 0 <= i < Z.of_nat (length arr).
Proof.
  intros [? H]%at_index_Ok. apply lookup_lt_Some in H. lia.
Qed.

Lemma at_index_store_eq {A : Type} (arr : list A) (i : Z) (a : A) :
  0 <= i < Z.of_nat (length arr) →
  at_index (<[Z.to_nat i := a]> arr) i = Ok a.
Proof.
  intros. apply at_index_Ok. split; [lia |].
  apply list_lookup_insert_eq. lia.
Qed.

Lemma at_index_store_ne {A : Type} (arr : list A) (i j : Z) (a : A) :
  0 <= i → i ≠ j →
  at_index (<[Z.to_nat i := a]> arr) j = at_index arr j.
Proof.
  intros. unfold at_index. destruct (Z.ltb_spec j 0); [reflexivity |].
  rewrite list_lookup_insert_ne by lia. reflexivity.
Qed.

(** ** Interrupt scheduling *)

Lemma shiftl_1_wrap32 (i : Z) : 0 <= i < 32 → wrap32 (Z.shiftl 1 i) = 2 ^ i.
Proof.
  intros. rewrite Z.shiftl_1_l. unfold wrap32.
  apply Z.mod_small. split; [apply Z.pow_nonneg; lia |].
  apply Z.pow_lt_mono_r; lia.
Qed.

Lemma land_pow2_testbit (a i : Z) :
  0 <= i → (Z.land a (2 ^ i) =? 0) = negb (Z.testbit a i).
Proof.
  intros Hi. destruct (Z.testbit a i) eqn:Hb; cbn.
  - apply Z.eqb_neq. intros Hz.
    assert (Z.testbit (Z.land a (2 ^ i)) i = true) as Hc
      by (rewrite Z.land_spec, Hb, Z.pow2_bits_true by lia; reflexivity).
    rewrite Hz, Z.bits_0 in Hc. discriminate.
  - apply Z.eqb_eq. apply Z.bits_inj'. intros n Hn.
    rewrite Z.land_spec, Z.bits_0.
    destruct (Z.eq_dec n i) as [-> | Hne].
    + rewrite Hb. reflexivity.
    + rewrite Z.pow2_bits_false by lia. apply andb_false_r.
Qed.

(** C3: [scheduleInterrupt] on a source whose armed bit is set returns at
    once: the CPU, with its deadlines, armed bits and cached lowest deadline,
    is the one it was given. *)
Theorem scheduleInterrupt_armed_noop (c : R3000Acpu) (interrupt eCycle : Z) :
  0 <= interrupt < 32 →
  Z.testbit (psxRegisters.interrupt (m_regs c)) interrupt = true →
  scheduleInterrupt c interrupt eCycle = Ok c.
Proof.
  intros Hi Hb. unfold scheduleInterrupt.
  destruct (Z.leb_spec 32 interrupt); [lia |].
  rewrite shiftl_1_wrap32, land_pow2_testbit, Hb by lia. reflexivity.
Qed.

Lemma scheduleInterrupt_armed_noop_witness :
  scheduleInterrupt
    (set_m_regs (psxRegisters.set_interrupt 0x4 (m_regs power_on)) power_on)
    2 1000
  = Ok (set_m_regs (psxRegisters.set_interrupt 0x4 (m_regs power_on)) power_on).
Proof.
  apply scheduleInterrupt_armed_noop; [lia | reflexivity].
Defined.

(** ** Delayed loads *)

Lemma write_ref_not_Aborted (c : R3000Acpu) (ref value : Z) :
  write_ref c ref value ≠ Aborted.
Proof.
  unfold write_ref, at_index, store_index.
  repeat (case_match; cbn); discriminate.
Qed.

Lemma delayedLoadRef_in_range (c : R3000Acpu) (reg mask : Z) (d : DelayedLoadInfo.t) :
  reg < 32 →
  at_index (m_delayedLoadInfo c) (m_currentDelayedLoad c) = Ok d →
  delayedLoadRef c reg mask =
    Ok (set_m_delayedLoadInfo
          (<[Z.to_nat (m_currentDelayedLoad c) :=
               DelayedLoadInfo.set_mask mask
                 (DelayedLoadInfo.set_index reg
                    (DelayedLoadInfo.set_active true d))]>
             (m_delayedLoadInfo c)) c,
        m_currentDelayedLoad c).
Proof.
  intros Hreg Hd. unfold delayedLoadRef.
  destruct (Z.leb_spec 32 reg); [lia |].
  rewrite Hd, bind_Ok.
  rewrite store_index_in_range by (eapply at_index_in_range; eassumption).
  reflexivity.
Qed.

(** C8: a hazard-buffer write aborts when the register index is 32 or more,
    never aborts when it is below 32, and then, on a CPU whose current slot
    exists, queues the load. *)
Theorem delayedLoad_aborts_iff_out_of_range
    (c : R3000Acpu) (reg value mask : Z) :
  (32 <= reg →
     delayedLoadRef c reg mask = Aborted ∧
     delayedLoad c reg value mask = Aborted) ∧
  (reg < 32 →
     delayedLoadRef c reg mask ≠ Aborted ∧
     delayedLoad c reg value mask ≠ Aborted ∧
     (0 <= m_currentDelayedLoad c < Z.of_nat (length (m_delayedLoadInfo c)) →
      ∃ c', delayedLoad c reg value mask = Ok c')).
Proof.
  split; intros Hreg.
  - unfold delayedLoad, delayedLoadRef.
    destruct (Z.leb_spec 32 reg); [split; reflexivity | lia].
  - assert (delayedLoadRef c reg mask ≠ Aborted) as Href.
    { unfold delayedLoadRef, at_index, store_index.
      destruct (Z.leb_spec 32 reg); [lia |].
      repeat (case_match; cbn); discriminate. }
    split; [exact Href | split].
    + unfold delayedLoad.
      destruct (delayedLoadRef c reg mask) as [[c1 ref] | |]; cbn;
        [apply write_ref_not_Aborted | congruence | discriminate].
    + intros Hcur.
      destruct (lookup_lt_is_Some_2 (m_delayedLoadInfo c)
                  (Z.to_nat (m_currentDelayedLoad c))) as [d Hd]; [lia |].
      assert (at_index (m_delayedLoadInfo c) (m_currentDelayedLoad c) = Ok d)
        as Hat by (apply at_index_Ok; split; [lia | exact Hd]).
      unfold delayedLoad.
      rewrite (delayedLoadRef_in_range c reg mask d Hreg Hat), bind_Ok.
      unfold write_ref; cbn [m_delayedLoadInfo set_m_delayedLoadInfo].
      rewrite at_index_store_eq by lia. rewrite bind_Ok.
      rewrite store_index_in_range by (rewrite length_insert; lia).
      rewrite bind_Ok. eauto.
Qed.

Lemma flushCurrentDelayedLoad_active
    (c : R3000Acpu) (d : DelayedLoadInfo.t) (old : Z) :
  at_index (m_delayedLoadInfo c) (m_currentDelayedLoad c) = Ok d →
  DelayedLoadInfo.active d = true →
  at_index (psxRegisters.GPR (m_regs c)) (DelayedLoadInfo.index d) = Ok old →
  flushCurrentDelayedLoad c =
    Ok (set_m_delayedLoadInfo
          (<[Z.to_nat (m_currentDelayedLoad c) :=
               DelayedLoadInfo.set_active false d]> (m_delayedLoadInfo c))
          (set_m_regs
             (psxRegisters.set_GPR
                (<[Z.to_nat (DelayedLoadInfo.index d) :=
                     Z.lor (Z.land old (DelayedLoadInfo.mask d))
                           (DelayedLoadInfo.value d)]>
                   (psxRegisters.GPR (m_regs c)))
                (m_regs c)) c)).
Proof.
  intros Hd Hact Hold. unfold flushCurrentDelayedLoad.
  rewrite Hd, bind_Ok, Hact, Hold, bind_Ok.
  rewrite store_index_in_range by (eapply at_index_in_range; eassumption).
  rewrite bind_Ok. cbn [m_delayedLoadInfo set_m_regs m_currentDelayedLoad].
  rewrite store_index_in_range by (eapply at_index_in_range; eassumption).
  reflexivity.
Qed.

(** C5, as the code has it: committing the current slot leaves in the target
    register the old bits that the mask selects together with every set bit
    of the pending value, [(old & mask) | value]; the other registers keep
    their values and the slot becomes inactive. *)
Theorem flushCurrentDelayedLoad_keeps_masked_bits
    (c : R3000Acpu) (d : DelayedLoadInfo.t) (old : Z) :
  at_index (m_delayedLoadInfo c) (m_currentDelayedLoad c) = Ok d →
  DelayedLoadInfo.active d = true →
  at_index (psxRegisters.GPR (m_regs c)) (DelayedLoadInfo.index d) = Ok old →
  ∃ c' new,
    flushCurrentDelayedLoad c = Ok c' ∧
    at_index (psxRegisters.GPR (m_regs c')) (DelayedLoadInfo.index d) = Ok new ∧
    new = Z.lor (Z.land old (DelayedLoadInfo.mask d)) (DelayedLoadInfo.value d) ∧
    (∀ n, Z.testbit new n =
            Z.testbit old n && Z.testbit (DelayedLoadInfo.mask d) n
            || Z.testbit (DelayedLoadInfo.value d) n) ∧
    (∀ j, j ≠ DelayedLoadInfo.index d →
          at_index (psxRegisters.GPR (m_regs c')) j =
          at_index (psxRegisters.GPR (m_regs c)) j) ∧
    at_index (m_delayedLoadInfo c') (m_currentDelayedLoad c') =
      Ok (DelayedLoadInfo.set_active false d).
Proof.
  intros Hd Hact Hold.
  pose proof (at_index_in_range _ _ _ Hd) as Hcur.
  pose proof (at_index_in_range _ _ _ Hold) as Hidx.
  eexists _, _. split; [apply flushCurrentDelayedLoad_active; eassumption |].
  cbn [m_regs set_m_regs set_m_delayedLoadInfo psxRegisters.GPR
       psxRegisters.set_GPR m_delayedLoadInfo m_currentDelayedLoad].
  split; [apply at_index_store_eq; lia |].
  split; [reflexivity |].
  split; [intros n; rewrite Z.lor_spec, Z.land_spec; reflexivity |].
  split; [intros j Hj; apply at_index_store_ne; [lia | congruence] |].
  apply at_index_store_eq; lia.
Qed.

Lemma flushCurrentDelayedLoad_keeps_masked_bits_witness :
  ∃ c' new,
    flushCurrentDelayedLoad (pending 8 0x11223344 0xab000000 0xffffff) = Ok c' ∧
    at_index (psxRegisters.GPR (m_regs c')) 8 = Ok new ∧
    new = 0xab223344 ∧
    (∀ n, Z.testbit new n =
            Z.testbit 0x11223344 n && Z.testbit 0xffffff n
            || Z.testbit 0xab000000 n) ∧
    (∀ j, j ≠ 8 →
          at_index (psxRegisters.GPR (m_regs c')) j =
          at_index (psxRegisters.GPR
                      (m_regs (pending 8 0x11223344 0xab000000 0xffffff))) j) ∧
    at_index (m_delayedLoadInfo c') (m_currentDelayedLoad c') =
      Ok (DelayedLoadInfo.Build 8 0xab000000 0xffffff 0 false false false).
Proof.
  apply (flushCurrentDelayedLoad_keeps_masked_bits
           (pending 8 0x11223344 0xab000000 0xffffff)
           (DelayedLoadInfo.Build 8 0xab000000 0xffffff 0 true false false)
           0x11223344); reflexivity.
Defined.

(** C5 as stated fails: with the default mask 0 the mask selects no bit, yet
    the commit replaces the whole register by the pending value. *)
Lemma flush_replaces_unselected_bits :
  ¬ (∀ (c c' : R3000Acpu) (d : DelayedLoadInfo.t) (old new : Z),
       at_index (m_delayedLoadInfo c) (m_currentDelayedLoad c) = Ok d →
       DelayedLoadInfo.active d = true →
       at_index (psxRegisters.GPR (m_regs c)) (DelayedLoadInfo.index d) = Ok old →
       flushCurrentDelayedLoad c = Ok c' →
       at_index (psxRegisters.GPR (m_regs c')) (DelayedLoadInfo.index d) = Ok new →
       ∀ n, 0 <= n < 32 →
            Z.testbit new n =
              if Z.testbit (DelayedLoadInfo.mask d) n
              then Z.testbit (DelayedLoadInfo.value d) n
              else Z.testbit old n).
Proof.
  intros H.
  pose proof (flushCurrentDelayedLoad_active (pending 8 0xaaaaaaaa 0x55 0)
                (DelayedLoadInfo.Build 8 0x55 0 0 true false false)
                0xaaaaaaaa eq_refl eq_refl eq_refl) as Hflush.
  specialize (H (pending 8 0xaaaaaaaa 0x55 0) _
                (DelayedLoadInfo.Build 8 0x55 0 0 true false false)
                0xaaaaaaaa 0x55 eq_refl eq_refl eq_refl Hflush).
  specialize (H ltac:(vm_compute; reflexivity) 1 ltac:(lia)).
  vm_compute in H. discriminate H.
Qed.

(** C2 as stated fails: a delayed load queued for register 0 is committed
    into register 0, which then reads 5. *)
Lemma delayed_load_of_r0_is_committed :
  at_index (psxRegisters.GPR (m_regs power_on)) 0 = Ok 0 ∧
  (c ← delayedLoad power_on 0 5 0;
   c ← flushCurrentDelayedLoad c;
   at_index (psxRegisters.GPR (m_regs c)) 0) = Ok 5.
Proof. split; reflexivity. Qed.

(** ** Kernel-call interception *)

(** C10: the call number is [t1 & 0xff], the low byte of [t1].  At an
    intercepted program counter the hook calls, with that call number, the
    semantic handler of the entry point 0xa0 or 0xb0 and, when the kernel
    log is on, the logging handler of the entry point 0xa0, 0xb0 or 0xc0;
    it calls nothing elsewhere.  So two CPUs whose [t1] agree modulo 256
    have the same handlers called with the same call number. *)
Theorem InterceptBIOS_call_is_low_byte_of_t1
    (checkPC : bool) (ramMask : Z) (kernelLog : bool)
    (c1 c2 : R3000Acpu) (currentPC t1 t1' : Z) :
  at_index (psxRegisters.GPR (m_regs c1)) 9 = Ok t1 →
  at_index (psxRegisters.GPR (m_regs c2)) 9 = Ok t1' →
  t1 mod 256 = t1' mod 256 →
  let pc := Z.land currentPC ramMask in
  let base := Z.land (Z.shiftr currentPC 20) 0xffc in
  let call := Z.land t1 0xff in
  let calls := InterceptBIOS checkPC ramMask kernelLog c1 currentPC in
  call = t1 mod 256 ∧
  calls = InterceptBIOS checkPC ramMask kernelLog c2 currentPC ∧
  (∃ evs, calls = Ok evs ∧ Forall (λ e, call_of e = Some (t1 mod 256)) evs) ∧
  (checkPC = true → base ≠ 0x000 → base ≠ 0x800 → base ≠ 0xa00 →
   calls = Ok []) ∧
  (checkPC = false ∨ base = 0x000 ∨ base = 0x800 ∨ base = 0xa00 →
   (pc = 0xa0 →
    calls = Ok (processA0KernelCall call
                :: if kernelLog then [logA0KernelCall call] else [])) ∧
   (pc = 0xb0 →
    calls = Ok (processB0KernelCall call
                :: if kernelLog then [logB0KernelCall call] else [])) ∧
   (pc = 0xc0 →
    calls = Ok (if kernelLog then [logC0KernelCall call] else [])) ∧
   (pc ≠ 0xa0 → pc ≠ 0xb0 → pc ≠ 0xc0 → calls = Ok [])).
Proof.
  intros H1 H2 Hmod pc base call calls.
  assert (call = t1 mod 256) as Hcall
    by (unfold call; change 0xff with (Z.ones 8); apply Z.land_ones; lia).
  assert (Z.land t1' 0xff = call) as Hcall'.
  { rewrite Hcall, Hmod. change 0xff with (Z.ones 8). apply Z.land_ones. lia. }
  split; [exact Hcall |].
  subst calls. unfold InterceptBIOS. rewrite H1, H2, !bind_Ok.
  rewrite Hcall'. fold pc base call.
  split; [reflexivity |].
  split.
  { rewrite <- Hcall.
    destruct (_ && _); [eexists; split; [reflexivity | constructor] |].
    eexists; split; [reflexivity |].
    apply Forall_app; split; repeat case_match; repeat constructor. }
  split.
  - intros -> H0 H8 Ha.
    apply Z.eqb_neq in H0, H8, Ha. rewrite H0, H8, Ha. reflexivity.
  - intros Hhook.
    assert (checkPC && negb (base =? 0x000) && negb (base =? 0x800)
            && negb (base =? 0xa00) = false) as ->.
    { destruct Hhook as [-> | [-> | [-> | ->]]]; [reflexivity | ..];
        destruct checkPC; reflexivity. }
    repeat split.
    + intros ->. destruct kernelLog; reflexivity.
    + intros ->. destruct kernelLog; reflexivity.
    + intros ->. destruct kernelLog; reflexivity.
    + intros Ha Hb Hc. apply Z.eqb_neq in Ha, Hb, Hc.
      rewrite Ha, Hb, Hc. destruct kernelLog; reflexivity.
Qed.

(** With the kernel log on, at the entry point 0xa0 in KSEG0: [t1] = 0x13d
    and [t1] = 0x3d both have the semantic and the logging handler of 0xa0
    called with the call number 0x3d. *)
Lemma InterceptBIOS_call_is_low_byte_of_t1_witness :
  InterceptBIOS true 0x1fffff true (pending 9 0x13d 0 0) 0x800000a0 =
    InterceptBIOS true 0x1fffff true (pending 9 0x3d 0 0) 0x800000a0 ∧
  InterceptBIOS true 0x1fffff true (pending 9 0x13d 0 0) 0x800000a0 =
    Ok [processA0KernelCall 0x3d; logA0KernelCall 0x3d].
Proof.
  destruct (InterceptBIOS_call_is_low_byte_of_t1 true 0x1fffff true
              (pending 9 0x13d 0 0) (pending 9 0x3d 0 0) 0x800000a0
              0x13d 0x3d eq_refl eq_refl eq_refl)
    as (_ & Hsame & _ & _ & Hhook).
  split; [exact Hsame |].
  destruct (Hhook (or_intror (or_intror (or_introl eq_refl)))) as (Ha0 & _).
  exact (Ha0 eq_refl).
Defined.

(** ** What the member functions leave alone *)

Ltac unpack :=
  repeat match goal with
    | H : (_ ≫= _) = Ok _ |- _ => inv_bind H
    | H : Ok _ = Ok _ |- _ => injection H as H; subst
    | H : (_, _) = (_, _) |- _ => injection H as H; subst
    | H : Undefined = Ok _ |- _ => discriminate H
    | H : Aborted = Ok _ |- _ => discriminate H
    | H : (if ?b then _ else _) = Ok _ |- _ => destruct b eqn:?
    | H : (let '(_, _) := ?x in _) = Ok _ |- _ => destruct x eqn:?
    | H : store_index _ _ _ = Ok _ |- _ =>
        apply store_index_Ok in H; destruct H as [? ?]; subst
    | x : (_ * _)%type |- _ => destruct x
    | x : @State _ |- _ => destruct x
    end.

Lemma scheduleInterrupt_frame (c c' : R3000Acpu) (interrupt eCycle : Z) :
  scheduleInterrupt c interrupt eCycle = Ok c' →
  psxRegisters.GPR (m_regs c') = psxRegisters.GPR (m_regs c) ∧
  psxRegisters.pc (m_regs c') = psxRegisters.pc (m_regs c) ∧
  m_shellStarted c' = m_shellStarted c ∧
  m_delayedLoadInfo c' = m_delayedLoadInfo c ∧
  m_currentDelayedLoad c' = m_currentDelayedLoad c.
Proof.
  unfold scheduleInterrupt. intros H. unpack; cbn; auto.
  destruct (_ <? _); cbn; auto.
Qed.

Lemma store32_Ok (buf buf' : list Z) (off v : Z) :
  store32 buf off v = Ok buf' → in_buffer buf off = true ∧ buf' = poke32 buf off v.
Proof.
  unfold store32. destruct (in_buffer buf off); [| discriminate].
  intros [= <-]. auto.
Qed.

Lemma flushICacheLine_frame (c c' : R3000Acpu) (pc : Z) :
  flushICacheLine c pc = Ok c' →
  psxRegisters.GPR (m_regs c') = psxRegisters.GPR (m_regs c) ∧
  psxRegisters.pc (m_regs c') = psxRegisters.pc (m_regs c) ∧
  m_shellStarted c' = m_shellStarted c ∧
  m_delayedLoadInfo c' = m_delayedLoadInfo c ∧
  m_currentDelayedLoad c' = m_currentDelayedLoad c.
Proof.
  unfold flushICacheLine. intros H. unpack; cbn; auto.
Qed.

Lemma readICache_frame {M : Type} `{!Memory M}
    (c c' : R3000Acpu) (b b' : Bus M) (pc w : Z) :
  readICache c b pc = Ok (w, c', b') →
  psxRegisters.GPR (m_regs c') = psxRegisters.GPR (m_regs c) ∧
  psxRegisters.pc (m_regs c') = psxRegisters.pc (m_regs c) ∧
  m_shellStarted c' = m_shellStarted c ∧
  m_delayedLoadInfo c' = m_delayedLoadInfo c ∧
  m_currentDelayedLoad c' = m_currentDelayedLoad c.
Proof.
  unfold readICache. intros H. unpack; cbn; auto.
Qed.

Lemma delayedLoadRef_frame (c c' : R3000Acpu) (reg mask ref : Z) :
  delayedLoadRef c reg mask = Ok (c', ref) →
  m_regs c' = m_regs c ∧
  m_shellStarted c' = m_shellStarted c ∧
  m_currentDelayedLoad c' = m_currentDelayedLoad c ∧
  ∃ d, at_index (m_delayedLoadInfo c) (m_currentDelayedLoad c) = Ok d ∧
       m_delayedLoadInfo c' =
         <[Z.to_nat (m_currentDelayedLoad c) :=
             DelayedLoadInfo.set_mask mask
               (DelayedLoadInfo.set_index reg
                  (DelayedLoadInfo.set_active true d))]> (m_delayedLoadInfo c).
Proof.
  unfold delayedLoadRef. intros H. unpack; cbn; eauto 10.
Qed.

Lemma write_ref_frame (c c' : R3000Acpu) (ref value : Z) :
  write_ref c ref value = Ok c' →
  m_regs c' = m_regs c ∧
  m_shellStarted c' = m_shellStarted c ∧
  m_currentDelayedLoad c' = m_currentDelayedLoad c ∧
  ∃ d, at_index (m_delayedLoadInfo c) ref = Ok d ∧
       m_delayedLoadInfo c' =
         <[Z.to_nat ref := DelayedLoadInfo.set_value value d]>
           (m_delayedLoadInfo c).
Proof.
  unfold write_ref. intros H. unpack; cbn; eauto 10.
Qed.

Lemma delayedPCLoad_frame (c c' : R3000Acpu) (value : Z) (fromLink : bool) :
  delayedPCLoad c value fromLink = Ok c' →
  m_regs c' = m_regs c ∧
  m_shellStarted c' = m_shellStarted c ∧
  m_currentDelayedLoad c' = m_currentDelayedLoad c ∧
  ∃ d, at_index (m_delayedLoadInfo c) (m_currentDelayedLoad c) = Ok d ∧
       m_delayedLoadInfo c' =
         <[Z.to_nat (m_currentDelayedLoad c) :=
             DelayedLoadInfo.set_fromLink fromLink
               (DelayedLoadInfo.set_pcValue value
                  (DelayedLoadInfo.set_pcActive true d))]> (m_delayedLoadInfo c).
Proof.
  unfold delayedPCLoad. intros H. unpack; cbn; eauto 10.
Qed.

Lemma flushCurrentDelayedLoad_frame (c c' : R3000Acpu) :
  flushCurrentDelayedLoad c = Ok c' →
  psxRegisters.pc (m_regs c') = psxRegisters.pc (m_regs c) ∧
  m_shellStarted c' = m_shellStarted c ∧
  m_currentDelayedLoad c' = m_currentDelayedLoad c ∧
  ∃ d, at_index (m_delayedLoadInfo c) (m_currentDelayedLoad c) = Ok d ∧
       if DelayedLoadInfo.active d then
         ∃ old,
           at_index (psxRegisters.GPR (m_regs c)) (DelayedLoadInfo.index d)
             = Ok old ∧
           psxRegisters.GPR (m_regs c') =
             <[Z.to_nat (DelayedLoadInfo.index d) :=
                 Z.lor (Z.land old (DelayedLoadInfo.mask d))
                       (DelayedLoadInfo.value d)]>
               (psxRegisters.GPR (m_regs c)) ∧
           m_delayedLoadInfo c' =
             <[Z.to_nat (m_currentDelayedLoad c) :=
                 DelayedLoadInfo.set_active false d]> (m_delayedLoadInfo c)
       else c' = c.
Proof.
  unfold flushCurrentDelayedLoad. intros H.
  apply bind_Ok_inv in H. destruct H as (d & Hd & H).
  destruct (DelayedLoadInfo.active d) eqn:Hact.
  - pose proof H as H'. unpack. cbn.
    repeat split; auto. exists d. rewrite Hact. eauto 10.
  - injection H as <-. repeat split; auto. exists d. rewrite Hact. auto.
Qed.

(** ** Register 0 *)

Section ZeroRegister.
Context {M : Type} `{!Memory M}.

Lemma step_zero_register_guarded
    (op : Op) (c c' : R3000Acpu) (b b' : Bus M) (evs : list Event) :
  zero_register_guarded c →
  loads_r0 op = false →
  step op (c, b) = Ok (c', b', evs) →
  zero_register_guarded c'.
Proof.
  intros [Hr0 Hslots] Hop Hstep. unfold zero_register_guarded.
  destruct op; cbn in Hstep, Hop.
  - unpack. split; cbn; auto.
  - unpack. split; cbn; auto.
  - unfold hasToRun in Hstep.
    repeat case_match; simplify_eq; split; cbn; auto.
  - unpack. apply scheduleInterrupt_frame in E as (-> & _ & _ & -> & _). auto.
  - unpack. apply delayedLoadRef_frame in E as (-> & _ & _ & d & Hd & ->).
    split; [exact Hr0 |]. apply Forall_insert; [exact Hslots |].
    cbn. intros _. apply Z.eqb_neq. exact Hop.
  - unfold delayedLoad in Hstep. unpack.
    apply delayedLoadRef_frame in E0 as (Hregs & _ & _ & d & Hd & Hinfo).
    apply write_ref_frame in E as (-> & _ & _ & d' & Hd' & ->).
    rewrite Hregs. split; [exact Hr0 |].
    assert (Forall (λ d, DelayedLoadInfo.active d = true
                         → DelayedLoadInfo.index d ≠ 0)
                   (m_delayedLoadInfo r)) as Hslots'.
    { rewrite Hinfo. apply Forall_insert; [exact Hslots |].
      cbn. intros _. apply Z.eqb_neq. exact Hop. }
    apply Forall_insert; [exact Hslots' |].
    apply at_index_Ok in Hd' as [_ Hd'].
    exact (Forall_lookup_1 _ _ _ _ Hslots' Hd').
  - unpack. apply delayedPCLoad_frame in E as (-> & _ & _ & d & Hd & ->).
    split; [exact Hr0 |]. apply Forall_insert; [exact Hslots |].
    apply at_index_Ok in Hd as [_ Hd].
    exact (Forall_lookup_1 _ _ _ _ Hslots Hd).
  - unpack.
    apply flushCurrentDelayedLoad_frame in E as (_ & _ & _ & d & Hd & Hflush).
    pose proof Hd as [_ Hd']%at_index_Ok.
    pose proof (Forall_lookup_1 _ _ _ _ Hslots Hd') as Hidx. cbn in Hidx.
    destruct (DelayedLoadInfo.active d).
    + destruct Hflush as (old & Hold & -> & ->).
      apply at_index_in_range in Hold.
      split.
      * rewrite at_index_store_ne by (specialize (Hidx eq_refl); lia).
        exact Hr0.
      * apply Forall_insert; [exact Hslots |]. cbn. discriminate.
    + subst. auto.
  - unpack. split; cbn; auto.
  - unpack. apply flushICacheLine_frame in E as (-> & _ & _ & -> & _). auto.
  - unpack. apply readICache_frame in E as (-> & _ & _ & -> & _). auto.
  - unpack. split; cbn; auto.
Qed.

(** C2, as the code has it: register 0 reads as zero after every run of
    member functions that starts from a CPU where it is zero and no slot
    targets it, as long as the run queues no delayed load for register 0.
    Nothing discards a write to register 0. *)
Theorem zero_register_preserved
    (ops : list Op) (c c' : R3000Acpu) (b b' : Bus M) (evs : list Event) :
  zero_register_guarded c →
  forallb (λ op, negb (loads_r0 op)) ops = true →
  run ops (c, b) = Ok (c', b', evs) →
  at_index (psxRegisters.GPR (m_regs c')) 0 = Ok 0.
Proof.
  revert c b evs. induction ops as [| op ops IH]; intros c b evs Hc Hops Hrun.
  - injection Hrun as <- <- <-. apply Hc.
  - cbn in Hops. apply andb_prop in Hops as [Hop Hops].
    apply negb_true_iff in Hop.
    cbn [run] in Hrun. unpack.
    eapply IH; [| exact Hops | eassumption].
    eapply step_zero_register_guarded; eassumption.
Qed.
End ZeroRegister.

Lemma zero_register_preserved_witness :
  zero_register_guarded power_on ∧
  ∃ c' b' evs,
    run [OpDelayedLoad 8 0x1234 0; OpNextDelayedLoad;
         OpReadICache 0x80030000; OpNextDelayedLoad;
         OpFlushCurrentDelayedLoad]
        (power_on, idle Pattern) = Ok (c', b', evs) ∧
    at_index (psxRegisters.GPR (m_regs c')) 8 = Ok 0x1234 ∧
    at_index (psxRegisters.GPR (m_regs c')) 0 = Ok 0.
Proof.
  assert (zero_register_guarded power_on) as Hg.
  { split; [reflexivity |]. repeat constructor; discriminate. }
  split; [exact Hg |].
  destruct (run [OpDelayedLoad 8 0x1234 0; OpNextDelayedLoad;
                 OpReadICache 0x80030000; OpNextDelayedLoad;
                 OpFlushCurrentDelayedLoad]
                (power_on, idle Pattern))
    as [[[c' b'] evs] | |] eqn:Hrun; [| vm_compute in Hrun; discriminate Hrun..].
  exists c', b', evs. split; [reflexivity |]. split.
  - vm_compute in Hrun. injection Hrun as <- _ _. reflexivity.
  - exact (zero_register_preserved
             [OpDelayedLoad 8 0x1234 0; OpNextDelayedLoad;
              OpReadICache 0x80030000; OpNextDelayedLoad;
              OpFlushCurrentDelayedLoad]
             power_on c' (idle Pattern) b' evs Hg eq_refl Hrun).
Defined.

(** ** The shell milestone *)

Section Shell.
Context {M : Type} `{!Memory M}.

Lemma run_app (l1 l2 : list Op) (st st' : @State M) (evs : list Event) :
  run (l1 ++ l2) st = Ok (st', evs) →
  ∃ st1 evs1 evs2,
    run l1 st = Ok (st1, evs1) ∧ run l2 st1 = Ok (st', evs2) ∧
    evs = evs1 ++ evs2.
Proof.
  revert st evs. induction l1 as [| op l1 IH]; intros st evs Hrun.
  - exists st, [], evs. auto.
  - cbn [app run] in Hrun. unpack.
    destruct (IH _ _ E0) as (st1 & evs1 & evs2 & H1 & H2 & ->).
    exists st1, (l ++ evs1), evs2. cbn [run].
    rewrite E, bind_Ok, H1, bind_Ok, app_assoc. auto.
Qed.

(** One operation: the program counter moves as [pc_after] says, and the
    milestone is signalled exactly by a [hasToRun] that finds the flag
    clear and the program counter at the shell's entry point. *)
Lemma step_shell
    (op : Op) (c c' : R3000Acpu) (b b' : Bus M) (evs : list Event) :
  step op (c, b) = Ok (c', b', evs) →
  psxRegisters.pc (m_regs c') = pc_after [op] (psxRegisters.pc (m_regs c)) ∧
  if m_shellStarted c then m_shellStarted c' = true ∧ evs = []
  else match shell_checks [op] (psxRegisters.pc (m_regs c)) with
       | O => m_shellStarted c' = false ∧ evs = []
       | S _ => m_shellStarted c' = true ∧ evs = [ShellReached]
       end.
Proof.
  intros Hstep. destruct op; cbn in Hstep; cbn [pc_after shell_checks].
  - unpack. cbn. destruct (m_shellStarted c); auto.
  - unpack. cbn. destruct (m_shellStarted c); auto.
  - unfold hasToRun in Hstep.
    destruct (m_shellStarted c) eqn:Hs; cbn in Hstep.
    + unpack. auto.
    + destruct (_ =? _); unpack; cbn; auto.
  - unpack. apply scheduleInterrupt_frame in E as (_ & -> & -> & _).
    destruct (m_shellStarted c); auto.
  - unpack. apply delayedLoadRef_frame in E as (-> & -> & _).
    destruct (m_shellStarted c); auto.
  - unfold delayedLoad in Hstep. unpack.
    apply delayedLoadRef_frame in E0 as (<- & <- & _).
    apply write_ref_frame in E as (-> & -> & _).
    destruct (m_shellStarted r); auto.
  - unpack. apply delayedPCLoad_frame in E as (-> & -> & _).
    destruct (m_shellStarted c); auto.
  - unpack. apply flushCurrentDelayedLoad_frame in E as (-> & -> & _).
    destruct (m_shellStarted c); auto.
  - unpack. cbn. destruct (m_shellStarted c); auto.
  - unpack. apply flushICacheLine_frame in E as (_ & -> & -> & _).
    destruct (m_shellStarted c); auto.
  - unpack. apply readICache_frame in E as (_ & -> & -> & _).
    destruct (m_shellStarted c); auto.
  - unpack. cbn. destruct (m_shellStarted c); auto.
Qed.

(** Once the flag is set nothing is signalled any more. *)
Lemma run_after_shell
    (ops : list Op) (c c' : R3000Acpu) (b b' : Bus M) (evs : list Event) :
  m_shellStarted c = true →
  run ops (c, b) = Ok (c', b', evs) →
  m_shellStarted c' = true ∧ evs = [].
Proof.
  revert c b evs. induction ops as [| op ops IH]; intros c b evs Hs Hrun.
  - injection Hrun as <- <- <-. auto.
  - cbn [run] in Hrun. unpack.
    apply step_shell in E as [_ E]. rewrite Hs in E. destruct E as [Hs' ->].
    destruct (IH _ _ _ Hs' E0) as [? ->]. auto.
Qed.

(** Until a check sees the shell's entry point nothing is signalled. *)
Lemma run_before_shell
    (ops : list Op) (c c' : R3000Acpu) (b b' : Bus M) (evs : list Event) :
  m_shellStarted c = false →
  shell_checks ops (psxRegisters.pc (m_regs c)) = O →
  run ops (c, b) = Ok (c', b', evs) →
  m_shellStarted c' = false ∧ evs = [] ∧
  psxRegisters.pc (m_regs c') = pc_after ops (psxRegisters.pc (m_regs c)).
Proof.
  revert c b evs.
  induction ops as [| op ops IH]; intros c b evs Hs Hchk Hrun.
  - injection Hrun as <- <- <-. auto.
  - cbn [run] in Hrun. unpack.
    apply step_shell in E as [Hpc E]. rewrite Hs in E.
    assert (shell_checks [op] (psxRegisters.pc (m_regs c)) = O ∧
            shell_checks ops (psxRegisters.pc (m_regs r)) = O ∧
            pc_after (op :: ops) (psxRegisters.pc (m_regs c)) =
              pc_after ops (psxRegisters.pc (m_regs r))) as (H1 & H2 & H3).
    { rewrite Hpc. clear -Hchk. destruct op; cbn in *; auto.
      destruct (_ =? _); [discriminate | auto]. }
    rewrite H1 in E. destruct E as [Hs' ->].
    destruct (IH _ _ _ Hs' H2 E0) as (? & -> & ?).
    rewrite H3. auto.
Qed.

(** C9: in a run of one CPU whose flag is clear, a [hasToRun] that is the
    first to see the program counter at 0x80030000 signals the milestone,
    nothing was signalled before it, and nothing is signalled after it,
    whatever the rest of the run does: the run signals exactly once. *)
Theorem shell_reached_signalled_once
    (pre post : list Op) (running : bool) (st st' : @State M)
    (evs : list Event) :
  m_shellStarted (fst st) = false →
  shell_checks pre (psxRegisters.pc (m_regs (fst st))) = O →
  pc_after pre (psxRegisters.pc (m_regs (fst st))) = 0x80030000 →
  run (pre ++ OpHasToRun running :: post) st = Ok (st', evs) →
  ∃ st1 st2,
    run pre st = Ok (st1, []) ∧
    step (OpHasToRun running) st1 = Ok (st2, [ShellReached]) ∧
    run post st2 = Ok (st', []) ∧
    evs = [ShellReached].
Proof.
  destruct st as [c b]. cbn [fst]. intros Hs Hchk Hpc Hrun.
  apply run_app in Hrun as ([c1 b1] & evs1 & evs2 & Hpre & Hrest & ->).
  destruct (run_before_shell _ _ _ _ _ _ Hs Hchk Hpre) as (Hs1 & -> & Hpc1).
  rewrite Hpc in Hpc1.
  cbn [run] in Hrest. unpack.
  pose proof E as [_ Hstep]%step_shell.
  rewrite Hs1 in Hstep. cbn [shell_checks] in Hstep.
  rewrite Hpc1 in Hstep. cbn in Hstep. destruct Hstep as [Hs2 ->].
  destruct (run_after_shell _ _ _ _ _ _ Hs2 E0) as [_ ->].
  eauto 10.
Qed.
End Shell.

Lemma shell_reached_signalled_once_witness :
  ∃ st' st1 st2,
    run [OpSetPC 0xbfc00000; OpHasToRun true; OpReadICache 0xbfc00000;
         OpSetPC 0x80030000; OpHasToRun true; OpSetPC 0x80030004;
         OpHasToRun true; OpSetPC 0x80030000; OpHasToRun true]
        (power_on, idle Pattern) = Ok (st', [ShellReached]) ∧
    run [OpSetPC 0xbfc00000; OpHasToRun true; OpReadICache 0xbfc00000;
         OpSetPC 0x80030000]
        (power_on, idle Pattern) = Ok (st1, []) ∧
    step (OpHasToRun true) st1 = Ok (st2, [ShellReached]) ∧
    run [OpSetPC 0x80030004; OpHasToRun true; OpSetPC 0x80030000;
         OpHasToRun true] st2 = Ok (st', []) ∧
    [ShellReached] = [ShellReached].
Proof.
  destruct (run [OpSetPC 0xbfc00000; OpHasToRun true;
                 OpReadICache 0xbfc00000; OpSetPC 0x80030000;
                 OpHasToRun true; OpSetPC 0x80030004; OpHasToRun true;
                 OpSetPC 0x80030000; OpHasToRun true]
                (power_on, idle Pattern))
    as [[st' evs] | |] eqn:Hrun; [| vm_compute in Hrun; discriminate Hrun..].
  assert (evs = [ShellReached]) as ->
    by (vm_compute in Hrun; injection Hrun as _ <-; reflexivity).
  destruct (shell_reached_signalled_once
              [OpSetPC 0xbfc00000; OpHasToRun true; OpReadICache 0xbfc00000;
               OpSetPC 0x80030000]
              [OpSetPC 0x80030004; OpHasToRun true; OpSetPC 0x80030000;
               OpHasToRun true]
              true (power_on, idle Pattern) st' [ShellReached]
              eq_refl eq_refl eq_refl Hrun)
    as (st1 & st2 & H).
  exists st', st1, st2. split; [reflexivity | exact H].
Defined.

(** ** Byte buffers *)

Lemma bytes_recompose (v : Z) :
  byte_of 0 v + byte_of 1 v * 2 ^ 8 + byte_of 2 v * 2 ^ 16
    + byte_of 3 v * 2 ^ 24 = wrap32 v.
Proof.
  unfold byte_of, wrap32.
  change (2 ^ (8 * 0)) with 1. change (2 ^ (8 * 1)) with 256.
  change (2 ^ (8 * 2)) with (256 * 256).
  change (2 ^ (8 * 3)) with (256 * 256 * 256).
  change (2 ^ 32) with (256 * (256 * (256 * 256))).
  rewrite Z.div_1_r.
  rewrite <- !Z.div_div by lia.
  rewrite (Z.rem_mul_r v 256 (256 * (256 * 256))) by lia.
  rewrite (Z.rem_mul_r (v / 256) 256 (256 * 256)) by lia.
  rewrite (Z.rem_mul_r (v / 256 / 256) 256 256) by lia.
  lia.
Qed.

Lemma length_poke32 (buf : list Z) (off v : Z) :
  length (poke32 buf off v) = length buf.
Proof. unfold poke32. rewrite !length_insert. reflexivity. Qed.

Lemma in_buffer_spec (buf : list Z) (off : Z) :
  in_buffer buf off = true ↔ 0 <= off ∧ off + 4 <= Z.of_nat (length buf).
Proof. unfold in_buffer. rewrite andb_true_iff, !Z.leb_le. reflexivity. Qed.

Lemma in_buffer_poke32 (buf : list Z) (off off' v : Z) :
  in_buffer (poke32 buf off v) off' = in_buffer buf off'.
Proof. unfold in_buffer. rewrite length_poke32. reflexivity. Qed.

Lemma store32_in_buffer (buf : list Z) (off v : Z) :
  in_buffer buf off = true → store32 buf off v = Ok (poke32 buf off v).
Proof. intros H. unfold store32. rewrite H. reflexivity. Qed.

Lemma load32_poke32_same (buf : list Z) (off v : Z) :
  in_buffer buf off = true → load32 (poke32 buf off v) off = Ok (wrap32 v).
Proof.
  intros Hin. unfold load32. rewrite in_buffer_poke32, Hin.
  apply in_buffer_spec in Hin as [? ?]. unfold poke32.
  rewrite !list_lookup_insert_ne by lia.
  rewrite list_lookup_insert_eq by lia.
  rewrite !list_lookup_insert_ne by lia.
  rewrite list_lookup_insert_eq by (rewrite ?length_insert; lia).
  rewrite !list_lookup_insert_ne by lia.
  rewrite list_lookup_insert_eq by (rewrite ?length_insert; lia).
  rewrite list_lookup_insert_eq by (rewrite ?length_insert; lia).
  rewrite bytes_recompose. reflexivity.
Qed.

Lemma load32_poke32_other (buf : list Z) (off off' v : Z) :
  0 <= off → off' + 4 <= off ∨ off + 4 <= off' →
  load32 (poke32 buf off v) off' = load32 buf off'.
Proof.
  intros Hoff Hdisj. unfold load32. rewrite in_buffer_poke32.
  destruct (in_buffer buf off') eqn:Hin; [| reflexivity].
  apply in_buffer_spec in Hin as [? ?]. unfold poke32.
  rewrite !list_lookup_insert_ne by lia. reflexivity.
Qed.

Lemma load32_in_buffer (buf : list Z) (off : Z) :
  in_buffer buf off = true → ∃ v, load32 buf off = Ok v.
Proof.
  intros Hin. unfold load32. rewrite Hin.
  apply in_buffer_spec in Hin as [? ?].
  destruct (lookup_lt_is_Some_2 buf (Z.to_nat off)) as [b0 ->]; [lia |].
  destruct (lookup_lt_is_Some_2 buf (Z.to_nat (off + 1))) as [b1 ->]; [lia |].
  destruct (lookup_lt_is_Some_2 buf (Z.to_nat (off + 2))) as [b2 ->]; [lia |].
  destruct (lookup_lt_is_Some_2 buf (Z.to_nat (off + 3))) as [b3 ->]; [lia |].
  eauto.
Qed.

(** *** Lines *)

Lemma length_poke_line (buf : list Z) (line v0 v1 v2 v3 : Z) :
  length (poke_line buf line v0 v1 v2 v3) = length buf.
Proof. unfold poke_line. rewrite !length_poke32. reflexivity. Qed.

Lemma store_line (buf : list Z) (line v0 v1 v2 v3 : Z) {A : Type}
    (k : list Z → outcome A) :
  0 <= line → line + 16 <= Z.of_nat (length buf) →
  (b ← store32 buf (line + 0x0) v0;
   b ← store32 b (line + 0x4) v1;
   b ← store32 b (line + 0x8) v2;
   b ← store32 b (line + 0xc) v3;
   k b) = k (poke_line buf line v0 v1 v2 v3).
Proof.
  intros. unfold poke_line.
  repeat (rewrite store32_in_buffer, bind_Ok
            by (apply in_buffer_spec; rewrite ?length_poke32; lia)).
  reflexivity.
Qed.

Lemma load32_poke_line_other (buf : list Z) (line off v0 v1 v2 v3 : Z) :
  0 <= line → off + 4 <= line ∨ line + 16 <= off →
  load32 (poke_line buf line v0 v1 v2 v3) off = load32 buf off.
Proof.
  intros. unfold poke_line.
  rewrite !load32_poke32_other by lia. reflexivity.
Qed.

Lemma load32_poke_line_0 (buf : list Z) (line v0 v1 v2 v3 : Z) :
  0 <= line → line + 16 <= Z.of_nat (length buf) →
  load32 (poke_line buf line v0 v1 v2 v3) line = Ok (wrap32 v0).
Proof.
  intros. unfold poke_line.
  rewrite !load32_poke32_other by lia.
  replace line with (line + 0x0) at 2 by lia.
  apply load32_poke32_same, in_buffer_spec. lia.
Qed.

Lemma load32_poke_line_1 (buf : list Z) (line v0 v1 v2 v3 : Z) :
  0 <= line → line + 16 <= Z.of_nat (length buf) →
  load32 (poke_line buf line v0 v1 v2 v3) (line + 4) = Ok (wrap32 v1).
Proof.
  intros. unfold poke_line.
  rewrite !load32_poke32_other by lia.
  apply load32_poke32_same, in_buffer_spec. rewrite length_poke32. lia.
Qed.

Lemma load32_poke_line_2 (buf : list Z) (line v0 v1 v2 v3 : Z) :
  0 <= line → line + 16 <= Z.of_nat (length buf) →
  load32 (poke_line buf line v0 v1 v2 v3) (line + 8) = Ok (wrap32 v2).
Proof.
  intros. unfold poke_line.
  rewrite !load32_poke32_other by lia.
  apply load32_poke32_same, in_buffer_spec. rewrite !length_poke32. lia.
Qed.

Lemma load32_poke_line_3 (buf : list Z) (line v0 v1 v2 v3 : Z) :
  0 <= line → line + 16 <= Z.of_nat (length buf) →
  load32 (poke_line buf line v0 v1 v2 v3) (line + 12) = Ok (wrap32 v3).
Proof.
  intros. unfold poke_line.
  apply load32_poke32_same, in_buffer_spec. rewrite !length_poke32. lia.
Qed.

(** ** Cache addresses *)

Lemma land_lnot_0xf (x : Z) : Z.land x (Z.lnot 0xf) = 16 * (x / 16).
Proof.
  change 0xf with (Z.ones 4).
  rewrite <- Z.ldiff_land, Z.ldiff_ones_r by lia.
  rewrite Z.shiftl_mul_pow2, Z.shiftr_div_pow2 by lia.
  change (2 ^ 4) with 16. lia.
Qed.

Lemma land_0xfff (x : Z) : Z.land x 0xfff = x mod 4096.
Proof. change 0xfff with (Z.ones 12). rewrite Z.land_ones by lia. reflexivity. Qed.

Lemma land_0xffffff (x : Z) : Z.land x 0xffffff = x mod 16777216.
Proof.
  change 0xffffff with (Z.ones 24). rewrite Z.land_ones by lia. reflexivity.
Qed.

Lemma cacheable_spec (pc : Z) :
  cacheable pc = true ↔
  0 <= pc < 0x01000000 ∨ 0x80000000 <= pc < 0x81000000.
Proof.
  unfold cacheable. rewrite Z.shiftr_div_pow2 by lia.
  change (2 ^ 24) with 16777216.
  rewrite orb_true_iff, !Z.eqb_eq.
  split; intros [H | H]; [left | right | left | right];
    Z.div_mod_to_equations; lia.
Qed.

(** The places of a word-aligned address in its line. *)
Lemma aligned_in_line (pc : Z) :
  pc mod 4 = 0 →
  let slot := pc mod 16 in
  (slot = 0 ∨ slot = 4 ∨ slot = 8 ∨ slot = 12) ∧
  Z.land pc 0xfff = Z.land (Z.land pc 0xfff) (Z.lnot 0xf) + slot ∧
  Z.land pc 0xffffff = Z.land (Z.land pc 0xffffff) (Z.lnot 0xf) + slot ∧
  pc = Z.land pc (Z.lnot 0xf) + slot ∧
  0 <= Z.land (Z.land pc 0xfff) (Z.lnot 0xf) <= 4080 ∧
  0 <= Z.land (Z.land pc 0xffffff) (Z.lnot 0xf) <= 16777200.
Proof.
  intros Hal slot. subst slot.
  rewrite !land_lnot_0xf, land_0xfff, land_0xffffff.
  Z.div_mod_to_equations. lia.
Qed.

(** The tag an invalidated line holds is the tag of no word-aligned
    address. *)
Lemma sentinel_never_matches (pc : Z) :
  pc mod 4 = 0 → Z.land pc 0xffffff ≠ 0xff.
Proof.
  intros Hal. rewrite land_0xffffff. Z.div_mod_to_equations. lia.
Qed.

Lemma wrap32_small (v : Z) : 0 <= v < 2 ^ 32 → wrap32 v = v.
Proof. intros. apply Z.mod_small. assumption. Qed.

(** ** Filled and invalidated lines *)

Lemma filled_sized (c : R3000Acpu) (pc w0 w1 w2 w3 : Z) :
  cache_sized c → cache_sized (filled c pc w0 w1 w2 w3).
Proof.
  intros [Ha Hc]. unfold cache_sized, filled. cbn.
  rewrite !length_poke_line. auto.
Qed.

Lemma flushed_sized (c : R3000Acpu) (pc : Z) :
  cache_sized c → cache_sized (flushed c pc).
Proof.
  intros [Ha Hc]. unfold cache_sized, flushed. cbn.
  rewrite !length_poke_line. auto.
Qed.

Lemma filled_tag (c : R3000Acpu) (pc w0 w1 w2 w3 : Z) :
  cache_sized c → pc mod 4 = 0 →
  load32 (psxRegisters.iCacheAddr (m_regs (filled c pc w0 w1 w2 w3)))
         (Z.land pc 0xfff) = Ok (Z.land pc 0xffffff).
Proof.
  intros [Ha _] Hal.
  destruct (aligned_in_line pc Hal) as (Hslot & Hc & Ho & _ & Hlc & Hlo).
  unfold filled. cbn.
  set (line := Z.land (Z.land pc 0xfff) (Z.lnot 0xf)) in *.
  set (tag := Z.land (Z.land pc 0xffffff) (Z.lnot 0xf)) in *.
  rewrite Hc, Ho.
  destruct Hslot as [-> | [-> | [-> | ->]]].
  - rewrite (Z.add_0_r line), load32_poke_line_0 by lia.
    f_equal. apply wrap32_small. lia.
  - rewrite load32_poke_line_1 by lia. f_equal. apply wrap32_small. lia.
  - rewrite load32_poke_line_2 by lia. f_equal. apply wrap32_small. lia.
  - rewrite load32_poke_line_3 by lia. f_equal. apply wrap32_small. lia.
Qed.

Lemma filled_code (c : R3000Acpu) (pc w0 w1 w2 w3 : Z) :
  cache_sized c → pc mod 4 = 0 →
  load32 (psxRegisters.iCacheCode (m_regs (filled c pc w0 w1 w2 w3)))
         (Z.land pc 0xfff) = Ok (wrap32 (word_of_line pc w0 w1 w2 w3)).
Proof.
  intros [_ Hcode] Hal.
  destruct (aligned_in_line pc Hal) as (Hslot & Hc & _ & _ & Hlc & _).
  unfold filled, word_of_line. cbn.
  set (line := Z.land (Z.land pc 0xfff) (Z.lnot 0xf)) in *.
  rewrite Hc.
  destruct Hslot as [-> | [-> | [-> | ->]]]; cbn.
  - rewrite (Z.add_0_r line), load32_poke_line_0 by lia. reflexivity.
  - rewrite load32_poke_line_1 by lia. reflexivity.
  - rewrite load32_poke_line_2 by lia. reflexivity.
  - rewrite load32_poke_line_3 by lia. reflexivity.
Qed.

Lemma flushed_tag (c : R3000Acpu) (pc : Z) :
  cache_sized c → pc mod 4 = 0 →
  load32 (psxRegisters.iCacheAddr (m_regs (flushed c pc))) (Z.land pc 0xfff)
    = Ok 0xff.
Proof.
  intros [Ha _] Hal.
  destruct (aligned_in_line pc Hal) as (Hslot & Hc & _ & _ & Hlc & _).
  unfold flushed. cbn.
  set (line := Z.land (Z.land pc 0xfff) (Z.lnot 0xf)) in *.
  rewrite Hc.
  destruct Hslot as [-> | [-> | [-> | ->]]].
  - rewrite (Z.add_0_r line), load32_poke_line_0 by lia. reflexivity.
  - rewrite load32_poke_line_1 by lia. reflexivity.
  - rewrite load32_poke_line_2 by lia. reflexivity.
  - rewrite load32_poke_line_3 by lia. reflexivity.
Qed.

(** Invalidating any line leaves a sentinel tag a sentinel tag. *)
Lemma flushed_keeps_sentinel (c : R3000Acpu) (pc off : Z) :
  cache_sized c → off mod 4 = 0 →
  load32 (psxRegisters.iCacheAddr (m_regs c)) off = Ok 0xff →
  load32 (psxRegisters.iCacheAddr (m_regs (flushed c pc))) off = Ok 0xff.
Proof.
  intros [Ha _] Hal Hold. unfold flushed. cbn.
  assert (0 <= Z.land (Z.land pc 0xfff) (Z.lnot 0xf) <= 4080) as Hlc
    by (rewrite land_lnot_0xf, land_0xfff; Z.div_mod_to_equations; lia).
  assert (Z.land (Z.land pc 0xfff) (Z.lnot 0xf) mod 16 = 0) as Hl16
    by (rewrite land_lnot_0xf; Z.div_mod_to_equations; lia).
  set (line := Z.land (Z.land pc 0xfff) (Z.lnot 0xf)) in *.
  destruct (Z.eq_dec off line) as [-> | H0];
    [rewrite load32_poke_line_0 by lia; reflexivity |].
  destruct (Z.eq_dec off (line + 4)) as [-> | H1];
    [rewrite load32_poke_line_1 by lia; reflexivity |].
  destruct (Z.eq_dec off (line + 8)) as [-> | H2];
    [rewrite load32_poke_line_2 by lia; reflexivity |].
  destruct (Z.eq_dec off (line + 12)) as [-> | H3];
    [rewrite load32_poke_line_3 by lia; reflexivity |].
  rewrite load32_poke_line_other; [exact Hold | lia |].
  Z.div_mod_to_equations. lia.
Qed.

Lemma flushICacheLine_sized (c : R3000Acpu) (pc : Z) :
  cache_sized c →
  flushICacheLine c pc = Ok (if cacheable pc then flushed c pc else c).
Proof.
  intros [Ha Hc]. unfold flushICacheLine. fold (cacheable pc).
  destruct (cacheable pc); [| reflexivity].
  assert (0 <= Z.land (Z.land pc 0xfff) (Z.lnot 0xf) <= 4080) as Hlc
    by (rewrite land_lnot_0xf, land_0xfff; Z.div_mod_to_equations; lia).
  rewrite store_line by lia.
  rewrite store_line by lia.
  reflexivity.
Qed.

(** ** Fetching through the cache *)

Section Fetch.
Context {M : Type} `{!Memory M}.

Lemma read32_spec (b b' : Bus M) (addr w : Z) (t : ReadType) :
  read32 b addr t = (w, b') →
  0 <= w < 2 ^ 32 ∧
  w = wrap32 (fst (mem_read32 (bus_mem b) addr t)) ∧
  bus_mem b' = snd (mem_read32 (bus_mem b) addr t) ∧
  bus_reads b' = bus_reads b ++ [(addr, t)].
Proof.
  unfold read32. destruct (mem_read32 (bus_mem b) addr t) as [v m].
  intros [= <- <-]. cbn. repeat split; try reflexivity;
    apply Z.mod_pos_bound; lia.
Qed.

Lemma readICache_uncached (c : R3000Acpu) (b b' : Bus M) (pc w : Z) :
  cacheable pc = false →
  read32 b pc Instr = (w, b') →
  readICache c b pc = Ok (w, c, b').
Proof.
  intros Hc Hr. unfold readICache. fold (cacheable pc).
  rewrite Hc, Hr. reflexivity.
Qed.

Lemma readICache_hit (c : R3000Acpu) (b : Bus M) (pc w : Z) :
  cacheable pc = true →
  load32 (psxRegisters.iCacheAddr (m_regs c)) (Z.land pc 0xfff)
    = Ok (Z.land pc 0xffffff) →
  load32 (psxRegisters.iCacheCode (m_regs c)) (Z.land pc 0xfff) = Ok w →
  readICache c b pc = Ok (w, c, b).
Proof.
  intros Hc Htag Hw. unfold readICache. fold (cacheable pc).
  rewrite Hc. cbv zeta. rewrite Htag, bind_Ok, Z.eqb_refl, Hw.
  reflexivity.
Qed.

Lemma readICache_miss
    (c : R3000Acpu) (pc tag w0 w1 w2 w3 w : Z) (b b0 b1 b2 b3 b' : Bus M) :
  cache_sized c →
  cacheable pc = true →
  load32 (psxRegisters.iCacheAddr (m_regs c)) (Z.land pc 0xfff) = Ok tag →
  tag ≠ Z.land pc 0xffffff →
  read32 b (Z.land pc (Z.lnot 0xf) + 0x0) Instr = (w0, b0) →
  read32 b0 (Z.land pc (Z.lnot 0xf) + 0x4) Instr = (w1, b1) →
  read32 b1 (Z.land pc (Z.lnot 0xf) + 0x8) Instr = (w2, b2) →
  read32 b2 (Z.land pc (Z.lnot 0xf) + 0xc) Instr = (w3, b3) →
  read32 b3 pc Instr = (w, b') →
  readICache c b pc = Ok (w, filled c pc w0 w1 w2 w3, b').
Proof.
  intros [Ha Hcode] Hc Htag Hne H0 H1 H2 H3 H4.
  assert (0 <= Z.land (Z.land pc 0xfff) (Z.lnot 0xf) <= 4080) as Hlc
    by (rewrite land_lnot_0xf, land_0xfff; Z.div_mod_to_equations; lia).
  unfold readICache. fold (cacheable pc).
  rewrite Hc. cbv zeta. rewrite Htag, bind_Ok.
  destruct (Z.eqb_spec tag (Z.land pc 0xffffff)) as [? | _]; [contradiction |].
  rewrite store_line by lia.
  rewrite H0. cbv beta iota.
  rewrite store32_in_buffer, bind_Ok by (apply in_buffer_spec; lia).
  rewrite H1. cbv beta iota.
  rewrite store32_in_buffer, bind_Ok
    by (apply in_buffer_spec; rewrite ?length_poke32; lia).
  rewrite H2. cbv beta iota.
  rewrite store32_in_buffer, bind_Ok
    by (apply in_buffer_spec; rewrite ?length_poke32; lia).
  rewrite H3. cbv beta iota.
  rewrite store32_in_buffer, bind_Ok
    by (apply in_buffer_spec; rewrite ?length_poke32; lia).
  rewrite H4. reflexivity.
Qed.
End Fetch.

Section FetchTheorems.
Context {M : Type} `{!Memory M}.

(** C1, as the code has it: a fetch of a cacheable address whose tag does
    not match fills the four words of the line with one instruction read
    each, in ascending order, tags them, and then reads the requested
    address a fifth time; the word it returns is the answer to that fifth
    read. *)
Theorem readICache_miss_reads_line_then_address
    (c : R3000Acpu) (pc tag w0 w1 w2 w3 w : Z) (b b0 b1 b2 b3 b' : Bus M) :
  cache_sized c →
  cacheable pc = true →
  load32 (psxRegisters.iCacheAddr (m_regs c)) (Z.land pc 0xfff) = Ok tag →
  tag ≠ Z.land pc 0xffffff →
  let line := Z.land pc (Z.lnot 0xf) in
  read32 b line Instr = (w0, b0) →
  read32 b0 (line + 4) Instr = (w1, b1) →
  read32 b1 (line + 8) Instr = (w2, b2) →
  read32 b2 (line + 12) Instr = (w3, b3) →
  read32 b3 pc Instr = (w, b') →
  ∃ c',
    readICache c b pc = Ok (w, c', b') ∧
    bus_reads b' =
      bus_reads b ++ [(line, Instr); (line + 4, Instr); (line + 8, Instr);
                      (line + 12, Instr); (pc, Instr)] ∧
    let slot := Z.land (Z.land pc 0xfff) (Z.lnot 0xf) in
    let base := Z.land (Z.land pc 0xffffff) (Z.lnot 0xf) in
    let iAddr := psxRegisters.iCacheAddr (m_regs c') in
    let iCode := psxRegisters.iCacheCode (m_regs c') in
    load32 iAddr slot = Ok base ∧
    load32 iAddr (slot + 4) = Ok (base + 4) ∧
    load32 iAddr (slot + 8) = Ok (base + 8) ∧
    load32 iAddr (slot + 12) = Ok (base + 12) ∧
    load32 iCode slot = Ok w0 ∧
    load32 iCode (slot + 4) = Ok w1 ∧
    load32 iCode (slot + 8) = Ok w2 ∧
    load32 iCode (slot + 12) = Ok w3.
Proof.
  intros Hsized Hc Htag Hne line H0 H1 H2 H3 H4.
  exists (filled c pc w0 w1 w2 w3). split.
  - apply (readICache_miss c pc tag w0 w1 w2 w3 w b b0 b1 b2 b3 b');
      try assumption.
    fold line. rewrite Z.add_0_r. exact H0.
  - apply read32_spec in H0 as (R0 & _ & _ & L0).
    apply read32_spec in H1 as (R1 & _ & _ & L1).
    apply read32_spec in H2 as (R2 & _ & _ & L2).
    apply read32_spec in H3 as (R3 & _ & _ & L3).
    apply read32_spec in H4 as (_ & _ & _ & L4).
    split.
    { rewrite L4, L3, L2, L1, L0, <- !app_assoc. reflexivity. }
    destruct Hsized as [Ha Hcode].
    assert (0 <= Z.land (Z.land pc 0xfff) (Z.lnot 0xf) <= 4080
            ∧ 0 <= Z.land (Z.land pc 0xffffff) (Z.lnot 0xf) <= 16777200)
      as [Hlc Hlo]
      by (rewrite !land_lnot_0xf, land_0xfff, land_0xffffff;
          Z.div_mod_to_equations; lia).
    unfold filled. cbn.
    set (slot := Z.land (Z.land pc 0xfff) (Z.lnot 0xf)) in *.
    set (base := Z.land (Z.land pc 0xffffff) (Z.lnot 0xf)) in *.
    rewrite !load32_poke_line_0, !load32_poke_line_1,
      !load32_poke_line_2, !load32_poke_line_3 by lia.
    rewrite !wrap32_small by lia. rewrite Z.add_0_r.
    repeat split; reflexivity.
Qed.
End FetchTheorems.

(** ** Invalidation *)

Lemma Clear_from_spec (n : nat) (c : R3000Acpu) (Addr : Z) :
  cache_sized c →
  ∃ c',
    Clear_from n c Addr = Ok c' ∧
    cache_sized c' ∧
    (∀ off, off mod 4 = 0 →
       load32 (psxRegisters.iCacheAddr (m_regs c)) off = Ok 0xff →
       load32 (psxRegisters.iCacheAddr (m_regs c')) off = Ok 0xff) ∧
    (∀ k, 0 <= k < Z.of_nat n →
       cacheable (wrap32 (Addr + k)) = true →
       wrap32 (Addr + k) mod 4 = 0 →
       load32 (psxRegisters.iCacheAddr (m_regs c'))
              (Z.land (wrap32 (Addr + k)) 0xfff) = Ok 0xff).
Proof.
  revert c Addr. induction n as [| n IH]; intros c Addr Hsized.
  - exists c. cbn. repeat split; auto; try apply Hsized. intros; lia.
  - cbn [Clear_from]. rewrite flushICacheLine_sized, bind_Ok by assumption.
    set (c1 := if cacheable (wrap32 Addr) then flushed c (wrap32 Addr) else c).
    assert (cache_sized c1) as Hsized1
      by (subst c1; destruct (cacheable _); auto using flushed_sized).
    assert (∀ off, off mod 4 = 0 →
              load32 (psxRegisters.iCacheAddr (m_regs c)) off = Ok 0xff →
              load32 (psxRegisters.iCacheAddr (m_regs c1)) off = Ok 0xff)
      as Hkeep1
      by (subst c1; destruct (cacheable _); auto using flushed_keeps_sentinel).
    destruct (IH c1 (Addr + 1) Hsized1) as (c' & Hrun & Hsized' & Hkeep & Hin).
    exists c'. split; [exact Hrun |]. split; [exact Hsized' |].
    split; [auto |].
    intros k Hk Hc Hal.
    destruct (Z.eq_dec k 0) as [-> | Hk0].
    + rewrite Z.add_0_r in *. apply Hkeep.
      * rewrite land_0xfff. Z.div_mod_to_equations. lia.
      * subst c1. rewrite Hc. apply flushed_tag; assumption.
    + replace (Addr + k) with (Addr + 1 + (k - 1)) in * by lia.
      apply Hin; [lia | assumption..].
Qed.

Section ClearTheorem.
Context {M : Type} `{!Memory M}.

(** C6: after [Clear(Addr, Size)] a fetch of a word-aligned address of the
    range misses and reads the memory again.  When the address is
    cacheable its tag is the sentinel 0xff, which is not the tag of the
    address, the line is filled anew and the word returned is the answer
    to the read of the address that follows the fill; otherwise the word is
    the answer to the single read of the address. *)
Theorem Clear_then_fetch_reads_memory
    (c : R3000Acpu) (b : Bus M) (Addr Size k : Z) :
  cache_sized c →
  0 <= k < Size →
  let a := wrap32 (Addr + k) in
  a mod 4 = 0 →
  ∃ c1,
    Clear c Addr Size = Ok c1 ∧
    (cacheable a = true →
       load32 (psxRegisters.iCacheAddr (m_regs c1)) (Z.land a 0xfff)
         = Ok 0xff ∧
       Z.land a 0xffffff ≠ 0xff ∧
       ∀ w0 w1 w2 w3 w b0 b1 b2 b3 b',
         let line := Z.land a (Z.lnot 0xf) in
         read32 b line Instr = (w0, b0) →
         read32 b0 (line + 4) Instr = (w1, b1) →
         read32 b1 (line + 8) Instr = (w2, b2) →
         read32 b2 (line + 12) Instr = (w3, b3) →
         read32 b3 a Instr = (w, b') →
         readICache c1 b a = Ok (w, filled c1 a w0 w1 w2 w3, b')) ∧
    (cacheable a = false →
       ∀ w b', read32 b a Instr = (w, b') →
               readICache c1 b a = Ok (w, c1, b')).
Proof.
  intros Hsized Hk a Hal. unfold Clear.
  destruct (Clear_from_spec (Z.to_nat Size) c Addr Hsized)
    as (c1 & Hclear & Hsized1 & _ & Hin).
  exists c1. split; [exact Hclear |]. split.
  - intros Hc.
    assert (load32 (psxRegisters.iCacheAddr (m_regs c1)) (Z.land a 0xfff)
              = Ok 0xff) as Htag
      by (apply Hin; [lia | assumption..]).
    split; [exact Htag |].
    split; [apply sentinel_never_matches; exact Hal |].
    intros w0 w1 w2 w3 w b0 b1 b2 b3 b' H0 H1 H2 H3 H4.
    apply (readICache_miss c1 a 0xff w0 w1 w2 w3 w b b0 b1 b2 b3 b');
      auto.
    + intros Heq. symmetry in Heq. revert Heq.
      apply sentinel_never_matches. exact Hal.
    + rewrite Z.add_0_r. exact H0.
  - intros Hc w b' Hr. apply readICache_uncached; assumption.
Qed.
End ClearTheorem.

(** ** The cache on concrete memories *)

Lemma power_on_sized : cache_sized power_on.
Proof. split; reflexivity. Qed.

Lemma readICache_miss_reads_line_then_address_witness :
  ∃ c',
    readICache power_on (idle (Counting 100)) 0x80030004
      = Ok (104, c',
            Build_Bus (Counting 105)
              [(0x80030000, Instr); (0x80030004, Instr); (0x80030008, Instr);
               (0x8003000c, Instr); (0x80030004, Instr)]) ∧
    [(0x80030000, Instr); (0x80030004, Instr); (0x80030008, Instr);
     (0x8003000c, Instr); (0x80030004, Instr)] =
      [] ++ [(0x80030000, Instr); (0x80030000 + 4, Instr);
             (0x80030000 + 8, Instr); (0x80030000 + 12, Instr);
             (0x80030004, Instr)] ∧
    let iAddr := psxRegisters.iCacheAddr (m_regs c') in
    let iCode := psxRegisters.iCacheCode (m_regs c') in
    load32 iAddr 0 = Ok 0x030000 ∧
    load32 iAddr (0 + 4) = Ok (0x030000 + 4) ∧
    load32 iAddr (0 + 8) = Ok (0x030000 + 8) ∧
    load32 iAddr (0 + 12) = Ok (0x030000 + 12) ∧
    load32 iCode 0 = Ok 100 ∧
    load32 iCode (0 + 4) = Ok 101 ∧
    load32 iCode (0 + 8) = Ok 102 ∧
    load32 iCode (0 + 12) = Ok 103.
Proof.
  apply (readICache_miss_reads_line_then_address
           power_on 0x80030004 0xffffffff 100 101 102 103 104
           (idle (Counting 100))
           (Build_Bus (Counting 101) [(0x80030000, Instr)])
           (Build_Bus (Counting 102)
              [(0x80030000, Instr); (0x80030004, Instr)])
           (Build_Bus (Counting 103)
              [(0x80030000, Instr); (0x80030004, Instr); (0x80030008, Instr)])
           (Build_Bus (Counting 104)
              [(0x80030000, Instr); (0x80030004, Instr); (0x80030008, Instr);
               (0x8003000c, Instr)])
           (Build_Bus (Counting 105)
              [(0x80030000, Instr); (0x80030004, Instr); (0x80030008, Instr);
               (0x8003000c, Instr); (0x80030004, Instr)])
           power_on_sized eq_refl);
    [vm_compute; reflexivity | vm_compute; discriminate | reflexivity..].
Defined.

(** C1 as stated fails: on a miss the requested address is read twice, five
    reads are issued, and the word returned is the answer to the fifth
    read, 104, not the word 101 that the fill stored. *)
Lemma readICache_miss_issues_five_reads :
  ∃ c' b',
    load32 (psxRegisters.iCacheAddr (m_regs power_on)) (Z.land 0x80030004 0xfff)
      = Ok 0xffffffff ∧
    readICache power_on (idle (Counting 100)) 0x80030004 = Ok (104, c', b') ∧
    bus_reads b' =
      [(0x80030000, Instr); (0x80030004, Instr); (0x80030008, Instr);
       (0x8003000c, Instr); (0x80030004, Instr)] ∧
    length (bus_reads b') = 5%nat ∧
    load32 (psxRegisters.iCacheCode (m_regs c')) (Z.land 0x80030004 0xfff)
      = Ok 101.
Proof.
  eexists _, _. split; [vm_compute; reflexivity |].
  split; [vm_compute; reflexivity |].
  repeat split; vm_compute; reflexivity.
Qed.

Lemma Clear_then_fetch_reads_memory_witness :
  load32 (psxRegisters.iCacheAddr
            (m_regs (filled power_on 0x80030004 1 2 3 4)))
         (Z.land (wrap32 (0x80030000 + 4)) 0xfff)
    = Ok (Z.land (wrap32 (0x80030000 + 4)) 0xffffff) ∧
  ∃ c1,
    Clear (filled power_on 0x80030004 1 2 3 4) 0x80030000 8 = Ok c1 ∧
    (cacheable (wrap32 (0x80030000 + 4)) = true →
       load32 (psxRegisters.iCacheAddr (m_regs c1))
              (Z.land (wrap32 (0x80030000 + 4)) 0xfff) = Ok 0xff ∧
       Z.land (wrap32 (0x80030000 + 4)) 0xffffff ≠ 0xff ∧
       ∀ w0 w1 w2 w3 w b0 b1 b2 b3 b',
         let line := Z.land (wrap32 (0x80030000 + 4)) (Z.lnot 0xf) in
         read32 (idle Pattern) line Instr = (w0, b0) →
         read32 b0 (line + 4) Instr = (w1, b1) →
         read32 b1 (line + 8) Instr = (w2, b2) →
         read32 b2 (line + 12) Instr = (w3, b3) →
         read32 b3 (wrap32 (0x80030000 + 4)) Instr = (w, b') →
         readICache c1 (idle Pattern) (wrap32 (0x80030000 + 4))
           = Ok (w, filled c1 (wrap32 (0x80030000 + 4)) w0 w1 w2 w3, b')) ∧
    (cacheable (wrap32 (0x80030000 + 4)) = false →
       ∀ w b', read32 (idle Pattern) (wrap32 (0x80030000 + 4)) Instr = (w, b') →
               readICache c1 (idle Pattern) (wrap32 (0x80030000 + 4))
                 = Ok (w, c1, b')).
Proof.
  split; [vm_compute; reflexivity |].
  apply (Clear_then_fetch_reads_memory
           (filled power_on 0x80030004 1 2 3 4) (idle Pattern)
           0x80030000 8 4
           (filled_sized power_on 0x80030004 1 2 3 4 power_on_sized)
           ltac:(lia) eq_refl).
Defined.

(** ** Single-precision arithmetic on cycle counts *)

Lemma digits2_pos_lower (p : positive) :
  2 ^ (Zpos (digits2_pos p) - 1) <= Zpos p.
Proof.
  induction p as [p IH | p IH |]; cbn [digits2_pos].
  - rewrite Pos2Z.inj_succ. replace (Z.succ (Zpos (digits2_pos p)) - 1)
      with (Z.succ (Zpos (digits2_pos p) - 1)) by lia.
    rewrite Z.pow_succ_r by lia. lia.
  - rewrite Pos2Z.inj_succ. replace (Z.succ (Zpos (digits2_pos p)) - 1)
      with (Z.succ (Zpos (digits2_pos p) - 1)) by lia.
    rewrite Z.pow_succ_r by lia. lia.
  - cbn. lia.
Qed.

Lemma digits2_pos_small (p : positive) :
  Zpos p < 2 ^ 24 → Zpos (digits2_pos p) <= 24.
Proof.
  intros Hp. pose proof (digits2_pos_lower p) as Hl.
  destruct (Z_le_gt_dec (Zpos (digits2_pos p)) 24) as [? | Hgt]; [assumption |].
  assert (2 ^ 24 <= 2 ^ (Zpos (digits2_pos p) - 1))
    by (apply Z.pow_le_mono_r; lia).
  lia.
Qed.

Lemma digits2_pos_iter_xO (p k : positive) :
  digits2_pos (Pos.iter xO p k) = (digits2_pos p + k)%positive.
Proof.
  induction k as [| k IH] using Pos.peano_ind.
  - cbn. lia.
  - rewrite Pos.iter_succ. cbn [digits2_pos]. rewrite IH. lia.
Qed.

Lemma Zpos_iter_xO (p k : positive) :
  Zpos (Pos.iter xO p k) = Zpos p * 2 ^ Zpos k.
Proof.
  induction k as [| k IH] using Pos.peano_ind.
  - cbn. lia.
  - rewrite Pos.iter_succ, Pos2Z.inj_xO, IH, Pos2Z.inj_succ.
    rewrite Z.pow_succ_r by lia. lia.
Qed.

(** A significand of 24 digits is kept as it is by rounding. *)
Lemma binary_round_aux_exact (s : bool) (m : positive) (e : Z) :
  digits2_pos m = 24%positive → -149 <= e <= 104 →
  binary_round_aux 24 128 s (Zpos m) e loc_Exact = S754_finite s m e.
Proof.
  intros Hd He. unfold binary_round_aux, shr_fexp, Zdigits2.
  rewrite Hd.
  replace (fexp 24 128 (24 + e) - e) with 0 by (unfold fexp, emin; lia).
  cbn [shr shr_record_of_loc shr_m loc_of_shr_record round_nearest_even].
  rewrite Hd.
  replace (fexp 24 128 (24 + e) - e) with 0 by (unfold fexp, emin; lia).
  cbn [shr shr_record_of_loc shr_m].
  destruct (Z.leb_spec e (128 - 24)); [reflexivity | lia].
Qed.

Lemma float_mul_one (m : positive) (e : Z) :
  digits2_pos m = 24%positive → -126 <= e <= 104 →
  float_mul (S754_finite false m e) float_one = S754_finite false m e.
Proof.
  intros Hd He. unfold float_mul, float_one, SFmul. cbn [xorb].
  rewrite Pos.mul_comm.
  change (8388608 * m)%positive with (Pos.iter xO m 23).
  unfold binary_round_aux, shr_fexp, Zdigits2.
  rewrite digits2_pos_iter_xO, Hd. cbn [Pos.iter].
  change (24 + 23)%positive with 47%positive.
  replace (fexp 24 128 (47 + (e + -23)) - (e + -23)) with 23
    by (unfold fexp, emin; lia).
  cbn [shr SpecFloat.iter_pos shr_1 shr_record_of_loc shr_m orb loc_of_shr_record
       round_nearest_even].
  rewrite Hd.
  replace (fexp 24 128 (24 + (e + -23 + 23)) - (e + -23 + 23)) with 0
    by (unfold fexp, emin; lia).
  cbn [shr shr_record_of_loc shr_m].
  replace (e + -23 + 23) with e by lia.
  destruct (Z.leb_spec e (128 - 24)); [reflexivity | lia].
Qed.

Lemma float_of_uint32_exact (p : positive) :
  Zpos p < 2 ^ 24 →
  ∃ m e,
    float_of_uint32 (Zpos p) = S754_finite false m e ∧
    digits2_pos m = 24%positive ∧ -23 <= e <= 0 ∧
    Zpos m = Zpos p * 2 ^ (- e).
Proof.
  intros Hp. pose proof (digits2_pos_small p Hp) as Hd.
  unfold float_of_uint32, binary_normalize, binary_round, shl_align.
  replace (fexp 24 128 (Zpos (digits2_pos p) + 0))
    with (Zpos (digits2_pos p) - 24) by (unfold fexp, emin; lia).
  destruct (Zpos (digits2_pos p) - 24 - 0) as [| k | k] eqn:Hk; [| lia |].
  - assert (digits2_pos p = 24%positive) as Hd24 by lia.
    exists p, 0. rewrite binary_round_aux_exact by (assumption || lia).
    repeat split; try lia; assumption.
  - assert (digits2_pos (Pos.iter xO p k) = 24%positive) as Hd24
      by (rewrite digits2_pos_iter_xO; lia).
    exists (Pos.iter xO p k), (Zpos (digits2_pos p) - 24).
    rewrite binary_round_aux_exact by (assumption || lia).
    repeat split; try lia; try assumption.
    rewrite Zpos_iter_xO. f_equal. f_equal. lia.
Qed.

(** A cycle count below 2^24 survives the conversion to [float], the
    multiplication by 1.0 and the conversion back. *)
Lemma scaled_by_one (n : Z) :
  0 <= n < 2 ^ 24 →
  uint64_of_float (float_mul (float_of_uint32 n) float_one) = Ok n.
Proof.
  intros Hn. destruct n as [| p | p]; [reflexivity | | lia].
  destruct (float_of_uint32_exact p) as (m & e & -> & Hd & He & Hm); [lia |].
  rewrite float_mul_one by (assumption || lia).
  unfold uint64_of_float.
  assert ((if 0 <=? e then Z.shiftl (Zpos m) e else Z.shiftr (Zpos m) (- e))
          = Zpos p) as ->.
  { destruct (Z.leb_spec 0 e).
    - replace e with 0 in * by lia. rewrite Z.shiftl_0_r. cbn in Hm. lia.
    - rewrite Z.shiftr_div_pow2, Hm by lia.
      apply Z.div_mul. apply Z.pow_nonzero; lia. }
  destruct (Z.ltb_spec (Zpos p) (2 ^ 64)); [reflexivity | lia].
Qed.

(** ** Rounding of a cycle count to 24 significant bits *)

Lemma digits2_pos_upper (p : positive) : Zpos p < 2 ^ Zpos (digits2_pos p).
Proof.
  induction p as [p IH | p IH |]; cbn [digits2_pos].
  - rewrite Pos2Z.inj_succ, Z.pow_succ_r by lia. lia.
  - rewrite Pos2Z.inj_succ, Z.pow_succ_r by lia. lia.
  - cbn. lia.
Qed.

Lemma digits2_pos_log2 (p : positive) :
  Zpos (digits2_pos p) = Z.log2 (Zpos p) + 1.
Proof.
  pose proof (digits2_pos_lower p). pose proof (digits2_pos_upper p).
  symmetry. apply Z.add_move_r. apply Z.log2_unique; [lia |].
  replace (Z.succ (Zpos (digits2_pos p) - 1)) with (Zpos (digits2_pos p))
    by lia.
  lia.
Qed.

Lemma shr_1_shifted (m n : Z) (mrs : shr_record) :
  0 <= n → shifted m n mrs → shifted m (n + 1) (shr_1 mrs).
Proof.
  intros Hn (rest & Hm & Hrest & Heq & Hr & Hs).
  destruct mrs as [q r s]. cbn [shr_m shr_r shr_s] in *.
  assert (0 < 2 ^ n) as Hpow by (apply Z.pow_pos_nonneg; lia).
  unfold shifted. rewrite Z.pow_add_r, Z.pow_1_r by lia.
  destruct q as [| [q | q |] |]; [| | | | lia]; cbn [shr_1 shr_m shr_r shr_s];
    [exists rest | exists (rest + 2 ^ n) | exists rest | exists (rest + 2 ^ n)];
    subst r s;
    repeat match goal with
           | |- context [?a <=? ?b] => destruct (Z.leb_spec a b)
           | |- context [?a =? ?b] => destruct (Z.eqb_spec a b)
           end;
    cbn [negb orb]; repeat split; first [reflexivity | lia].
Qed.

Lemma iter_pos_shr_1_shifted (m : Z) (k : positive) :
  ∀ (n : Z) (mrs : shr_record),
    0 <= n → shifted m n mrs →
    shifted m (n + Zpos k) (SpecFloat.iter_pos shr_1 k mrs).
Proof.
  induction k as [k IH | k IH |]; intros n mrs Hn H;
    cbn [SpecFloat.iter_pos].
  - replace (n + Zpos k~1) with (n + 1 + Zpos k + Zpos k) by lia.
    apply IH; [lia |]. apply IH; [lia |]. apply shr_1_shifted; assumption.
  - replace (n + Zpos k~0) with (n + Zpos k + Zpos k) by lia.
    apply IH; [lia |]. apply IH; assumption.
  - apply shr_1_shifted; assumption.
Qed.

Lemma shifted_start (m : Z) : 0 <= m → shifted m 0 (Build_shr_record m false false).
Proof.
  intros Hm. exists 0. cbn. repeat split; lia.
Qed.

(** The rounded significand: the quotient or its successor, to the nearest,
    to the even one at a tie. *)
Lemma round_nearest_even_shifted (m n : Z) (mrs : shr_record) :
  0 <= n → shifted m n mrs →
  let R := round_nearest_even (shr_m mrs) (loc_of_shr_record mrs) in
  let u := 2 ^ n in
  shr_m mrs <= R <= shr_m mrs + 1 ∧
  2 * Z.abs (R * u - m) <= u ∧
  (2 * Z.abs (R * u - m) = u → Z.even R = true).
Proof.
  intros Hn (rest & Hm & Hrest & Heq & Hr & Hs) R u.
  assert (0 < u) as Hu by (apply Z.pow_pos_nonneg; lia).
  destruct mrs as [q r s]. cbn [shr_m shr_r shr_s] in *.
  fold u in Hrest, Heq, Hr, Hs. subst R.
  destruct (Z.leb_spec u (2 * rest)), (Z.eqb_spec rest 0),
           (Z.eqb_spec (2 * rest) u); cbn in Hr, Hs; subst r s;
    cbn [loc_of_shr_record round_nearest_even]; try lia.
  all: try destruct (Z.even q) eqn:He.
  all: split; [lia |]; split; [nia |].
  all: first [ intros; nia | intros _; rewrite ?Z.even_add, ?He; reflexivity ].
Qed.

Lemma digits2_pos_bounds (p : positive) (d : Z) :
  2 ^ (d - 1) <= Zpos p < 2 ^ d → 0 < d → Zpos (digits2_pos p) = d.
Proof.
  intros Hp Hd. rewrite digits2_pos_log2.
  rewrite (Z.log2_unique (Zpos p) (d - 1)); [lia | lia |].
  replace (Z.succ (d - 1)) with d by lia. exact Hp.
Qed.

(** The conversion of a count of 25 to 32 bits: the count, rounded at the
    unit [2 ^ k] of its 24 leading bits. *)
Lemma float_of_uint32_rounded (p : positive) :
  2 ^ 24 <= Zpos p < 2 ^ 32 →
  let u := 2 ^ (Z.log2 (Zpos p) - 23) in
  ∃ m e,
    float_of_uint32 (Zpos p) = S754_finite false m e ∧
    digits2_pos m = 24%positive ∧ 1 <= e <= 9 ∧
    (Zpos m * 2 ^ e) mod u = 0 ∧
    2 * Z.abs (Zpos m * 2 ^ e - Zpos p) <= u ∧
    (2 * Z.abs (Zpos m * 2 ^ e - Zpos p) = u →
     Z.even (Zpos m * 2 ^ e / u) = true).
Proof.
  intros Hp.
  pose proof (digits2_pos_log2 p) as Hd.
  pose proof (digits2_pos_lower p) as Hlo.
  pose proof (digits2_pos_upper p) as Hup.
  assert (24 <= Z.log2 (Zpos p) < 32) as Hlog.
  { split; [apply Z.log2_le_pow2; lia | apply Z.log2_lt_pow2; lia]. }
  destruct (Z.log2 (Zpos p) - 23) as [| k | k] eqn:Ek; [lia | | lia].
  intros u.
  assert (1 <= Zpos k <= 8) as Hk by lia.
  assert (Zpos (digits2_pos p) = 24 + Zpos k) as Hdk by lia.
  assert (0 < u) as Hu by (apply Z.pow_pos_nonneg; lia).
  assert (2 ^ (24 + Zpos k) = 16777216 * u) as Hpow
    by (unfold u; rewrite Z.pow_add_r by lia; reflexivity).
  assert (2 ^ (24 + Zpos k - 1) = 8388608 * u) as Hpow'.
  { replace (24 + Zpos k - 1) with (23 + Zpos k) by lia.
    unfold u. rewrite Z.pow_add_r by lia. reflexivity. }
  rewrite Hdk in Hlo, Hup. rewrite Hpow in Hup. rewrite Hpow' in Hlo.
  unfold float_of_uint32, binary_normalize, binary_round, shl_align.
  replace (fexp 24 128 (Zpos (digits2_pos p) + 0)) with (Zpos k)
    by (unfold fexp, emin; lia).
  rewrite Z.sub_0_r. cbv beta iota.
  unfold binary_round_aux, shr_fexp.
  change (Zdigits2 (Zpos p)) with (Zpos (digits2_pos p)).
  replace (fexp 24 128 (Zpos (digits2_pos p) + 0) - 0) with (Zpos k)
    by (unfold fexp, emin; lia).
  cbn [shr shr_record_of_loc]. cbv beta iota. rewrite !(Z.add_0_l (Zpos k)).
  pose proof (iter_pos_shr_1_shifted (Zpos p) k 0 _ ltac:(lia)
                (shifted_start (Zpos p) ltac:(lia))) as Hsh.
  rewrite Z.add_0_l in Hsh.
  set (mrs := SpecFloat.iter_pos shr_1 k _) in *.
  pose proof (round_nearest_even_shifted (Zpos p) (Zpos k) mrs ltac:(lia) Hsh)
    as (HR & Hnear & Htie).
  fold u in Hnear, Htie.
  destruct Hsh as (rest & Hm & Hrest & Heq & _). fold u in Hrest, Heq.
  remember (round_nearest_even (shr_m mrs) (loc_of_shr_record mrs)) as R
    eqn:ER.
  assert (8388608 <= shr_m mrs < 16777216) as Hq by nia.
  destruct R as [| r | r]; [lia | | lia].
  destruct (Pos.eq_dec r 16777216%positive) as [-> | Hnot].
  - unfold Zdigits2.
    replace (fexp 24 128 (Zpos (digits2_pos 16777216) + Zpos k) - Zpos k)
      with 1 by (unfold fexp, emin; cbn [digits2_pos Pos.succ]; lia).
    cbn [shr SpecFloat.iter_pos shr_1 shr_m]. cbv beta iota. cbn [shr_m].
    replace (Zpos k + 1 <=? 128 - 24) with true
      by (symmetry; apply Z.leb_le; lia).
    exists 8388608%positive, (Zpos k + 1).
    split; [reflexivity |]. split; [reflexivity |]. split; [lia |].
    assert (Zpos 8388608 * 2 ^ (Zpos k + 1) = 16777216 * u) as Hval.
    { rewrite Z.pow_add_r by lia. fold u. lia. }
    rewrite Hval.
    split; [apply Z.mod_mul; lia |]. split; [lia |].
    intros Ht. rewrite Z.div_mul by lia. reflexivity.
  - assert (Zpos (digits2_pos r) = 24) as Hdr.
    { apply digits2_pos_bounds; [| lia].
      change (2 ^ (24 - 1)) with 8388608. change (2 ^ 24) with 16777216.
      lia. }
    unfold Zdigits2.
    replace (fexp 24 128 (Zpos (digits2_pos r) + Zpos k) - Zpos k)
      with 0 by (unfold fexp, emin; lia).
    cbn [shr]. cbv beta iota. cbn [shr_m].
    replace (Zpos k <=? 128 - 24) with true
      by (symmetry; apply Z.leb_le; lia).
    exists r, (Zpos k).
    split; [reflexivity |]. split; [lia |]. split; [lia |].
    fold u.
    split; [apply Z.mod_mul; lia |]. split; [lia |].
    intros Ht. rewrite Z.div_mul by lia. auto.
Qed.

(** With the scale factor 1.0 a count of 25 to 32 bits becomes the count
    rounded to 24 significant bits, to the nearest, to the even one at a
    tie. *)
Lemma scaled_by_one_rounded (n : Z) :
  2 ^ 24 <= n < 2 ^ 32 →
  let u := 2 ^ (Z.log2 n - 23) in
  ∃ delta,
    uint64_of_float (float_mul (float_of_uint32 n) float_one) = Ok delta ∧
    delta mod u = 0 ∧
    2 * Z.abs (delta - n) <= u ∧
    (2 * Z.abs (delta - n) = u → Z.even (delta / u) = true).
Proof.
  intros Hn u. destruct n as [| p | p]; [lia | | lia].
  destruct (float_of_uint32_rounded p Hn)
    as (m & e & -> & Hd & He & Hmod & Hnear & Htie).
  rewrite float_mul_one by (assumption || lia).
  exists (Zpos m * 2 ^ e). fold u in Hmod, Hnear, Htie.
  split; [| auto].
  unfold uint64_of_float.
  destruct (Z.leb_spec 0 e); [| lia].
  rewrite Z.shiftl_mul_pow2 by lia.
  assert (Zpos m < 2 ^ 24).
  { pose proof (digits2_pos_upper m) as Hup. rewrite Hd in Hup. exact Hup. }
  assert (2 ^ e <= 2 ^ 9) by (apply Z.pow_le_mono_r; lia).
  assert (0 < 2 ^ e) by (apply Z.pow_pos_nonneg; lia).
  destruct (Z.ltb_spec (Zpos m * 2 ^ e) (2 ^ 64)); [reflexivity | nia].
Qed.

(** ** Scheduling an unarmed source *)

Lemma scheduleInterrupt_unarmed_scaled
    (c : R3000Acpu) (interrupt eCycle delta : Z) (scale : float) :
  0 <= interrupt < 32 →
  Z.testbit (psxRegisters.interrupt (m_regs c)) interrupt = false →
  at_index (m_interruptScales c) interrupt = Ok scale →
  uint64_of_float (float_mul (float_of_uint32 eCycle) scale) = Ok delta →
  interrupt < Z.of_nat (length (psxRegisters.intTargets (m_regs c))) →
  let regs := m_regs c in
  let target := wrap64 (psxRegisters.cycle regs + delta) in
  ∃ c',
    scheduleInterrupt c interrupt eCycle = Ok c' ∧
    psxRegisters.interrupt (m_regs c') =
      Z.lor (psxRegisters.interrupt regs) (2 ^ interrupt) ∧
    at_index (psxRegisters.intTargets (m_regs c')) interrupt = Ok target ∧
    (∀ j, j ≠ interrupt →
          at_index (psxRegisters.intTargets (m_regs c')) j =
          at_index (psxRegisters.intTargets regs) j) ∧
    psxRegisters.lowestTarget (m_regs c') =
      Z.min (psxRegisters.lowestTarget regs) target.
Proof.
  intros Hi Hb Hscale Hdelta Hlen regs target.
  unfold scheduleInterrupt.
  destruct (Z.leb_spec 32 interrupt); [lia |].
  rewrite shiftl_1_wrap32, land_pow2_testbit, Hb by lia. cbn [negb].
  rewrite Hscale, bind_Ok, Hdelta, bind_Ok.
  cbn [psxRegisters.intTargets psxRegisters.set_interrupt].
  rewrite store_index_in_range by (clear -Hi Hlen; lia).
  rewrite bind_Ok. fold regs. fold target.
  eexists. split; [reflexivity |].
  cbn [m_regs set_m_regs psxRegisters.lowestTarget
       psxRegisters.set_intTargets psxRegisters.set_interrupt].
  fold regs.
  assert (0 <= interrupt
          < Z.of_nat (length (psxRegisters.intTargets regs))) as Hrange
    by (subst regs; lia).
  destruct (Z.ltb_spec target (psxRegisters.lowestTarget regs));
    cbn [psxRegisters.interrupt psxRegisters.intTargets
         psxRegisters.lowestTarget psxRegisters.set_lowestTarget
         psxRegisters.set_intTargets psxRegisters.set_interrupt].
  - split; [reflexivity |].
    split; [apply at_index_store_eq; exact Hrange |].
    split; [intros j Hj; apply at_index_store_ne; lia | lia].
  - split; [reflexivity |].
    split; [apply at_index_store_eq; exact Hrange |].
    split; [intros j Hj; apply at_index_store_ne; lia | lia].
Qed.

(** C4, as the code has it: for an unarmed source [scheduleInterrupt]
    computes the product of the cycle count and the scale factor of the
    source in single precision; when the product converts to [delta], it
    arms the source, sets its deadline to the current cycle plus [delta],
    modulo 2^64, leaves the other deadlines and the cycle counter alone and
    makes the cached lowest deadline the smaller of its old value and the
    new deadline.  With the scale factor 1.0 the product always converts:
    [delta] is the count itself below 2^24, and from 2^24 on the count
    rounded to 24 significant bits, to the nearest, to the even one at a
    tie. *)
Theorem scheduleInterrupt_unarmed_deadline
    (c : R3000Acpu) (interrupt eCycle : Z) (scale : float) :
  0 <= interrupt < 32 →
  Z.testbit (psxRegisters.interrupt (m_regs c)) interrupt = false →
  at_index (m_interruptScales c) interrupt = Ok scale →
  interrupt < Z.of_nat (length (psxRegisters.intTargets (m_regs c))) →
  0 <= eCycle < 2 ^ 32 →
  let regs := m_regs c in
  let product := float_mul (float_of_uint32 eCycle) scale in
  (∀ delta,
     uint64_of_float product = Ok delta →
     let target := wrap64 (psxRegisters.cycle regs + delta) in
     ∃ c',
       scheduleInterrupt c interrupt eCycle = Ok c' ∧
       psxRegisters.interrupt (m_regs c') =
         Z.lor (psxRegisters.interrupt regs) (2 ^ interrupt) ∧
       Z.testbit (psxRegisters.interrupt (m_regs c')) interrupt = true ∧
       at_index (psxRegisters.intTargets (m_regs c')) interrupt = Ok target ∧
       (∀ j, j ≠ interrupt →
             at_index (psxRegisters.intTargets (m_regs c')) j =
             at_index (psxRegisters.intTargets regs) j) ∧
       psxRegisters.lowestTarget (m_regs c') =
         Z.min (psxRegisters.lowestTarget regs) target ∧
       psxRegisters.cycle (m_regs c') = psxRegisters.cycle regs) ∧
  (scale = float_one →
   ∃ delta,
     uint64_of_float product = Ok delta ∧
     (eCycle < 2 ^ 24 → delta = eCycle) ∧
     (2 ^ 24 <= eCycle →
      let u := 2 ^ (Z.log2 eCycle - 23) in
      delta mod u = 0 ∧
      2 * Z.abs (delta - eCycle) <= u ∧
      (2 * Z.abs (delta - eCycle) = u → Z.even (delta / u) = true))).
Proof.
  intros Hi Hb Hscale Hlen He regs product. split.
  - intros delta Hdelta target.
    destruct (scheduleInterrupt_unarmed_scaled c interrupt eCycle delta scale
                Hi Hb Hscale Hdelta Hlen)
      as (c' & Hrun & Hint & Htarget & Hothers & Hlow).
    exists c'. repeat split; try assumption.
    + rewrite Hint, Z.lor_spec, Z.pow2_bits_true by lia. apply orb_true_r.
    + unfold scheduleInterrupt in Hrun. unpack; [reflexivity |].
      destruct (_ <? _); reflexivity.
  - intros ->. subst product.
    destruct (Z.lt_ge_cases eCycle (2 ^ 24)) as [Hsmall | Hbig].
    + exists eCycle. split; [apply scaled_by_one; lia |].
      split; [reflexivity | lia].
    + destruct (scaled_by_one_rounded eCycle ltac:(lia))
        as (delta & Hconv & Hround).
      exists delta. split; [exact Hconv |]. split; [lia |].
      intros _. exact Hround.
Qed.

(** At cycle 100 with the lowest deadline at 2^40: the count 2^24 + 3 at the
    scale 1.0 is rounded to 2^24 + 4, and the count 3 at the scale 1.5 gives
    4; both lower the lowest deadline. *)
Lemma scheduleInterrupt_unarmed_deadline_witness :
  (∃ c',
     scheduleInterrupt (clocked 100 0x10000000000) 2 16777219 = Ok c' ∧
     Z.testbit (psxRegisters.interrupt (m_regs c')) 2 = true ∧
     at_index (psxRegisters.intTargets (m_regs c')) 2 = Ok 16777320 ∧
     psxRegisters.lowestTarget (m_regs c') = 16777320) ∧
  (∃ c',
     scheduleInterrupt
       (set_m_interruptScales (replicate 15 float_three_halves)
          (clocked 100 0x10000000000)) 2 3 = Ok c' ∧
     Z.testbit (psxRegisters.interrupt (m_regs c')) 2 = true ∧
     at_index (psxRegisters.intTargets (m_regs c')) 2 = Ok 104 ∧
     psxRegisters.lowestTarget (m_regs c') = 104).
Proof.
  split.
  - destruct (scheduleInterrupt_unarmed_deadline
                (clocked 100 0x10000000000) 2 16777219 float_one
                ltac:(lia) eq_refl eq_refl ltac:(vm_compute; reflexivity)
                ltac:(lia)) as [Hgeneral Hdefault].
    destruct (Hdefault eq_refl) as (delta & Hconv & _).
    destruct (Hgeneral delta Hconv)
      as (c' & Hrun & _ & Hbit & Htarget & _ & Hlow & _).
    vm_compute in Hconv. injection Hconv as <-.
    exists c'. split; [exact Hrun |]. split; [exact Hbit |].
    split; [exact Htarget | exact Hlow].
  - destruct (scheduleInterrupt_unarmed_deadline
                (set_m_interruptScales (replicate 15 float_three_halves)
                   (clocked 100 0x10000000000)) 2 3 float_three_halves
                ltac:(lia) eq_refl eq_refl ltac:(vm_compute; reflexivity)
                ltac:(lia)) as [Hgeneral _].
    destruct (Hgeneral 4 eq_refl)
      as (c' & Hrun & _ & Hbit & Htarget & _ & Hlow & _).
    exists c'. split; [exact Hrun |]. split; [exact Hbit |].
    split; [exact Htarget | exact Hlow].
Defined.

(** C4 as stated fails: the cycle count is converted to [float] before it is
    scaled, so with the default scale factor 1.0 the counts 0xffffffff and
    2^24 + 1 give the deadlines 2^32 and 2^24. *)
Lemma scheduleInterrupt_rounds_the_cycle_count :
  Z.testbit (psxRegisters.interrupt (m_regs power_on)) 2 = false ∧
  m_interruptScales power_on = replicate 15 float_one ∧
  psxRegisters.cycle (m_regs power_on) = 0 ∧
  (c ← scheduleInterrupt power_on 2 0xffffffff;
   at_index (psxRegisters.intTargets (m_regs c)) 2) = Ok 0x100000000 ∧
  (c ← scheduleInterrupt power_on 2 16777217;
   at_index (psxRegisters.intTargets (m_regs c)) 2) = Ok 16777216.
Proof. repeat split; vm_compute; reflexivity. Qed.


(** ** Instruction fields *)

Lemma land_low_bits (x n : Z) : 0 <= n → Z.land x (Z.ones n) = x mod 2 ^ n.
Proof. intros. apply Z.land_ones. assumption. Qed.

Lemma fields_as_quotients (code : Z) :
  _fOp_ code = code / 2 ^ 26 ∧
  _fRs_ code = (code / 2 ^ 21) mod 32 ∧
  _fRt_ code = (code / 2 ^ 16) mod 32 ∧
  _fRd_ code = (code / 2 ^ 11) mod 32 ∧
  _fSa_ code = (code / 2 ^ 6) mod 32 ∧
  _fFunct_ code = code mod 64 ∧
  _fImmU_ code = code mod 65536 ∧
  _fTarget_ code = code mod 67108864.
Proof.
  unfold _fOp_, _fRs_, _fRt_, _fRd_, _fSa_, _fFunct_, _fImmU_, _fTarget_.
  change 0x1F with (Z.ones 5). change 0x3F with (Z.ones 6).
  change 0xffff with (Z.ones 16). change 0x03ffffff with (Z.ones 26).
  rewrite !land_low_bits, !Z.shiftr_div_pow2 by lia.
  repeat split; reflexivity.
Qed.

(** X1: the six register-format fields [_fOp_], [_fRs_], [_fRt_], [_fRd_],
    [_fSa_] and [_fFunct_] of a 32-bit instruction word are within their bit
    widths and together determine the word: nothing of the word is lost and no
    two fields overlap. *)
Theorem R_type_fields_round_trip (code : Z) :
  0 <= code < 2 ^ 32 →
  0 <= _fOp_ code < 64 ∧ 0 <= _fRs_ code < 32 ∧ 0 <= _fRt_ code < 32 ∧
  0 <= _fRd_ code < 32 ∧ 0 <= _fSa_ code < 32 ∧ 0 <= _fFunct_ code < 64 ∧
  code = _fOp_ code * 2 ^ 26 + _fRs_ code * 2 ^ 21 + _fRt_ code * 2 ^ 16
         + _fRd_ code * 2 ^ 11 + _fSa_ code * 2 ^ 6 + _fFunct_ code.
Proof.
  intros Hc.
  destruct (fields_as_quotients code) as (-> & -> & -> & -> & -> & -> & _).
  change (2 ^ 32) with 4294967296 in Hc.
  change (2 ^ 26) with 67108864. change (2 ^ 21) with 2097152.
  change (2 ^ 16) with 65536. change (2 ^ 11) with 2048. change (2 ^ 6) with 64.
  Z.div_mod_to_equations. lia.
Qed.

(** X2: decoding is the inverse of encoding: the word assembled from six
    fields that fit their widths is a 32-bit word whose fields are exactly
    those six. *)
Theorem R_type_fields_of_encoding (op rs rt rd sa funct : Z) :
  0 <= op < 64 → 0 <= rs < 32 → 0 <= rt < 32 → 0 <= rd < 32 →
  0 <= sa < 32 → 0 <= funct < 64 →
  let code := op * 2 ^ 26 + rs * 2 ^ 21 + rt * 2 ^ 16 + rd * 2 ^ 11
              + sa * 2 ^ 6 + funct in
  0 <= code < 2 ^ 32 ∧
  _fOp_ code = op ∧ _fRs_ code = rs ∧ _fRt_ code = rt ∧ _fRd_ code = rd ∧
  _fSa_ code = sa ∧ _fFunct_ code = funct.
Proof.
  intros Hop Hrs Hrt Hrd Hsa Hf code.
  destruct (fields_as_quotients code) as (-> & -> & -> & -> & -> & -> & _).
  subst code.
  change (2 ^ 32) with 4294967296.
  change (2 ^ 26) with 67108864. change (2 ^ 21) with 2097152.
  change (2 ^ 16) with 65536. change (2 ^ 11) with 2048. change (2 ^ 6) with 64.
  repeat split; try lia; Z.div_mod_to_equations; lia.
Qed.

(** X3: a 32-bit instruction word is also determined by its opcode, two
    registers and [_fImmU_] (immediate format), and by its opcode and
    [_fTarget_] (jump format). *)
Theorem I_and_J_type_fields_round_trip (code : Z) :
  0 <= code < 2 ^ 32 →
  0 <= _fImmU_ code < 2 ^ 16 ∧ 0 <= _fTarget_ code < 2 ^ 26 ∧
  code = _fOp_ code * 2 ^ 26 + _fRs_ code * 2 ^ 21 + _fRt_ code * 2 ^ 16
         + _fImmU_ code ∧
  code = _fOp_ code * 2 ^ 26 + _fTarget_ code.
Proof.
  intros Hc.
  destruct (fields_as_quotients code)
    as (-> & -> & -> & _ & _ & _ & -> & ->).
  change (2 ^ 32) with 4294967296 in Hc.
  change (2 ^ 26) with 67108864. change (2 ^ 21) with 2097152.
  change (2 ^ 16) with 65536.
  Z.div_mod_to_equations. lia.
Qed.

(** X4: the immediate views of a word agree: [_fIm_] and [_fImmU_] are the
    same low half, [_fImm_] is that half sign-extended by bit 15 into
    -32768..32767, and [_fImmLU_] is the same half moved to the upper 16 bits
    with a zero lower half. *)
Theorem immediates_agree (code : Z) :
  _fIm_ code = _fImmU_ code ∧
  - 2 ^ 15 <= _fImm_ code < 2 ^ 15 ∧
  _fImm_ code mod 2 ^ 16 = _fImmU_ code ∧
  _fImm_ code =
    (if Z.testbit code 15 then _fImmU_ code - 2 ^ 16 else _fImmU_ code) ∧
  _fImmLU_ code = _fImmU_ code * 2 ^ 16 ∧
  Z.shiftr (_fImmLU_ code) 16 = _fImmU_ code ∧
  Z.land (_fImmLU_ code) 0xffff = 0.
Proof.
  destruct (fields_as_quotients code) as (_ & _ & _ & _ & _ & _ & HU & _).
  assert (Z.testbit code 15 = negb (code mod 2 ^ 16 <? 2 ^ 15)) as Hbit.
  { pose proof (Z.testbit_spec' code 15 ltac:(lia)) as Hs.
    change (2 ^ 16) with 65536. change (2 ^ 15) with 32768 in *.
    destruct (Z.testbit code 15), (Z.ltb_spec (code mod 65536) 32768);
      cbn in *; try reflexivity; Z.div_mod_to_equations; lia. }
  unfold _fIm_, _fImm_, _fImmLU_, uint16, int16, wrap32.
  rewrite Hbit, HU, Z.shiftl_mul_pow2, Z.shiftr_div_pow2 by lia.
  change 0xffff with (Z.ones 16). rewrite land_low_bits by lia.
  change (2 ^ 32) with 4294967296. change (2 ^ 16) with 65536.
  change (2 ^ 15) with 32768.
  destruct (Z.ltb_spec (code mod 65536) 32768); cbn [negb];
    repeat split; Z.div_mod_to_equations; lia.
Qed.

Lemma land_ldiff (x a b : Z) : Z.land x (Z.ldiff a b) = Z.ldiff (Z.land x a) b.
Proof.
  apply Z.bits_inj'. intros n Hn.
  rewrite Z.land_spec, !Z.ldiff_spec, Z.land_spec. apply andb_assoc.
Qed.

Lemma land_0xf0000000 (x : Z) :
  0 <= x < 2 ^ 32 → Z.land x 0xf0000000 = x / 2 ^ 28 * 2 ^ 28.
Proof.
  intros Hx. change 0xf0000000 with (Z.ldiff (Z.ones 32) (Z.ones 28)).
  rewrite land_ldiff, land_low_bits, Z.ldiff_ones_r by lia.
  rewrite Z.shiftl_mul_pow2, Z.shiftr_div_pow2, Z.mod_small by lia.
  reflexivity.
Qed.

(** X5: for a 32-bit program counter [_JumpTarget_] never wraps, is word
    aligned, keeps the top four bits of the program counter and has as low 28
    bits four times the 26-bit target field. *)
Theorem JumpTarget_stays_in_segment (c : R3000Acpu) :
  0 <= _PC_ c < 2 ^ 32 →
  _JumpTarget_ c = _Target_ c * 4 + Z.land (_PC_ c) 0xf0000000 ∧
  0 <= _JumpTarget_ c < 2 ^ 32 ∧
  _JumpTarget_ c mod 4 = 0 ∧
  Z.shiftr (_JumpTarget_ c) 28 = Z.shiftr (_PC_ c) 28 ∧
  Z.land (_JumpTarget_ c) 0x0fffffff = _Target_ c * 4.
Proof.
  intros Hpc. unfold _JumpTarget_, _Target_.
  destruct (fields_as_quotients (psxRegisters.code (m_regs c)))
    as (_ & _ & _ & _ & _ & _ & _ & ->).
  rewrite land_0xf0000000 by assumption.
  set (t := psxRegisters.code (m_regs c) mod 67108864).
  assert (0 <= t < 67108864) by (apply Z.mod_pos_bound; lia).
  set (s := _PC_ c / 2 ^ 28).
  assert (0 <= s < 16)
    by (subst s; change (2 ^ 32) with 4294967296 in Hpc;
        change (2 ^ 28) with 268435456; Z.div_mod_to_equations; lia).
  change 0x0fffffff with (Z.ones 28).
  rewrite land_low_bits, !Z.shiftr_div_pow2 by lia. fold s.
  unfold wrap32. change (2 ^ 32) with 4294967296.
  change (2 ^ 28) with 268435456.
  rewrite (Z.mod_small (t * 4)) by lia.
  rewrite (Z.mod_small (t * 4 + s * 268435456)) by lia.
  repeat split; try lia; Z.div_mod_to_equations; lia.
Qed.

(** X6: [_BranchTarget_] is the program counter plus four times the signed
    16-bit immediate, modulo 2^32; it is a 32-bit value and is word aligned
    when the program counter is. *)
Theorem BranchTarget_is_relative (c : R3000Acpu) :
  _BranchTarget_ c
    = (_PC_ c + 4 * _fImm_ (psxRegisters.code (m_regs c))) mod 2 ^ 32 ∧
  0 <= _BranchTarget_ c < 2 ^ 32 ∧
  (_PC_ c mod 4 = 0 → _BranchTarget_ c mod 4 = 0).
Proof.
  unfold _BranchTarget_, _Im_, _fIm_, _fImm_, int16, uint16, wrap32.
  rewrite Z.mod_mod by lia.
  set (i := if psxRegisters.code (m_regs c) mod 2 ^ 16 <? 2 ^ 15
            then psxRegisters.code (m_regs c) mod 2 ^ 16
            else psxRegisters.code (m_regs c) mod 2 ^ 16 - 2 ^ 16).
  change (2 ^ 32) with 4294967296.
  split; [f_equal; lia |].
  split; [apply Z.mod_pos_bound; lia |].
  intros Hal. Z.div_mod_to_equations. lia.
Qed.

Lemma delayedLoad_below_32 (c : R3000Acpu) (reg value mask : Z) :
  reg < 32 →
  delayedLoadRef c reg mask ≠ Aborted ∧ delayedLoad c reg value mask ≠ Aborted.
Proof.
  intros Hreg.
  assert (delayedLoadRef c reg mask ≠ Aborted) as Href.
  { unfold delayedLoadRef, at_index, store_index.
    destruct (Z.leb_spec 32 reg); [lia |].
    repeat (case_match; cbn); discriminate. }
  split; [exact Href |].
  unfold delayedLoad.
  destruct (delayedLoadRef c reg mask) as [[c1 ref] | |]; cbn;
    [apply write_ref_not_Aborted | congruence | discriminate].
Qed.

(** X7: a register number taken from the instruction word with [_Rt_], [_Rd_]
    or [_Rs_] never makes [delayedLoad] or [delayedLoadRef] abort, whatever
    the word is. *)
Theorem decoded_registers_never_abort (c : R3000Acpu) (value mask : Z) :
  delayedLoad c (_Rt_ c) value mask ≠ Aborted ∧
  delayedLoad c (_Rd_ c) value mask ≠ Aborted ∧
  delayedLoad c (_Rs_ c) value mask ≠ Aborted ∧
  delayedLoadRef c (_Rt_ c) mask ≠ Aborted ∧
  delayedLoadRef c (_Rd_ c) mask ≠ Aborted ∧
  delayedLoadRef c (_Rs_ c) mask ≠ Aborted.
Proof.
  destruct (fields_as_quotients (psxRegisters.code (m_regs c)))
    as (_ & Hrs & Hrt & Hrd & _).
  assert (_Rt_ c < 32) by (unfold _Rt_; rewrite Hrt; apply Z.mod_pos_bound; lia).
  assert (_Rd_ c < 32) by (unfold _Rd_; rewrite Hrd; apply Z.mod_pos_bound; lia).
  assert (_Rs_ c < 32) by (unfold _Rs_; rewrite Hrs; apply Z.mod_pos_bound; lia).
  repeat split; apply delayedLoad_below_32; assumption.
Qed.


(** ** Queueing and committing delayed loads *)

Lemma set_m_delayedLoadInfo_twice (l1 l2 : list DelayedLoadInfo.t) (c : R3000Acpu) :
  set_m_delayedLoadInfo l1 (set_m_delayedLoadInfo l2 c)
  = set_m_delayedLoadInfo l1 c.
Proof. reflexivity. Qed.

Lemma delayedLoad_queued
    (c : R3000Acpu) (reg value mask : Z) (d : DelayedLoadInfo.t) :
  reg < 32 →
  at_index (m_delayedLoadInfo c) (m_currentDelayedLoad c) = Ok d →
  delayedLoad c reg value mask =
    Ok (set_m_delayedLoadInfo
          (<[Z.to_nat (m_currentDelayedLoad c) :=
               DelayedLoadInfo.Build reg value mask (DelayedLoadInfo.pcValue d)
                 true (DelayedLoadInfo.pcActive d) (DelayedLoadInfo.fromLink d)]>
             (m_delayedLoadInfo c)) c).
Proof.
  intros Hreg Hd. pose proof (at_index_in_range _ _ _ Hd) as Hcur.
  unfold delayedLoad.
  rewrite (delayedLoadRef_in_range c reg mask d Hreg Hd), bind_Ok.
  unfold write_ref. cbn [m_delayedLoadInfo set_m_delayedLoadInfo].
  rewrite at_index_store_eq, bind_Ok by lia.
  rewrite store_index_in_range, bind_Ok by (rewrite length_insert; lia).
  rewrite list_insert_insert_eq. reflexivity.
Qed.

Lemma delayedPCLoad_queued
    (c : R3000Acpu) (value : Z) (fromLink : bool) (d : DelayedLoadInfo.t) :
  at_index (m_delayedLoadInfo c) (m_currentDelayedLoad c) = Ok d →
  delayedPCLoad c value fromLink =
    Ok (set_m_delayedLoadInfo
          (<[Z.to_nat (m_currentDelayedLoad c) :=
               DelayedLoadInfo.Build (DelayedLoadInfo.index d)
                 (DelayedLoadInfo.value d) (DelayedLoadInfo.mask d) value
                 (DelayedLoadInfo.active d) true fromLink]>
             (m_delayedLoadInfo c)) c).
Proof.
  intros Hd. pose proof (at_index_in_range _ _ _ Hd) as Hcur.
  unfold delayedPCLoad. rewrite Hd, bind_Ok.
  rewrite store_index_in_range, bind_Ok by lia. reflexivity.
Qed.



(** X9: a delayed register load and a delayed PC load use disjoint fields of
    the slot: queueing them in either order gives the same outcome. *)
Theorem delayedLoad_delayedPCLoad_commute
    (c : R3000Acpu) (reg value mask pcValue : Z) (fromLink : bool)
    (d : DelayedLoadInfo.t) :
  at_index (m_delayedLoadInfo c) (m_currentDelayedLoad c) = Ok d →
  (c1 ← delayedLoad c reg value mask; delayedPCLoad c1 pcValue fromLink)
  = (c1 ← delayedPCLoad c pcValue fromLink; delayedLoad c1 reg value mask).
Proof.
  intros Hd. pose proof (at_index_in_range _ _ _ Hd) as Hcur.
  rewrite (delayedPCLoad_queued c pcValue fromLink d Hd), bind_Ok.
  destruct (Z.leb_spec 32 reg) as [Hge | Hlt].
  - unfold delayedLoad, delayedLoadRef.
    destruct (Z.leb_spec 32 reg); [reflexivity | lia].
  - rewrite (delayedLoad_queued c reg value mask d Hlt Hd), bind_Ok.
    erewrite delayedPCLoad_queued;
      [| cbn [m_delayedLoadInfo set_m_delayedLoadInfo m_currentDelayedLoad];
         apply at_index_store_eq; lia].
    erewrite delayedLoad_queued;
      [| exact Hlt
       | cbn [m_delayedLoadInfo set_m_delayedLoadInfo m_currentDelayedLoad];
         apply at_index_store_eq; lia].
    cbn [m_delayedLoadInfo set_m_delayedLoadInfo m_currentDelayedLoad
         DelayedLoadInfo.pcValue DelayedLoadInfo.pcActive
         DelayedLoadInfo.fromLink DelayedLoadInfo.index DelayedLoadInfo.value
         DelayedLoadInfo.mask DelayedLoadInfo.active].
    rewrite !list_insert_insert_eq. reflexivity.
Qed.


(** X11: [flushCurrentDelayedLoad] leaves the program counter, the current
    slot number and the delayed PC load of every slot alone, and touches no
    slot but the current one. *)
Theorem flushCurrentDelayedLoad_keeps_branch (c c1 : R3000Acpu) :
  flushCurrentDelayedLoad c = Ok c1 →
  psxRegisters.pc (m_regs c1) = psxRegisters.pc (m_regs c) ∧
  m_currentDelayedLoad c1 = m_currentDelayedLoad c ∧
  length (m_delayedLoadInfo c1) = length (m_delayedLoadInfo c) ∧
  ∀ j d, at_index (m_delayedLoadInfo c) j = Ok d →
    ∃ d1, at_index (m_delayedLoadInfo c1) j = Ok d1 ∧
          DelayedLoadInfo.pcActive d1 = DelayedLoadInfo.pcActive d ∧
          DelayedLoadInfo.pcValue d1 = DelayedLoadInfo.pcValue d ∧
          DelayedLoadInfo.fromLink d1 = DelayedLoadInfo.fromLink d ∧
          (j ≠ m_currentDelayedLoad c → d1 = d).
Proof.
  intros H. pose proof H as (Hpc & _ & Hcur & d & Hd & Hcase)%flushCurrentDelayedLoad_frame.
  pose proof (at_index_in_range _ _ _ Hd) as Hrange.
  split; [exact Hpc |]. split; [exact Hcur |].
  destruct (DelayedLoadInfo.active d) eqn:Hact.
  - destruct Hcase as (old & _ & _ & ->).
    split; [apply length_insert |].
    intros j dj Hj.
    destruct (Z.eq_dec j (m_currentDelayedLoad c)) as [-> | Hne].
    + rewrite Hd in Hj. injection Hj as <-.
      exists (DelayedLoadInfo.set_active false d).
      rewrite at_index_store_eq by lia. repeat split; auto. congruence.
    + exists dj. rewrite at_index_store_ne by lia. auto.
  - subst c1. split; [reflexivity |]. intros j dj Hj. exists dj. auto.
Qed.

(** X12: queueing a load of a register below 32 leaves the registers
    unchanged; the following flush puts [(old & mask) | value] into that
    register (the value itself for mask 0), changes no other register and
    leaves the slot inactive. *)
Theorem delayedLoad_then_flush
    (c : R3000Acpu) (reg value mask old : Z) (d : DelayedLoadInfo.t) :
  reg < 32 →
  at_index (m_delayedLoadInfo c) (m_currentDelayedLoad c) = Ok d →
  at_index (psxRegisters.GPR (m_regs c)) reg = Ok old →
  ∃ c1 c2,
    delayedLoad c reg value mask = Ok c1 ∧
    m_regs c1 = m_regs c ∧
    flushCurrentDelayedLoad c1 = Ok c2 ∧
    at_index (psxRegisters.GPR (m_regs c2)) reg
      = Ok (Z.lor (Z.land old mask) value) ∧
    (mask = 0 → at_index (psxRegisters.GPR (m_regs c2)) reg = Ok value) ∧
    (∀ j, j ≠ reg →
          at_index (psxRegisters.GPR (m_regs c2)) j =
          at_index (psxRegisters.GPR (m_regs c)) j) ∧
    at_index (m_delayedLoadInfo c2) (m_currentDelayedLoad c2)
      = Ok (DelayedLoadInfo.Build reg value mask (DelayedLoadInfo.pcValue d)
              false (DelayedLoadInfo.pcActive d) (DelayedLoadInfo.fromLink d)).
Proof.
  intros Hreg Hd Hold.
  pose proof (at_index_in_range _ _ _ Hd) as Hcur.
  pose proof (at_index_in_range _ _ _ Hold) as Hidx.
  eexists _, _.
  split; [apply delayedLoad_queued; eassumption |].
  split; [reflexivity |].
  split.
  { apply (flushCurrentDelayedLoad_active _
             (DelayedLoadInfo.Build reg value mask (DelayedLoadInfo.pcValue d)
                true (DelayedLoadInfo.pcActive d) (DelayedLoadInfo.fromLink d))
             old).
    - cbn [m_delayedLoadInfo set_m_delayedLoadInfo m_currentDelayedLoad].
      apply at_index_store_eq; lia.
    - reflexivity.
    - exact Hold. }
  cbn [m_regs set_m_regs set_m_delayedLoadInfo psxRegisters.GPR
       psxRegisters.set_GPR m_delayedLoadInfo m_currentDelayedLoad
       DelayedLoadInfo.index DelayedLoadInfo.mask DelayedLoadInfo.value].
  split; [apply at_index_store_eq; lia |].
  split.
  { intros ->. rewrite Z.land_0_r, Z.lor_0_l. apply at_index_store_eq; lia. }
  split; [intros j Hj; apply at_index_store_ne; [lia | congruence] |].
  rewrite list_insert_insert_eq. apply at_index_store_eq; lia.
Qed.


(** ** The tables of the unaligned loads *)

Lemma at_index_4 {A : Type} (a0 a1 a2 a3 a : A) (i : Z) :
  at_index [a0; a1; a2; a3] i = Ok a →
  (i = 0 ∧ a = a0) ∨ (i = 1 ∧ a = a1) ∨ (i = 2 ∧ a = a2) ∨ (i = 3 ∧ a = a3).
Proof.
  intros [Hi H]%at_index_Ok.
  destruct (Z.to_nat i) as [| [| [| [| n]]]] eqn:Hn; cbn in H;
    try discriminate; injection H as <-.
  - left. split; [lia | reflexivity].
  - right; left. split; [lia | reflexivity].
  - right; right; left. split; [lia | reflexivity].
  - right; right; right. split; [lia | reflexivity].
Qed.

(** X13: a load queued with the mask [LWL_MASK[i]] and the memory word shifted
    left by [LWL_SHIFT[i]] commits, bit by bit, the register's bits below the
    shift and the memory word's bits from the shift up. *)
Theorem commit_of_LWL
    (c : R3000Acpu) (d : DelayedLoadInfo.t) (old i sh mem : Z) :
  at_index (m_delayedLoadInfo c) (m_currentDelayedLoad c) = Ok d →
  DelayedLoadInfo.active d = true →
  at_index (psxRegisters.GPR (m_regs c)) (DelayedLoadInfo.index d) = Ok old →
  at_index LWL_MASK i = Ok (DelayedLoadInfo.mask d) →
  at_index LWL_SHIFT i = Ok sh →
  DelayedLoadInfo.value d = wrap32 (Z.shiftl mem sh) →
  ∃ c' new,
    flushCurrentDelayedLoad c = Ok c' ∧
    at_index (psxRegisters.GPR (m_regs c')) (DelayedLoadInfo.index d) = Ok new ∧
    ∀ n, 0 <= n < 32 →
         Z.testbit new n =
           if n <? sh then Z.testbit old n else Z.testbit mem (n - sh).
Proof.
  intros Hd Hact Hold Hmask Hsh Hval.
  pose proof (at_index_in_range _ _ _ Hold) as Hidx.
  eexists _, _. split; [apply flushCurrentDelayedLoad_active; eassumption |].
  cbn [m_regs set_m_regs set_m_delayedLoadInfo psxRegisters.GPR
       psxRegisters.set_GPR].
  split; [apply at_index_store_eq; lia |].
  intros n Hn. rewrite Z.lor_spec, Z.land_spec, Hval.
  unfold wrap32. rewrite Z.mod_pow2_bits_low by lia.
  apply at_index_4 in Hmask. apply at_index_4 in Hsh.
  destruct Hmask as [[-> ->] | [[-> ->] | [[-> ->] | [-> ->]]]];
    destruct Hsh as [[? ->] | [[? ->] | [[? ->] | [? ->]]]]; try lia.
  - change 0xffffff with (Z.ones 24).
    rewrite Z.testbit_ones_nonneg, Z.shiftl_spec by lia.
    destruct (Z.ltb_spec n 24).
    + rewrite (Z.testbit_neg_r mem) by lia. rewrite andb_true_r, orb_false_r. reflexivity.
    + rewrite andb_false_r. reflexivity.
  - change 0xffff with (Z.ones 16).
    rewrite Z.testbit_ones_nonneg, Z.shiftl_spec by lia.
    destruct (Z.ltb_spec n 16).
    + rewrite (Z.testbit_neg_r mem) by lia. rewrite andb_true_r, orb_false_r. reflexivity.
    + rewrite andb_false_r. reflexivity.
  - change 0xff with (Z.ones 8).
    rewrite Z.testbit_ones_nonneg, Z.shiftl_spec by lia.
    destruct (Z.ltb_spec n 8).
    + rewrite (Z.testbit_neg_r mem) by lia. rewrite andb_true_r, orb_false_r. reflexivity.
    + rewrite andb_false_r. reflexivity.
  - rewrite Z.bits_0, Z.shiftl_spec by lia.
    destruct (Z.ltb_spec n 0); [lia |]. rewrite andb_false_r. reflexivity.
Qed.

(** X14: a load queued with the mask [LWR_MASK[i]] and the memory word shifted
    right by [LWR_SHIFT[i]] commits, bit by bit, the memory word's upper bits
    into the low end of the register and keeps the register's bits above them. *)
Theorem commit_of_LWR
    (c : R3000Acpu) (d : DelayedLoadInfo.t) (old i sh mem : Z) :
  at_index (m_delayedLoadInfo c) (m_currentDelayedLoad c) = Ok d →
  DelayedLoadInfo.active d = true →
  at_index (psxRegisters.GPR (m_regs c)) (DelayedLoadInfo.index d) = Ok old →
  at_index LWR_MASK i = Ok (DelayedLoadInfo.mask d) →
  at_index LWR_SHIFT i = Ok sh →
  0 <= mem < 2 ^ 32 →
  DelayedLoadInfo.value d = Z.shiftr mem sh →
  ∃ c' new,
    flushCurrentDelayedLoad c = Ok c' ∧
    at_index (psxRegisters.GPR (m_regs c')) (DelayedLoadInfo.index d) = Ok new ∧
    ∀ n, 0 <= n < 32 →
         Z.testbit new n =
           if n <? 32 - sh then Z.testbit mem (n + sh) else Z.testbit old n.
Proof.
  intros Hd Hact Hold Hmask Hsh Hmem Hval.
  pose proof (at_index_in_range _ _ _ Hold) as Hidx.
  eexists _, _. split; [apply flushCurrentDelayedLoad_active; eassumption |].
  cbn [m_regs set_m_regs set_m_delayedLoadInfo psxRegisters.GPR
       psxRegisters.set_GPR].
  split; [apply at_index_store_eq; lia |].
  intros n Hn. rewrite Z.lor_spec, Z.land_spec, Hval.
  assert (∀ k, 32 <= k → Z.testbit mem k = false) as Hhigh.
  { intros k Hk. destruct (Z.eq_dec mem 0) as [-> | Hnz];
      [apply Z.bits_0 |].
    apply Z.bits_above_log2; [lia |].
    apply Z.log2_lt_pow2; [lia |].
    apply Z.lt_le_trans with (2 ^ 32); [lia | apply Z.pow_le_mono_r; lia]. }
  apply at_index_4 in Hmask. apply at_index_4 in Hsh.
  destruct Hmask as [[-> ->] | [[-> ->] | [[-> ->] | [-> ->]]]];
    destruct Hsh as [[? ->] | [[? ->] | [[? ->] | [? ->]]]]; try lia.
  - rewrite Z.bits_0, Z.shiftr_spec by lia.
    destruct (Z.ltb_spec n (32 - 0)); [| lia]. rewrite andb_false_r. reflexivity.
  - change 0xff000000 with (Z.shiftl (Z.ones 8) 24).
    rewrite Z.shiftl_spec, Z.shiftr_spec by lia.
    destruct (Z.ltb_spec n (32 - 8)).
    + rewrite (Z.testbit_neg_r (Z.ones _)) by lia. rewrite andb_false_r. reflexivity.
    + rewrite Z.testbit_ones_nonneg, (Hhigh (n + _)) by lia.
      replace (n - 24 <? 8) with true by (symmetry; apply Z.ltb_lt; lia).
      rewrite andb_true_r, orb_false_r. reflexivity.
  - change 0xffff0000 with (Z.shiftl (Z.ones 16) 16).
    rewrite Z.shiftl_spec, Z.shiftr_spec by lia.
    destruct (Z.ltb_spec n (32 - 16)).
    + rewrite (Z.testbit_neg_r (Z.ones _)) by lia. rewrite andb_false_r. reflexivity.
    + rewrite Z.testbit_ones_nonneg, (Hhigh (n + _)) by lia.
      replace (n - 16 <? 16) with true by (symmetry; apply Z.ltb_lt; lia).
      rewrite andb_true_r, orb_false_r. reflexivity.
  - change 0xffffff00 with (Z.shiftl (Z.ones 24) 8).
    rewrite Z.shiftl_spec, Z.shiftr_spec by lia.
    destruct (Z.ltb_spec n (32 - 24)).
    + rewrite (Z.testbit_neg_r (Z.ones _)) by lia. rewrite andb_false_r. reflexivity.
    + rewrite Z.testbit_ones_nonneg, (Hhigh (n + _)) by lia.
      replace (n - 8 <? 24) with true by (symmetry; apply Z.ltb_lt; lia).
      rewrite andb_true_r, orb_false_r. reflexivity.
Qed.


(** ** More on interrupt scheduling *)

Lemma set_lowestTarget_same (regs : psxRegisters.t) :
  psxRegisters.set_lowestTarget (psxRegisters.lowestTarget regs) regs = regs.
Proof. destruct regs. reflexivity. Qed.

(** What a call that returns has done. *)
Lemma scheduleInterrupt_Ok_inv (c c' : R3000Acpu) (interrupt eCycle : Z) :
  scheduleInterrupt c interrupt eCycle = Ok c' →
  0 <= interrupt < 32 ∧
  ((Z.testbit (psxRegisters.interrupt (m_regs c)) interrupt = true ∧ c' = c) ∨
   (Z.testbit (psxRegisters.interrupt (m_regs c)) interrupt = false ∧
    interrupt < Z.of_nat (length (psxRegisters.intTargets (m_regs c))) ∧
    ∃ scale delta,
      at_index (m_interruptScales c) interrupt = Ok scale ∧
      uint64_of_float (float_mul (float_of_uint32 eCycle) scale) = Ok delta ∧
      c' = armed_at c interrupt
             (wrap64 (psxRegisters.cycle (m_regs c) + delta)))).
Proof.
  unfold scheduleInterrupt. intros H.
  destruct (Z.leb_spec 32 interrupt) as [? | Hlt]; [discriminate |].
  destruct (Z.ltb_spec interrupt 0) as [Hneg | Hnn].
  { rewrite Z.shiftl_1_l, Z.pow_neg_r in H by lia.
    change (wrap32 0) with 0 in H. rewrite Z.land_0_r in H. cbn in H.
    unfold at_index in H. destruct (Z.ltb_spec interrupt 0); [| lia].
    discriminate. }
  split; [lia |].
  rewrite shiftl_1_wrap32, land_pow2_testbit in H by lia.
  rewrite negb_involutive in H.
  destruct (Z.testbit (psxRegisters.interrupt (m_regs c)) interrupt);
    [left; injection H as <-; auto | right].
  split; [reflexivity |].
  apply bind_Ok_inv in H as (scale & Hscale & H).
  apply bind_Ok_inv in H as (delta & Hdelta & H).
  apply bind_Ok_inv in H as (targets & Htargets & H).
  apply store_index_Ok in Htargets as [Hrange ->].
  cbn [psxRegisters.intTargets psxRegisters.set_interrupt] in Hrange.
  split; [lia |]. exists scale, delta. split; [exact Hscale |].
  split; [exact Hdelta |].
  injection H as <-. unfold armed_at.
  cbn [psxRegisters.lowestTarget psxRegisters.set_intTargets
       psxRegisters.set_interrupt psxRegisters.intTargets].
  set (target := wrap64 (psxRegisters.cycle (m_regs c) + delta)).
  destruct (Z.ltb_spec target (psxRegisters.lowestTarget (m_regs c))).
  - rewrite Z.min_r by lia. reflexivity.
  - rewrite Z.min_l by lia.
    destruct (m_regs c). reflexivity.
Qed.

Lemma scheduleInterrupt_armed (c : R3000Acpu) (interrupt eCycle : Z) :
  0 <= interrupt < 32 →
  Z.testbit (psxRegisters.interrupt (m_regs c)) interrupt = true →
  scheduleInterrupt c interrupt eCycle = Ok c.
Proof.
  intros Hi Hb. unfold scheduleInterrupt.
  destruct (Z.leb_spec 32 interrupt); [lia |].
  rewrite shiftl_1_wrap32, land_pow2_testbit, Hb by lia. reflexivity.
Qed.

Lemma scheduleInterrupt_unarmed
    (c : R3000Acpu) (interrupt eCycle delta : Z) (scale : float) :
  0 <= interrupt < Z.of_nat (length (psxRegisters.intTargets (m_regs c))) →
  interrupt < 32 →
  Z.testbit (psxRegisters.interrupt (m_regs c)) interrupt = false →
  at_index (m_interruptScales c) interrupt = Ok scale →
  uint64_of_float (float_mul (float_of_uint32 eCycle) scale) = Ok delta →
  scheduleInterrupt c interrupt eCycle =
    Ok (armed_at c interrupt (wrap64 (psxRegisters.cycle (m_regs c) + delta))).
Proof.
  intros Hi Hlt Hb Hscale Hdelta. unfold scheduleInterrupt.
  destruct (Z.leb_spec 32 interrupt); [lia |].
  rewrite shiftl_1_wrap32, land_pow2_testbit, Hb by lia. cbn [negb].
  rewrite Hscale, bind_Ok, Hdelta, bind_Ok.
  cbn [psxRegisters.intTargets psxRegisters.set_interrupt].
  rewrite store_index_in_range, bind_Ok by lia.
  unfold armed_at.
  cbn [psxRegisters.lowestTarget psxRegisters.set_intTargets
       psxRegisters.set_interrupt psxRegisters.intTargets].
  set (target := wrap64 (psxRegisters.cycle (m_regs c) + delta)).
  destruct (Z.ltb_spec target (psxRegisters.lowestTarget (m_regs c))).
  - rewrite Z.min_r by lia. reflexivity.
  - rewrite Z.min_l by lia. destruct (m_regs c). reflexivity.
Qed.

Lemma armed_at_bit (c : R3000Acpu) (i target j : Z) :
  0 <= i →
  Z.testbit (psxRegisters.interrupt (m_regs (armed_at c i target))) j
  = Z.testbit (psxRegisters.interrupt (m_regs c)) j || (j =? i).
Proof.
  intros Hi. unfold armed_at. cbn. rewrite Z.lor_spec. f_equal.
  destruct (Z.eqb_spec j i) as [-> | Hne].
  - apply Z.pow2_bits_true. lia.
  - apply Z.pow2_bits_false. lia.
Qed.

(** X15: once [scheduleInterrupt] has succeeded for a source, scheduling that
    source again, with any cycle count, changes nothing. *)
Theorem scheduleInterrupt_idempotent
    (c c' : R3000Acpu) (interrupt eCycle eCycle' : Z) :
  scheduleInterrupt c interrupt eCycle = Ok c' →
  scheduleInterrupt c' interrupt eCycle' = Ok c'.
Proof.
  intros H. apply scheduleInterrupt_Ok_inv in H as (Hi & [[Hb ->] | H]).
  - apply scheduleInterrupt_armed; assumption.
  - destruct H as (_ & _ & scale & delta & _ & _ & ->).
    apply scheduleInterrupt_armed; [lia |].
    rewrite armed_at_bit, Z.eqb_refl by lia. apply orb_true_r.
Qed.

(** X16: a successful [scheduleInterrupt] never raises [lowestTarget], never
    changes the cycle counter, never disarms a source, and leaves the flag and
    the target of every other source alone. *)
Theorem scheduleInterrupt_only_lowers
    (c c' : R3000Acpu) (interrupt eCycle : Z) :
  scheduleInterrupt c interrupt eCycle = Ok c' →
  psxRegisters.lowestTarget (m_regs c') <= psxRegisters.lowestTarget (m_regs c) ∧
  psxRegisters.cycle (m_regs c') = psxRegisters.cycle (m_regs c) ∧
  (∀ j, Z.testbit (psxRegisters.interrupt (m_regs c)) j = true →
        Z.testbit (psxRegisters.interrupt (m_regs c')) j = true) ∧
  (∀ j, j ≠ interrupt →
        Z.testbit (psxRegisters.interrupt (m_regs c')) j =
        Z.testbit (psxRegisters.interrupt (m_regs c)) j ∧
        at_index (psxRegisters.intTargets (m_regs c')) j =
        at_index (psxRegisters.intTargets (m_regs c)) j).
Proof.
  intros H. apply scheduleInterrupt_Ok_inv in H as (Hi & [[Hb ->] | H]).
  - repeat split; auto; lia.
  - destruct H as (_ & _ & scale & delta & _ & _ & ->).
    split; [unfold armed_at; cbn; lia |].
    split; [reflexivity |].
    split.
    + intros j Hj. rewrite armed_at_bit, Hj by lia. reflexivity.
    + intros j Hj. split.
      * rewrite armed_at_bit by lia.
        destruct (Z.eqb_spec j interrupt); [contradiction |].
        apply orb_false_r.
      * unfold armed_at. cbn. apply at_index_store_ne; [lia | congruence].
Qed.


Lemma deadline_not_Aborted (c : R3000Acpu) (i n : Z) : deadline c i n ≠ Aborted.
Proof.
  unfold deadline, at_index, uint64_of_float.
  repeat (case_match; cbn); discriminate.
Qed.

Lemma scheduleInterrupt_out_of_range (c : R3000Acpu) (i n : Z) :
  ¬ (0 <= i < 32) → scheduleInterrupt c i n = Undefined.
Proof.
  intros Hi. destruct (scheduleInterrupt c i n) as [c' | |] eqn:H;
    [| | reflexivity].
  - apply scheduleInterrupt_Ok_inv in H as [? _]. contradiction.
  - unfold scheduleInterrupt, at_index, uint64_of_float, store_index in H.
    revert H. repeat (case_match; cbn); discriminate.
Qed.

Lemma scheduleInterrupt_by_deadline (c : R3000Acpu) (i n : Z) :
  0 <= i < 32 →
  scheduleInterrupt c i n =
    if Z.testbit (psxRegisters.interrupt (m_regs c)) i then Ok c
    else t ← deadline c i n;
         if i <? Z.of_nat (length (psxRegisters.intTargets (m_regs c)))
         then Ok (armed_at c i t) else Undefined.
Proof.
  intros Hi.
  destruct (Z.testbit (psxRegisters.interrupt (m_regs c)) i) eqn:Hb;
    [apply scheduleInterrupt_armed; assumption |].
  unfold deadline.
  destruct (at_index (m_interruptScales c) i) as [scale | |] eqn:Hs;
    [| unfold scheduleInterrupt;
       destruct (Z.leb_spec 32 i); [lia |];
       rewrite shiftl_1_wrap32, land_pow2_testbit, Hb, Hs by lia;
       reflexivity..].
  destruct (uint64_of_float (float_mul (float_of_uint32 n) scale))
    as [delta | |] eqn:Hd;
    [| unfold scheduleInterrupt;
       destruct (Z.leb_spec 32 i); [lia |];
       rewrite shiftl_1_wrap32, land_pow2_testbit, Hb, Hs by lia;
       cbn; rewrite Hd; reflexivity..].
  cbn. rewrite Hd. cbn.
  destruct (Z.ltb_spec i (Z.of_nat (length (psxRegisters.intTargets (m_regs c))))).
  - apply (scheduleInterrupt_unarmed c i n delta scale); auto; lia.
  - unfold scheduleInterrupt.
    destruct (Z.leb_spec 32 i); [lia |].
    rewrite shiftl_1_wrap32, land_pow2_testbit, Hb, Hs by lia.
    cbn. rewrite Hd. cbn. unfold store_index.
    cbn [psxRegisters.intTargets psxRegisters.set_interrupt].
    destruct (Z.ltb_spec i (Z.of_nat (length (psxRegisters.intTargets (m_regs c)))));
      [lia |].
    rewrite andb_false_r. reflexivity.
Qed.

Lemma armed_at_frame (c : R3000Acpu) (i t : Z) :
  m_interruptScales (armed_at c i t) = m_interruptScales c ∧
  psxRegisters.cycle (m_regs (armed_at c i t)) = psxRegisters.cycle (m_regs c) ∧
  length (psxRegisters.intTargets (m_regs (armed_at c i t)))
    = length (psxRegisters.intTargets (m_regs c)).
Proof. unfold armed_at. cbn. rewrite length_insert. auto. Qed.

Lemma deadline_armed_at (c : R3000Acpu) (i t j n : Z) :
  deadline (armed_at c i t) j n = deadline c j n.
Proof. reflexivity. Qed.

Lemma armed_at_commute (c : R3000Acpu) (i j t t' : Z) :
  0 <= i → 0 <= j → i ≠ j →
  armed_at (armed_at c i t) j t' = armed_at (armed_at c j t') i t.
Proof.
  intros Hi Hj Hne. unfold armed_at. cbn.
  rewrite <- !Z.lor_assoc, (Z.lor_comm (2 ^ i) (2 ^ j)).
  rewrite <- !Z.min_assoc, (Z.min_comm t t').
  rewrite (list_insert_insert_ne _ (Z.to_nat j) (Z.to_nat i)) by lia.
  reflexivity.
Qed.

(** X17: scheduling two different sources gives the same outcome in either
    order. *)
Theorem scheduleInterrupt_commute (c : R3000Acpu) (i j n m : Z) :
  i ≠ j →
  (c1 ← scheduleInterrupt c i n; scheduleInterrupt c1 j m)
  = (c1 ← scheduleInterrupt c j m; scheduleInterrupt c1 i n).
Proof.
  intros Hne.
  assert (∀ (x : outcome R3000Acpu) k e,
            x ≠ Aborted →
            (∀ c1, scheduleInterrupt c1 k e = Undefined) →
            (c1 ← x; scheduleInterrupt c1 k e) = Undefined) as Hout.
  { intros [c1 | |] k e Hx Hk; cbn; [apply Hk | congruence | reflexivity]. }
  assert (∀ c0 k e, scheduleInterrupt c0 k e ≠ Aborted) as Hna.
  { intros c0 k e.
    unfold scheduleInterrupt, at_index, uint64_of_float, store_index.
    repeat (case_match; cbn); discriminate. }
  destruct (decide (0 <= i < 32)) as [Hi | Hi];
    [| rewrite (scheduleInterrupt_out_of_range c i n Hi);
       rewrite (Hout _ i n (Hna _ _ _)
                  (λ c1, scheduleInterrupt_out_of_range c1 i n Hi));
       reflexivity].
  destruct (decide (0 <= j < 32)) as [Hj | Hj];
    [| rewrite (scheduleInterrupt_out_of_range c j m Hj);
       rewrite (Hout _ j m (Hna _ _ _)
                  (λ c1, scheduleInterrupt_out_of_range c1 j m Hj));
       reflexivity].
  rewrite (scheduleInterrupt_by_deadline c i n Hi).
  rewrite (scheduleInterrupt_by_deadline c j m Hj).
  pose proof (deadline_not_Aborted c i n) as Hdi.
  pose proof (deadline_not_Aborted c j m) as Hdj.
  destruct (Z.testbit (psxRegisters.interrupt (m_regs c)) i) eqn:Hbi;
    destruct (Z.testbit (psxRegisters.interrupt (m_regs c)) j) eqn:Hbj.
  - cbn. rewrite !scheduleInterrupt_armed by assumption. reflexivity.
  - cbn. rewrite (scheduleInterrupt_by_deadline c j m Hj), Hbj.
    destruct (deadline c j m) as [t' | |]; cbn; try congruence.
    destruct (_ <? _); cbn; [| reflexivity].
    symmetry. apply scheduleInterrupt_armed; [lia |].
    rewrite armed_at_bit, Hbi by lia. reflexivity.
  - cbn. rewrite (scheduleInterrupt_by_deadline c i n Hi), Hbi.
    destruct (deadline c i n) as [t | |]; cbn; try congruence.
    destruct (_ <? _); cbn; [| reflexivity].
    apply scheduleInterrupt_armed; [lia |].
    rewrite armed_at_bit, Hbj by lia. reflexivity.
  - destruct (deadline c i n) as [t | |] eqn:Hti;
      destruct (deadline c j m) as [t' | |] eqn:Htj; cbn;
      try congruence.
    + destruct (Z.ltb_spec i (Z.of_nat (length (psxRegisters.intTargets (m_regs c)))));
        destruct (Z.ltb_spec j (Z.of_nat (length (psxRegisters.intTargets (m_regs c)))));
        cbn.
      * rewrite !scheduleInterrupt_by_deadline by assumption.
        rewrite !armed_at_bit, Hbi, Hbj by lia.
        destruct (Z.eqb_spec j i); [congruence |].
        destruct (Z.eqb_spec i j); [congruence |].
        cbn. rewrite !deadline_armed_at, Hti, Htj. cbn.
        pose proof (armed_at_frame c i t) as (_ & _ & Hli).
        pose proof (armed_at_frame c j t') as (_ & _ & Hlj).
        rewrite ?Hli, ?Hlj, ?length_insert.
        destruct (Z.ltb_spec i (Z.of_nat (length (psxRegisters.intTargets (m_regs c)))));
          [| lia].
        destruct (Z.ltb_spec j (Z.of_nat (length (psxRegisters.intTargets (m_regs c)))));
          [| lia].
        f_equal. apply armed_at_commute; lia.
      * rewrite scheduleInterrupt_by_deadline by assumption.
        rewrite armed_at_bit, Hbj by lia.
        destruct (Z.eqb_spec j i); [congruence |].
        cbn. rewrite deadline_armed_at, Htj. cbn.
        pose proof (armed_at_frame c i t) as (_ & _ & Hli).
        rewrite ?Hli, ?length_insert.
        destruct (Z.ltb_spec j (Z.of_nat (length (psxRegisters.intTargets (m_regs c)))));
          [lia | reflexivity].
      * rewrite scheduleInterrupt_by_deadline by assumption.
        rewrite armed_at_bit, Hbi by lia.
        destruct (Z.eqb_spec i j); [congruence |].
        cbn. rewrite deadline_armed_at, Hti. cbn.
        pose proof (armed_at_frame c j t') as (_ & _ & Hlj).
        rewrite ?Hlj, ?length_insert.
        destruct (Z.ltb_spec i (Z.of_nat (length (psxRegisters.intTargets (m_regs c)))));
          [lia | reflexivity].
      * reflexivity.
    + destruct (_ <? _); cbn; [| reflexivity].
      rewrite scheduleInterrupt_by_deadline by assumption.
      rewrite armed_at_bit, Hbj by lia.
      destruct (Z.eqb_spec j i); [congruence |].
      cbn. rewrite deadline_armed_at, Htj. reflexivity.
    + destruct (_ <? _); cbn; [| reflexivity].
      rewrite scheduleInterrupt_by_deadline by assumption.
      rewrite armed_at_bit, Hbi by lia.
      destruct (Z.eqb_spec i j); [congruence |].
      cbn. rewrite deadline_armed_at, Hti. reflexivity.
Qed.


(** ** The cached lowest deadline *)

Lemma lowest_bounds_armed_table (c c' : R3000Acpu) :
  interrupt_table c' = interrupt_table c →
  lowest_bounds_armed c → lowest_bounds_armed c'.
Proof.
  unfold interrupt_table, lowest_bounds_armed.
  intros [= -> -> ->]. auto.
Qed.

Lemma armed_at_bounds (c : R3000Acpu) (i t : Z) :
  0 <= i < Z.of_nat (length (psxRegisters.intTargets (m_regs c))) →
  lowest_bounds_armed c → lowest_bounds_armed (armed_at c i t).
Proof.
  intros Hi Hinv j tj Hj Hb Htj.
  rewrite armed_at_bit in Hb by lia.
  unfold armed_at in *. cbn in *.
  destruct (Z.eq_dec j i) as [-> | Hne].
  - rewrite at_index_store_eq in Htj by lia. injection Htj as <-. lia.
  - rewrite at_index_store_ne in Htj by lia.
    destruct (Z.eqb_spec j i); [contradiction |].
    rewrite orb_false_r in Hb.
    specialize (Hinv j tj Hj Hb Htj). lia.
Qed.

Lemma flushCurrentDelayedLoad_table (c c' : R3000Acpu) :
  flushCurrentDelayedLoad c = Ok c' → interrupt_table c' = interrupt_table c.
Proof.
  unfold flushCurrentDelayedLoad. intros H. unpack; reflexivity.
Qed.

Lemma flushICacheLine_table (c c' : R3000Acpu) (pc : Z) :
  flushICacheLine c pc = Ok c' → interrupt_table c' = interrupt_table c.
Proof.
  unfold flushICacheLine. intros H. unpack; reflexivity.
Qed.

Lemma readICache_table {M : Type} `{!Memory M}
    (c c' : R3000Acpu) (b b' : Bus M) (pc w : Z) :
  readICache c b pc = Ok (w, c', b') → interrupt_table c' = interrupt_table c.
Proof.
  unfold readICache. intros H. unpack; reflexivity.
Qed.

Section LowestDeadline.
Context {M : Type} `{!Memory M}.

Lemma step_lowest_bounds_armed
    (op : Op) (c c' : R3000Acpu) (b b' : Bus M) (evs : list Event) :
  lowest_bounds_armed c →
  step op (c, b) = Ok (c', b', evs) →
  lowest_bounds_armed c'.
Proof.
  intros Hinv Hstep. destruct op; cbn in Hstep.
  - unpack. exact Hinv.
  - unpack. exact Hinv.
  - unfold hasToRun in Hstep. repeat case_match; simplify_eq; exact Hinv.
  - unpack.
    apply scheduleInterrupt_Ok_inv in E as (Hi & [[_ Heq] | H]);
      [rewrite Heq; exact Hinv |].
    destruct H as (_ & Hlen & scale & delta & _ & _ & Heq). rewrite Heq.
    apply armed_at_bounds; [lia | exact Hinv].
  - unpack. apply delayedLoadRef_frame in E as (Hregs & _).
    eapply lowest_bounds_armed_table; [| exact Hinv].
    unfold interrupt_table. rewrite Hregs. reflexivity.
  - unfold delayedLoad in Hstep. unpack.
    apply delayedLoadRef_frame in E0 as (Hregs & _).
    apply write_ref_frame in E as (Hregs' & _).
    eapply lowest_bounds_armed_table; [| exact Hinv].
    unfold interrupt_table. rewrite Hregs', Hregs. reflexivity.
  - unpack. apply delayedPCLoad_frame in E as (Hregs & _).
    eapply lowest_bounds_armed_table; [| exact Hinv].
    unfold interrupt_table. rewrite Hregs. reflexivity.
  - unpack. eapply lowest_bounds_armed_table; [| exact Hinv].
    eapply flushCurrentDelayedLoad_table; eassumption.
  - unpack. exact Hinv.
  - unpack. eapply lowest_bounds_armed_table; [| exact Hinv].
    eapply flushICacheLine_table; eassumption.
  - unpack. eapply lowest_bounds_armed_table; [| exact Hinv].
    eapply readICache_table; eassumption.
  - unpack. intros j tj Hj Hb _. cbn in Hb. rewrite Z.bits_0 in Hb.
    discriminate.
Qed.

(** X18: the invariant that [lowestTarget] is at or below the target of every
    armed source is kept by every sequence of operations of the CPU. *)
Theorem lowest_deadline_bounds_armed_sources
    (ops : list Op) (c c' : R3000Acpu) (b b' : Bus M) (evs : list Event) :
  lowest_bounds_armed c →
  run ops (c, b) = Ok (c', b', evs) →
  lowest_bounds_armed c'.
Proof.
  revert c b evs. induction ops as [| op ops IH]; intros c b evs Hc Hrun.
  - injection Hrun as <- <- <-. exact Hc.
  - cbn [run] in Hrun. unpack.
    eapply IH; [| eassumption].
    eapply step_lowest_bounds_armed; eassumption.
Qed.
End LowestDeadline.

(** ** Reset *)

(** X19: [Reset] disarms every source and keeps the targets and
    [lowestTarget]; a source scheduled afterwards is then the only armed one,
    with the deadline computed from the current cycle. *)
Theorem Reset_disarms_every_source
    (c : R3000Acpu) (interrupt eCycle delta : Z) (scale : float) :
  0 <= interrupt < Z.of_nat (length (psxRegisters.intTargets (m_regs c))) →
  interrupt < 32 →
  at_index (m_interruptScales c) interrupt = Ok scale →
  uint64_of_float (float_mul (float_of_uint32 eCycle) scale) = Ok delta →
  (∀ j, Z.testbit (psxRegisters.interrupt (m_regs (Reset c))) j = false) ∧
  psxRegisters.intTargets (m_regs (Reset c)) = psxRegisters.intTargets (m_regs c) ∧
  psxRegisters.lowestTarget (m_regs (Reset c))
    = psxRegisters.lowestTarget (m_regs c) ∧
  lowest_bounds_armed (Reset c) ∧
  ∃ c',
    scheduleInterrupt (Reset c) interrupt eCycle = Ok c' ∧
    at_index (psxRegisters.intTargets (m_regs c')) interrupt
      = Ok (wrap64 (psxRegisters.cycle (m_regs c) + delta)) ∧
    (∀ j, Z.testbit (psxRegisters.interrupt (m_regs c')) j = (j =? interrupt)).
Proof.
  intros Hi Hlt Hscale Hdelta.
  assert (∀ j, Z.testbit (psxRegisters.interrupt (m_regs (Reset c))) j = false)
    as Hbits by (intros j; cbn; apply Z.bits_0).
  split; [exact Hbits |]. split; [reflexivity |]. split; [reflexivity |].
  split.
  { intros j tj _ Hb _. rewrite Hbits in Hb. discriminate. }
  eexists. split.
  - apply (scheduleInterrupt_unarmed (Reset c) interrupt eCycle delta scale);
      auto.
  - split.
    + unfold armed_at. cbn. apply at_index_store_eq. lia.
    + intros j. rewrite armed_at_bit, Hbits by lia. reflexivity.
Qed.


(** ** Lines of the cache *)

Lemma line_of_spec (pc : Z) :
  0 <= line_of pc <= 4080 ∧ line_of pc mod 16 = 0 ∧
  line_of pc <= Z.land pc 0xfff < line_of pc + 16.
Proof.
  unfold line_of. rewrite land_lnot_0xf, land_0xfff.
  Z.div_mod_to_equations. lia.
Qed.

Lemma aligned_offset (pc : Z) : pc mod 4 = 0 → Z.land pc 0xfff mod 4 = 0.
Proof. intros. rewrite land_0xfff. Z.div_mod_to_equations. lia. Qed.

(** A word-aligned offset of another line is clear of a line. *)
Lemma other_line_disjoint (pc q : Z) :
  q mod 4 = 0 → line_of q ≠ line_of pc →
  Z.land q 0xfff + 4 <= line_of pc ∨ line_of pc + 16 <= Z.land q 0xfff.
Proof.
  intros Hal Hne.
  pose proof (line_of_spec pc) as (? & ? & ?).
  pose proof (line_of_spec q) as (? & ? & ?).
  pose proof (aligned_offset q Hal).
  Z.div_mod_to_equations. lia.
Qed.

Lemma filled_keeps_other_lines (c : R3000Acpu) (pc q w w0 w1 w2 w3 : Z) :
  q mod 4 = 0 → line_of q ≠ line_of pc →
  resident c q w → resident (filled c pc w0 w1 w2 w3) q w.
Proof.
  intros Hal Hne [Htag Hcode].
  pose proof (line_of_spec pc) as (? & _).
  pose proof (other_line_disjoint pc q Hal Hne) as Hd.
  unfold resident, filled. cbn. fold (line_of pc).
  rewrite !load32_poke_line_other by lia. auto.
Qed.

Lemma flushed_keeps_other_lines (c : R3000Acpu) (pc q w : Z) :
  q mod 4 = 0 → line_of q ≠ line_of pc →
  resident c q w → resident (flushed c pc) q w.
Proof.
  intros Hal Hne [Htag Hcode].
  pose proof (line_of_spec pc) as (? & _).
  pose proof (other_line_disjoint pc q Hal Hne) as Hd.
  unfold resident, flushed. cbn. fold (line_of pc).
  rewrite !load32_poke_line_other by lia. auto.
Qed.

Section FetchCases.
Context {M : Type} `{!Memory M}.

(** The three ways a fetch returns. *)
Lemma readICache_cases (c c' : R3000Acpu) (b b' : Bus M) (pc w : Z) :
  cache_sized c →
  readICache c b pc = Ok (w, c', b') →
  (cacheable pc = false ∧ c' = c ∧ read32 b pc Instr = (w, b')) ∨
  (cacheable pc = true ∧ resident c pc w ∧ c' = c ∧ b' = b) ∨
  (cacheable pc = true ∧
   ∃ tag w0 w1 w2 w3 b0 b1 b2 b3,
     load32 (psxRegisters.iCacheAddr (m_regs c)) (Z.land pc 0xfff) = Ok tag ∧
     tag ≠ Z.land pc 0xffffff ∧
     read32 b (Z.land pc (Z.lnot 0xf) + 0x0) Instr = (w0, b0) ∧
     read32 b0 (Z.land pc (Z.lnot 0xf) + 0x4) Instr = (w1, b1) ∧
     read32 b1 (Z.land pc (Z.lnot 0xf) + 0x8) Instr = (w2, b2) ∧
     read32 b2 (Z.land pc (Z.lnot 0xf) + 0xc) Instr = (w3, b3) ∧
     read32 b3 pc Instr = (w, b') ∧
     c' = filled c pc w0 w1 w2 w3).
Proof.
  intros Hsized H.
  destruct (cacheable pc) eqn:Hc.
  - right.
    destruct (load32 (psxRegisters.iCacheAddr (m_regs c)) (Z.land pc 0xfff))
      as [tag | |] eqn:Htag;
      [| unfold readICache in H; fold (cacheable pc) in H;
         rewrite Hc in H; cbv zeta in H; rewrite Htag in H;
         discriminate H..].
    destruct (Z.eq_dec tag (Z.land pc 0xffffff)) as [-> | Hne].
    + left.
      destruct (load32 (psxRegisters.iCacheCode (m_regs c)) (Z.land pc 0xfff))
        as [w' | |] eqn:Hw;
        [| unfold readICache in H; fold (cacheable pc) in H;
           rewrite Hc in H; cbv zeta in H;
           rewrite Htag, bind_Ok, Z.eqb_refl, Hw in H; discriminate H..].
      rewrite (readICache_hit c b pc w' Hc Htag Hw) in H.
      injection H as <- <- <-. unfold resident. auto.
    + right.
      destruct (read32 b (Z.land pc (Z.lnot 0xf) + 0x0) Instr) as [w0 b0] eqn:H0.
      destruct (read32 b0 (Z.land pc (Z.lnot 0xf) + 0x4) Instr) as [w1 b1] eqn:H1.
      destruct (read32 b1 (Z.land pc (Z.lnot 0xf) + 0x8) Instr) as [w2 b2] eqn:H2.
      destruct (read32 b2 (Z.land pc (Z.lnot 0xf) + 0xc) Instr) as [w3 b3] eqn:H3.
      destruct (read32 b3 pc Instr) as [w4 b4] eqn:H4.
      rewrite (readICache_miss c pc tag w0 w1 w2 w3 w4 b b0 b1 b2 b3 b4
                 Hsized Hc Htag Hne H0 H1 H2 H3 H4) in H.
      injection H as <- <- <-.
      split; [reflexivity |].
      exists tag, w0, w1, w2, w3, b0, b1, b2, b3. auto 10.
  - left. destruct (read32 b pc Instr) as [w' b''] eqn:Hr.
    rewrite (readICache_uncached c b b'' pc w' Hc Hr) in H.
    injection H as <- <- <-. auto.
Qed.


(** After a fetch of a cacheable word-aligned address the address is
    resident. *)
Lemma readICache_makes_resident (c c' : R3000Acpu) (b b' : Bus M) (pc W : Z) :
  cache_sized c → cacheable pc = true → pc mod 4 = 0 →
  readICache c b pc = Ok (W, c', b') →
  ∃ w, resident c' pc w.
Proof.
  intros Hsized Hc Hal H.
  destruct (readICache_cases _ _ _ _ _ _ Hsized H)
    as [(Hc' & _) | [(_ & Hres & -> & _) | (_ & H')]].
  - congruence.
  - eauto.
  - destruct H' as (? & w0 & w1 & w2 & w3 & ? & ? & ? & ? & H').
    destruct H' as (_ & _ & _ & _ & _ & _ & _ & ->).
    exists (wrap32 (word_of_line pc w0 w1 w2 w3)).
    split; [apply filled_tag | apply filled_code]; assumption.
Qed.

(** X20: a fetch through [readICache] only appends instruction reads to the
    bus, and exactly none (hit, state unchanged), one (uncached address: the
    address itself) or five (miss: the four words of the line, then the
    address). *)
Theorem readICache_reads_none_one_or_five
    (c c' : R3000Acpu) (b b' : Bus M) (pc w : Z) :
  cache_sized c →
  readICache c b pc = Ok (w, c', b') →
  let line := Z.land pc (Z.lnot 0xf) in
  ∃ reads,
    bus_reads b' = bus_reads b ++ reads ∧
    Forall (λ r, r.2 = Instr) reads ∧
    ((cacheable pc = false ∧ reads = [(pc, Instr)]) ∨
     (cacheable pc = true ∧ reads = [] ∧ c' = c ∧ bus_mem b' = bus_mem b) ∨
     (cacheable pc = true ∧
      reads = [(line, Instr); (line + 4, Instr); (line + 8, Instr);
               (line + 12, Instr); (pc, Instr)])).
Proof.
  intros Hsized H line.
  destruct (readICache_cases _ _ _ _ _ _ Hsized H)
    as [(Hc & _ & Hr) | [(Hc & _ & -> & ->) | (Hc & H')]].
  - apply read32_spec in Hr as (_ & _ & _ & L).
    exists [(pc, Instr)]. split; [exact L |].
    split; [repeat constructor | auto].
  - exists []. split; [rewrite app_nil_r; reflexivity |].
    split; [constructor | auto 10].
  - destruct H' as (? & w0 & w1 & w2 & w3 & b0 & b1 & b2 & b3 & H').
    destruct H' as (_ & _ & H0 & H1 & H2 & H3 & H4 & _).
    apply read32_spec in H0 as (_ & _ & _ & L0).
    apply read32_spec in H1 as (_ & _ & _ & L1).
    apply read32_spec in H2 as (_ & _ & _ & L2).
    apply read32_spec in H3 as (_ & _ & _ & L3).
    apply read32_spec in H4 as (_ & _ & _ & L4).
    fold line in L0, L1, L2, L3. rewrite Z.add_0_r in L0.
    eexists. split.
    { rewrite L4, L3, L2, L1, L0, <- !app_assoc. reflexivity. }
    split; [repeat constructor | auto 10].
Qed.

(** X21: a fetch from one cache line leaves a word resident in another line
    resident: the later fetch of that word hits and returns the same word
    without a read. *)
Theorem readICache_keeps_other_lines
    (c c' : R3000Acpu) (b b' b'' : Bus M) (pc q w W : Z) :
  cache_sized c →
  cacheable q = true → q mod 4 = 0 →
  resident c q w →
  line_of pc ≠ line_of q →
  readICache c b pc = Ok (W, c', b') →
  readICache c' b'' q = Ok (w, c', b'').
Proof.
  intros Hsized Hcq Hal Hres Hne H.
  assert (resident c' q w) as [Htag Hcode].
  { destruct (readICache_cases _ _ _ _ _ _ Hsized H)
      as [(_ & -> & _) | [(_ & _ & -> & _) | (_ & H')]]; auto.
    destruct H' as (? & w0 & w1 & w2 & w3 & ? & ? & ? & ? & H').
    destruct H' as (_ & _ & _ & _ & _ & _ & _ & ->).
    apply filled_keeps_other_lines; auto. }
  apply readICache_hit; assumption.
Qed.
End FetchCases.

(** ** A resident word stays resident *)





Section FetchAgain.
Context {M : Type} `{!Memory M}.




End FetchAgain.




Lemma land_0xffffff_0xfff (x : Z) :
  Z.land (Z.land x 0xffffff) 0xfff = Z.land x 0xfff.
Proof. rewrite <- Z.land_assoc. reflexivity. Qed.

Lemma same_tag_same_offset (pc q : Z) :
  Z.land pc 0xffffff = Z.land q 0xffffff → Z.land pc 0xfff = Z.land q 0xfff.
Proof.
  intros H. rewrite <- (land_0xffffff_0xfff pc), <- (land_0xffffff_0xfff q), H.
  reflexivity.
Qed.

Lemma same_line_filled (c : R3000Acpu) (pc q w0 w1 w2 w3 : Z) :
  Z.land q (Z.lnot 0xf) = Z.land pc (Z.lnot 0xf) →
  filled c q w0 w1 w2 w3 = filled c pc w0 w1 w2 w3.
Proof.
  intros H. unfold filled.
  assert (∀ m, Z.land (Z.land q m) (Z.lnot 0xf) = Z.land (Z.land pc m) (Z.lnot 0xf))
    as Hm.
  { intros m. rewrite <- !Z.land_assoc, !(Z.land_comm m), !Z.land_assoc, H.
    reflexivity. }
  rewrite !Hm. reflexivity.
Qed.

Lemma same_line_cacheable (pc q : Z) :
  Z.land q (Z.lnot 0xf) = Z.land pc (Z.lnot 0xf) → cacheable q = cacheable pc.
Proof.
  intros H. unfold cacheable. rewrite !Z.shiftr_div_pow2 by lia.
  rewrite !land_lnot_0xf in H. change (2 ^ 24) with 16777216.
  replace (q / 16777216) with (pc / 16777216)
    by (Z.div_mod_to_equations; lia).
  reflexivity.
Qed.

Lemma load32_replicate_ff (n : nat) (off : Z) :
  0 <= off → off + 4 <= Z.of_nat n →
  load32 (replicate n 0xff) off = Ok 0xffffffff.
Proof.
  intros H0 H1. unfold load32, in_buffer. rewrite length_replicate.
  destruct (Z.leb_spec 0 off); [| lia].
  destruct (Z.leb_spec (off + 4) (Z.of_nat n)); [| lia].
  cbn [andb]. rewrite !lookup_replicate_2 by lia. reflexivity.
Qed.

Lemma invalidateCache_sized (c : R3000Acpu) :
  cache_sized c → cache_sized (invalidateCache c) ∧ cache_sized (Reset c).
Proof.
  intros [Ha Hc]. unfold cache_sized, Reset, invalidateCache, memset_ff. cbn.
  rewrite !length_replicate. auto.
Qed.

Lemma filled_tag_in_line (c : R3000Acpu) (q pc w0 w1 w2 w3 : Z) :
  cache_sized c → pc mod 4 = 0 → line_of pc = line_of q →
  load32 (psxRegisters.iCacheAddr (m_regs (filled c q w0 w1 w2 w3)))
         (Z.land pc 0xfff)
  = Ok (Z.land (Z.land q 0xffffff) (Z.lnot 0xf) + pc mod 16).
Proof.
  intros [Ha _] Hal Hline.
  destruct (aligned_in_line pc Hal) as (Hslot & Hc & _ & _ & Hlc & _).
  assert (0 <= Z.land (Z.land q 0xffffff) (Z.lnot 0xf) <= 16777200) as Hlo
    by (rewrite land_lnot_0xf, land_0xffffff; Z.div_mod_to_equations; lia).
  unfold filled. cbn. fold (line_of q). fold (line_of pc) in Hc, Hlc.
  rewrite Hc, <- Hline.
  set (line := line_of pc) in *.
  set (tag := Z.land (Z.land q 0xffffff) (Z.lnot 0xf)) in *.
  destruct Hslot as [-> | [-> | [-> | ->]]].
  - rewrite (Z.add_0_r line), load32_poke_line_0 by lia.
    f_equal. apply wrap32_small. lia.
  - rewrite load32_poke_line_1 by lia. f_equal. apply wrap32_small. lia.
  - rewrite load32_poke_line_2 by lia. f_equal. apply wrap32_small. lia.
  - rewrite load32_poke_line_3 by lia. f_equal. apply wrap32_small. lia.
Qed.

Section CacheTheorems.
Context {M : Type} `{!Memory M}.

(** X22: the cache is indexed by physical address: after a fetch, the same
    address in the other cached segment (equal low 24 bits) hits and returns
    the same word. *)
Theorem readICache_mirrors_share_lines
    (c c' : R3000Acpu) (b b' b'' : Bus M) (pc q W : Z) :
  cache_sized c →
  cacheable pc = true → cacheable q = true → pc mod 4 = 0 →
  Z.land pc 0xffffff = Z.land q 0xffffff →
  readICache c b pc = Ok (W, c', b') →
  ∃ w, readICache c' b'' q = Ok (w, c', b'') ∧
       readICache c' b'' pc = Ok (w, c', b'').
Proof.
  intros Hsized Hc Hcq Hal Hsame H.
  destruct (readICache_makes_resident _ _ _ _ _ _ Hsized Hc Hal H)
    as (w & Htag & Hcode).
  exists w. split; [| apply readICache_hit; assumption].
  apply readICache_hit; [assumption | |];
    rewrite <- (same_tag_same_offset pc q Hsame); [| assumption].
  rewrite <- Hsame. exact Htag.
Qed.

(** X23: a miss brings in the whole line: afterwards each of the four word
    addresses of the line hits and returns the word that was read from memory
    for it. *)
Theorem readICache_miss_brings_whole_line
    (c : R3000Acpu) (pc tag w0 w1 w2 w3 w : Z) (b b0 b1 b2 b3 b' : Bus M) :
  cache_sized c →
  cacheable pc = true →
  load32 (psxRegisters.iCacheAddr (m_regs c)) (Z.land pc 0xfff) = Ok tag →
  tag ≠ Z.land pc 0xffffff →
  let line := Z.land pc (Z.lnot 0xf) in
  read32 b line Instr = (w0, b0) →
  read32 b0 (line + 4) Instr = (w1, b1) →
  read32 b1 (line + 8) Instr = (w2, b2) →
  read32 b2 (line + 12) Instr = (w3, b3) →
  read32 b3 pc Instr = (w, b') →
  ∃ c',
    readICache c b pc = Ok (w, c', b') ∧
    ∀ (b'' : Bus M),
      readICache c' b'' line = Ok (w0, c', b'') ∧
      readICache c' b'' (line + 4) = Ok (w1, c', b'') ∧
      readICache c' b'' (line + 8) = Ok (w2, c', b'') ∧
      readICache c' b'' (line + 12) = Ok (w3, c', b'').
Proof.
  intros Hsized Hc Htag Hne line H0 H1 H2 H3 H4.
  exists (filled c pc w0 w1 w2 w3). split.
  { apply (readICache_miss c pc tag w0 w1 w2 w3 w b b0 b1 b2 b3 b');
      try assumption.
    fold line. rewrite Z.add_0_r. exact H0. }
  apply read32_spec in H0 as (R0 & _).
  apply read32_spec in H1 as (R1 & _).
  apply read32_spec in H2 as (R2 & _).
  apply read32_spec in H3 as (R3 & _).
  assert (line mod 16 = 0 ∧ line / 16 = pc / 16) as [Hl16 Hdiv]
    by (subst line; rewrite land_lnot_0xf; Z.div_mod_to_equations; lia).
  assert (∀ k, 0 <= k < 16 → k mod 4 = 0 →
            ∀ b'', readICache (filled c pc w0 w1 w2 w3) b'' (line + k)
                   = Ok (word_of_line (line + k) w0 w1 w2 w3,
                         filled c pc w0 w1 w2 w3, b'')) as Hk.
  { intros k Hk Hk4 b''.
    assert (Z.land (line + k) (Z.lnot 0xf) = Z.land pc (Z.lnot 0xf)) as Hsame
      by (rewrite !land_lnot_0xf; Z.div_mod_to_equations; lia).
    assert ((line + k) mod 4 = 0) as Hal
      by (Z.div_mod_to_equations; lia).
    rewrite <- (same_line_filled c pc (line + k) w0 w1 w2 w3 Hsame).
    apply readICache_hit.
    - rewrite (same_line_cacheable pc (line + k) Hsame). exact Hc.
    - apply filled_tag; assumption.
    - rewrite filled_code by assumption. f_equal.
      apply wrap32_small. unfold word_of_line. repeat case_match; assumption. }
  intros b''.
  pose proof (Hk 0 ltac:(lia) eq_refl b'') as K0.
  pose proof (Hk 4 ltac:(lia) eq_refl b'') as K1.
  pose proof (Hk 8 ltac:(lia) eq_refl b'') as K2.
  pose proof (Hk 12 ltac:(lia) eq_refl b'') as K3.
  rewrite Z.add_0_r in K0.
  unfold word_of_line in K0, K1, K2, K3.
  replace (line mod 16) with 0 in K0 by lia.
  replace ((line + 4) mod 16) with 4 in K1 by (Z.div_mod_to_equations; lia).
  replace ((line + 8) mod 16) with 8 in K2 by (Z.div_mod_to_equations; lia).
  replace ((line + 12) mod 16) with 12 in K3 by (Z.div_mod_to_equations; lia).
  cbn in K0, K1, K2, K3. auto.
Qed.

(** X24: the cache is direct mapped: after a miss filled a line, a fetch from
    an address of the same line index and another tag misses again and reads
    five words. *)
Theorem readICache_miss_evicts_conflicting_line
    (c c' c2 : R3000Acpu) (b b' b2 : Bus M) (q pc W W2 tag : Z) :
  cache_sized c →
  cacheable q = true →
  load32 (psxRegisters.iCacheAddr (m_regs c)) (Z.land q 0xfff) = Ok tag →
  tag ≠ Z.land q 0xffffff →
  readICache c b q = Ok (W, c', b') →
  cacheable pc = true → pc mod 4 = 0 →
  line_of pc = line_of q →
  Z.land (Z.land pc 0xffffff) (Z.lnot 0xf)
    ≠ Z.land (Z.land q 0xffffff) (Z.lnot 0xf) →
  readICache c' b' pc = Ok (W2, c2, b2) →
  let line := Z.land pc (Z.lnot 0xf) in
  bus_reads b2 =
    bus_reads b' ++ [(line, Instr); (line + 4, Instr); (line + 8, Instr);
                     (line + 12, Instr); (pc, Instr)].
Proof.
  intros Hsized Hcq Htag Hne Hq Hc Hal Hline Hbase H line.
  destruct (readICache_cases _ _ _ _ _ _ Hsized Hq)
    as [(Hc' & _) | [(_ & [Htag' _] & _) | (_ & Hmiss)]];
    [congruence | congruence |].
  destruct Hmiss as (? & w0 & w1 & w2 & w3 & ? & ? & ? & ? & Hmiss).
  destruct Hmiss as (_ & _ & _ & _ & _ & _ & _ & ->).
  pose proof (filled_tag_in_line c q pc w0 w1 w2 w3 Hsized Hal Hline) as Hnow.
  pose proof (filled_sized c q w0 w1 w2 w3 Hsized) as Hsized'.
  destruct (readICache_cases _ _ _ _ _ _ Hsized' H)
    as [(Hc' & _) | [(_ & [Htag' _] & _) | (_ & Hmiss)]];
    [congruence | |].
  - rewrite Hnow in Htag'. injection Htag' as Heq.
    destruct (aligned_in_line pc Hal) as (_ & _ & Ho & _).
    exfalso. apply Hbase. lia.
  - destruct Hmiss as (? & ? & ? & ? & ? & b0 & b1 & b3 & b4 & Hmiss).
    destruct Hmiss as (_ & _ & H0 & H1 & H2 & H3 & H4 & _).
    apply read32_spec in H0 as (_ & _ & _ & L0).
    apply read32_spec in H1 as (_ & _ & _ & L1).
    apply read32_spec in H2 as (_ & _ & _ & L2).
    apply read32_spec in H3 as (_ & _ & _ & L3).
    apply read32_spec in H4 as (_ & _ & _ & L4).
    fold line in L0, L1, L2, L3. rewrite Z.add_0_r in L0.
    rewrite L4, L3, L2, L1, L0, <- !app_assoc. reflexivity.
Qed.
End CacheTheorems.


Lemma invalidateCache_tag (c : R3000Acpu) (pc : Z) :
  cache_sized c → pc mod 4 = 0 →
  load32 (psxRegisters.iCacheAddr (m_regs (invalidateCache c))) (Z.land pc 0xfff)
    = Ok 0xffffffff ∧
  0xffffffff ≠ Z.land pc 0xffffff.
Proof.
  intros [Ha _] Hal.
  pose proof (aligned_offset pc Hal) as Hoff.
  split.
  - unfold invalidateCache, memset_ff. cbn. rewrite Ha.
    apply load32_replicate_ff; rewrite land_0xfff in *;
      Z.div_mod_to_equations; lia.
  - rewrite land_0xffffff. Z.div_mod_to_equations. lia.
Qed.

Section Invalidation.
Context {M : Type} `{!Memory M}.

(** X25: after [invalidateCache], and after [Reset], a fetch from any aligned
    cacheable address misses, whatever the cache held before. *)
Theorem invalidateCache_empties_the_cache
    (c : R3000Acpu) (pc w0 w1 w2 w3 w : Z) (b b0 b1 b2 b3 b' : Bus M) :
  cache_sized c →
  cacheable pc = true → pc mod 4 = 0 →
  let line := Z.land pc (Z.lnot 0xf) in
  read32 b line Instr = (w0, b0) →
  read32 b0 (line + 4) Instr = (w1, b1) →
  read32 b1 (line + 8) Instr = (w2, b2) →
  read32 b2 (line + 12) Instr = (w3, b3) →
  read32 b3 pc Instr = (w, b') →
  readICache (invalidateCache c) b pc
    = Ok (w, filled (invalidateCache c) pc w0 w1 w2 w3, b') ∧
  readICache (Reset c) b pc = Ok (w, filled (Reset c) pc w0 w1 w2 w3, b').
Proof.
  intros Hsized Hc Hal line H0 H1 H2 H3 H4.
  destruct (invalidateCache_sized c Hsized) as [Hs1 Hs2].
  destruct (invalidateCache_tag c pc Hsized Hal) as [Htag Hne].
  split.
  - apply (readICache_miss _ pc 0xffffffff w0 w1 w2 w3 w b b0 b1 b2 b3 b');
      try assumption.
    fold line. rewrite Z.add_0_r. exact H0.
  - apply (readICache_miss _ pc 0xffffffff w0 w1 w2 w3 w b b0 b1 b2 b3 b');
      try assumption.
    fold line. rewrite Z.add_0_r. exact H0.
Qed.

(** X26: [flushICacheLine] always succeeds on a full-size cache; a resident
    word is no longer resident when the flushed address is cacheable and of
    its line, and stays resident otherwise. *)
Theorem flushICacheLine_invalidates_its_line_only
    (c : R3000Acpu) (x q w : Z) :
  cache_sized c →
  q mod 4 = 0 →
  resident c q w →
  ∃ c',
    flushICacheLine c x = Ok c' ∧
    (cacheable x = true → line_of x = line_of q → ∀ w', ¬ resident c' q w') ∧
    (cacheable x = false ∨ line_of x ≠ line_of q → resident c' q w).
Proof.
  intros Hsized Hal Hres.
  rewrite (flushICacheLine_sized c x Hsized).
  eexists. split; [reflexivity |].
  split.
  - intros Hc Hline w' [Htag _]. rewrite Hc in Htag.
    assert (load32 (psxRegisters.iCacheAddr (m_regs (flushed c x)))
                   (Z.land q 0xfff) = Ok 0xff) as Hff.
    { destruct Hsized as [Ha _].
      destruct (aligned_in_line q Hal) as (Hslot & Hq & _ & _ & Hlc & _).
      unfold flushed. cbn. fold (line_of x). fold (line_of q) in Hq, Hlc.
      rewrite Hq, Hline.
      destruct Hslot as [-> | [-> | [-> | ->]]].
      - rewrite (Z.add_0_r (line_of q)), load32_poke_line_0 by lia. reflexivity.
      - rewrite load32_poke_line_1 by lia. reflexivity.
      - rewrite load32_poke_line_2 by lia. reflexivity.
      - rewrite load32_poke_line_3 by lia. reflexivity. }
    rewrite Hff in Htag. injection Htag as Heq.
    symmetry in Heq. revert Heq. apply sentinel_never_matches. exact Hal.
  - intros [Hc | Hne].
    + rewrite Hc. exact Hres.
    + destruct (cacheable x); [| exact Hres].
      apply flushed_keeps_other_lines; auto.
Qed.
End Invalidation.


(** ** Where the kernel-call hook acts *)

Lemma land_0xffc (x : Z) : Z.land x 0xffc = 4 * ((x mod 4096) / 4).
Proof.
  change 0xffc with (Z.ldiff (Z.ones 12) (Z.ones 2)).
  rewrite land_ldiff, land_low_bits, Z.ldiff_ones_r by lia.
  rewrite Z.shiftl_mul_pow2, Z.shiftr_div_pow2 by lia.
  change (2 ^ 12) with 4096. change (2 ^ 2) with 4. lia.
Qed.

(** X27: with the PC check on, [InterceptBIOS] signals something only for a
    program counter in the first 4 MiB of KUSEG, KSEG0 or KSEG1 whose masked
    value is 0xa0, 0xb0 or (with the kernel log on) 0xc0, and signals at most
    two events. *)
Theorem InterceptBIOS_acts_in_low_memory_only
    (ramMask : Z) (kernelLog : bool) (c : R3000Acpu) (currentPC : Z)
    (evs : list Event) :
  0 <= currentPC < 2 ^ 32 →
  InterceptBIOS true ramMask kernelLog c currentPC = Ok evs →
  evs ≠ [] →
  (0 <= currentPC < 0x00400000 ∨
   0x80000000 <= currentPC < 0x80400000 ∨
   0xa0000000 <= currentPC < 0xa0400000) ∧
  (Z.land currentPC ramMask = 0xa0 ∨ Z.land currentPC ramMask = 0xb0 ∨
   (Z.land currentPC ramMask = 0xc0 ∧ kernelLog = true)) ∧
  (length evs <= 2)%nat.
Proof.
  intros Hpc H Hevs. unfold InterceptBIOS in H.
  rewrite land_0xffc, Z.shiftr_div_pow2 in H by lia.
  change (2 ^ 20) with 1048576 in H. change (2 ^ 32) with 4294967296 in Hpc.
  cbn [andb] in H.
  set (base := 4 * ((currentPC / 1048576) mod 4096 / 4)) in *.
  destruct (Z.eqb_spec base 0x000) as [H0 | H0];
    destruct (Z.eqb_spec base 0x800) as [H8 | H8];
    destruct (Z.eqb_spec base 0xa00) as [Ha | Ha]; cbn [negb andb] in H;
    try (injection H as <-; contradiction).
  all: assert (0 <= currentPC < 0x00400000 ∨
               0x80000000 <= currentPC < 0x80400000 ∨
               0xa0000000 <= currentPC < 0xa0400000) as Hwin
         by (subst base; Z.div_mod_to_equations; lia).
  all: split; [exact Hwin |].
  all: apply bind_Ok_inv in H as (t1 & _ & H); injection H as <-.
  all: destruct (Z.eqb_spec (Z.land currentPC ramMask) 0xa0),
         (Z.eqb_spec (Z.land currentPC ramMask) 0xb0),
         (Z.eqb_spec (Z.land currentPC ramMask) 0xc0), kernelLog;
    cbn in Hevs |- *; try congruence; (split; [tauto | lia]).
Qed.

(** * Examples for the properties above *)

(** [addu v0, a0, a1] *)
Lemma R_type_fields_round_trip_witness :
  0 <= _fOp_ 0x00851021 < 64 ∧ 0 <= _fRs_ 0x00851021 < 32 ∧
  0 <= _fRt_ 0x00851021 < 32 ∧ 0 <= _fRd_ 0x00851021 < 32 ∧
  0 <= _fSa_ 0x00851021 < 32 ∧ 0 <= _fFunct_ 0x00851021 < 64 ∧
  0x00851021 =
    _fOp_ 0x00851021 * 2 ^ 26 + _fRs_ 0x00851021 * 2 ^ 21
    + _fRt_ 0x00851021 * 2 ^ 16 + _fRd_ 0x00851021 * 2 ^ 11
    + _fSa_ 0x00851021 * 2 ^ 6 + _fFunct_ 0x00851021.
Proof. apply (R_type_fields_round_trip 0x00851021); lia. Defined.

(** [sll v0, a1, 3] *)
Lemma R_type_fields_of_encoding_witness :
  0 <= 0 * 2 ^ 26 + 0 * 2 ^ 21 + 5 * 2 ^ 16 + 2 * 2 ^ 11 + 3 * 2 ^ 6 + 0
    < 2 ^ 32 ∧
  _fOp_ (0 * 2 ^ 26 + 0 * 2 ^ 21 + 5 * 2 ^ 16 + 2 * 2 ^ 11 + 3 * 2 ^ 6 + 0)
    = 0 ∧
  _fRs_ (0 * 2 ^ 26 + 0 * 2 ^ 21 + 5 * 2 ^ 16 + 2 * 2 ^ 11 + 3 * 2 ^ 6 + 0)
    = 0 ∧
  _fRt_ (0 * 2 ^ 26 + 0 * 2 ^ 21 + 5 * 2 ^ 16 + 2 * 2 ^ 11 + 3 * 2 ^ 6 + 0)
    = 5 ∧
  _fRd_ (0 * 2 ^ 26 + 0 * 2 ^ 21 + 5 * 2 ^ 16 + 2 * 2 ^ 11 + 3 * 2 ^ 6 + 0)
    = 2 ∧
  _fSa_ (0 * 2 ^ 26 + 0 * 2 ^ 21 + 5 * 2 ^ 16 + 2 * 2 ^ 11 + 3 * 2 ^ 6 + 0)
    = 3 ∧
  _fFunct_ (0 * 2 ^ 26 + 0 * 2 ^ 21 + 5 * 2 ^ 16 + 2 * 2 ^ 11 + 3 * 2 ^ 6 + 0)
    = 0.
Proof. apply (R_type_fields_of_encoding 0 0 5 2 3 0); lia. Defined.

(** [lw v0, 16(sp)] *)
Lemma I_and_J_type_fields_round_trip_witness :
  0 <= _fImmU_ 0x8fa20010 < 2 ^ 16 ∧ 0 <= _fTarget_ 0x8fa20010 < 2 ^ 26 ∧
  0x8fa20010 =
    _fOp_ 0x8fa20010 * 2 ^ 26 + _fRs_ 0x8fa20010 * 2 ^ 21
    + _fRt_ 0x8fa20010 * 2 ^ 16 + _fImmU_ 0x8fa20010 ∧
  0x8fa20010 = _fOp_ 0x8fa20010 * 2 ^ 26 + _fTarget_ 0x8fa20010.
Proof. apply (I_and_J_type_fields_round_trip 0x8fa20010); lia. Defined.

(** [j 0x0003f000] executed in KSEG0 *)
Lemma JumpTarget_stays_in_segment_witness :
  _JumpTarget_ (at_instruction 0x80030004 0x0800fc00)
    = _Target_ (at_instruction 0x80030004 0x0800fc00) * 4
      + Z.land (_PC_ (at_instruction 0x80030004 0x0800fc00)) 0xf0000000 ∧
  0 <= _JumpTarget_ (at_instruction 0x80030004 0x0800fc00) < 2 ^ 32 ∧
  _JumpTarget_ (at_instruction 0x80030004 0x0800fc00) mod 4 = 0 ∧
  Z.shiftr (_JumpTarget_ (at_instruction 0x80030004 0x0800fc00)) 28
    = Z.shiftr (_PC_ (at_instruction 0x80030004 0x0800fc00)) 28 ∧
  Z.land (_JumpTarget_ (at_instruction 0x80030004 0x0800fc00)) 0x0fffffff
    = _Target_ (at_instruction 0x80030004 0x0800fc00) * 4.
Proof.
  apply (JumpTarget_stays_in_segment (at_instruction 0x80030004 0x0800fc00)).
  vm_compute. split; [discriminate | reflexivity].
Defined.


Lemma delayedLoad_delayedPCLoad_commute_witness :
  (c1 ← delayedLoad power_on 8 1 0; delayedPCLoad c1 0x80030000 true)
  = (c1 ← delayedPCLoad power_on 0x80030000 true; delayedLoad c1 8 1 0).
Proof.
  apply (delayedLoad_delayedPCLoad_commute
           power_on 8 1 0 0x80030000 true DelayedLoadInfo.init).
  reflexivity.
Defined.


Lemma flushCurrentDelayedLoad_keeps_branch_witness :
  ∃ c1,
    flushCurrentDelayedLoad (pending 8 1 2 0) = Ok c1 ∧
    psxRegisters.pc (m_regs c1) = psxRegisters.pc (m_regs (pending 8 1 2 0)) ∧
    m_currentDelayedLoad c1 = m_currentDelayedLoad (pending 8 1 2 0) ∧
    length (m_delayedLoadInfo c1)
      = length (m_delayedLoadInfo (pending 8 1 2 0)) ∧
    ∀ j d, at_index (m_delayedLoadInfo (pending 8 1 2 0)) j = Ok d →
      ∃ d1, at_index (m_delayedLoadInfo c1) j = Ok d1 ∧
            DelayedLoadInfo.pcActive d1 = DelayedLoadInfo.pcActive d ∧
            DelayedLoadInfo.pcValue d1 = DelayedLoadInfo.pcValue d ∧
            DelayedLoadInfo.fromLink d1 = DelayedLoadInfo.fromLink d ∧
            (j ≠ m_currentDelayedLoad (pending 8 1 2 0) → d1 = d).
Proof.
  destruct (flushCurrentDelayedLoad (pending 8 1 2 0)) as [c1 | |] eqn:H;
    [| vm_compute in H; discriminate..].
  exists c1. split; [reflexivity |].
  exact (flushCurrentDelayedLoad_keeps_branch (pending 8 1 2 0) c1 H).
Defined.

Lemma delayedLoad_then_flush_witness :
  ∃ c1 c2,
    delayedLoad power_on 8 0x1234 0 = Ok c1 ∧
    m_regs c1 = m_regs power_on ∧
    flushCurrentDelayedLoad c1 = Ok c2 ∧
    at_index (psxRegisters.GPR (m_regs c2)) 8
      = Ok (Z.lor (Z.land 0 0) 0x1234) ∧
    (0 = 0 → at_index (psxRegisters.GPR (m_regs c2)) 8 = Ok 0x1234) ∧
    (∀ j, j ≠ 8 →
          at_index (psxRegisters.GPR (m_regs c2)) j =
          at_index (psxRegisters.GPR (m_regs power_on)) j) ∧
    at_index (m_delayedLoadInfo c2) (m_currentDelayedLoad c2)
      = Ok (DelayedLoadInfo.Build 8 0x1234 0
              (DelayedLoadInfo.pcValue DelayedLoadInfo.init) false
              (DelayedLoadInfo.pcActive DelayedLoadInfo.init)
              (DelayedLoadInfo.fromLink DelayedLoadInfo.init)).
Proof.
  apply (delayedLoad_then_flush power_on 8 0x1234 0 0 DelayedLoadInfo.init);
    [lia | reflexivity | reflexivity].
Defined.

(** [lwl t0] at an address with low bits 0: the byte 0xab of memory lands in
    the top byte of [t0]. *)
Lemma commit_of_LWL_witness :
  ∃ c' new,
    flushCurrentDelayedLoad (pending 8 0x11223344 0xab000000 0xffffff)
      = Ok c' ∧
    at_index (psxRegisters.GPR (m_regs c'))
      (DelayedLoadInfo.index
         (DelayedLoadInfo.Build 8 0xab000000 0xffffff 0 true false false))
      = Ok new ∧
    ∀ n, 0 <= n < 32 →
         Z.testbit new n =
           if n <? 24 then Z.testbit 0x11223344 n
           else Z.testbit 0xab (n - 24).
Proof.
  apply (commit_of_LWL (pending 8 0x11223344 0xab000000 0xffffff)
           (DelayedLoadInfo.Build 8 0xab000000 0xffffff 0 true false false)
           0x11223344 0 24 0xab); reflexivity.
Defined.

(** [lwr t0] at an address with low bits 1: the three upper bytes of the
    memory word land in the three lower bytes of [t0]. *)
Lemma commit_of_LWR_witness :
  ∃ c' new,
    flushCurrentDelayedLoad (pending 8 0x11223344 0x00aabbcc 0xff000000)
      = Ok c' ∧
    at_index (psxRegisters.GPR (m_regs c'))
      (DelayedLoadInfo.index
         (DelayedLoadInfo.Build 8 0x00aabbcc 0xff000000 0 true false false))
      = Ok new ∧
    ∀ n, 0 <= n < 32 →
         Z.testbit new n =
           if n <? 32 - 8 then Z.testbit 0xaabbccdd (n + 8)
           else Z.testbit 0x11223344 n.
Proof.
  apply (commit_of_LWR (pending 8 0x11223344 0x00aabbcc 0xff000000)
           (DelayedLoadInfo.Build 8 0x00aabbcc 0xff000000 0 true false false)
           0x11223344 1 8 0xaabbccdd); [reflexivity.. | lia | reflexivity].
Defined.

Lemma scheduleInterrupt_idempotent_witness :
  ∃ c',
    scheduleInterrupt power_on 2 100 = Ok c' ∧
    scheduleInterrupt c' 2 7 = Ok c'.
Proof.
  destruct (scheduleInterrupt power_on 2 100) as [c' | |] eqn:H;
    [| vm_compute in H; discriminate..].
  exists c'. split; [reflexivity |].
  exact (scheduleInterrupt_idempotent power_on c' 2 100 7 H).
Defined.

Lemma scheduleInterrupt_only_lowers_witness :
  ∃ c',
    scheduleInterrupt power_on 2 100 = Ok c' ∧
    psxRegisters.lowestTarget (m_regs c')
      <= psxRegisters.lowestTarget (m_regs power_on) ∧
    psxRegisters.cycle (m_regs c') = psxRegisters.cycle (m_regs power_on) ∧
    (∀ j, Z.testbit (psxRegisters.interrupt (m_regs power_on)) j = true →
          Z.testbit (psxRegisters.interrupt (m_regs c')) j = true) ∧
    (∀ j, j ≠ 2 →
          Z.testbit (psxRegisters.interrupt (m_regs c')) j =
          Z.testbit (psxRegisters.interrupt (m_regs power_on)) j ∧
          at_index (psxRegisters.intTargets (m_regs c')) j =
          at_index (psxRegisters.intTargets (m_regs power_on)) j).
Proof.
  destruct (scheduleInterrupt power_on 2 100) as [c' | |] eqn:H;
    [| vm_compute in H; discriminate..].
  exists c'. split; [reflexivity |].
  exact (scheduleInterrupt_only_lowers power_on c' 2 100 H).
Defined.

Lemma scheduleInterrupt_commute_witness :
  (c1 ← scheduleInterrupt power_on 2 100; scheduleInterrupt c1 3 50)
  = (c1 ← scheduleInterrupt power_on 3 50; scheduleInterrupt c1 2 100).
Proof. apply (scheduleInterrupt_commute power_on 2 3 100 50). lia. Defined.

Lemma lowest_deadline_bounds_armed_sources_witness :
  ∃ c' b' evs,
    run [OpScheduleInterrupt 2 100; OpScheduleInterrupt 3 50; OpSetPC 0x80030000;
         OpHasToRun true; OpScheduleInterrupt 2 7]
        (power_on, idle Pattern) = Ok (c', b', evs) ∧
    lowest_bounds_armed c'.
Proof.
  destruct (run [OpScheduleInterrupt 2 100; OpScheduleInterrupt 3 50;
                 OpSetPC 0x80030000; OpHasToRun true; OpScheduleInterrupt 2 7]
              (power_on, idle Pattern)) as [[[c' b'] evs] | |] eqn:H;
    [| vm_compute in H; discriminate..].
  exists c', b', evs. split; [reflexivity |].
  refine (lowest_deadline_bounds_armed_sources _ power_on c' _ b' evs _ H).
  intros i t _ Hbit. change (Z.testbit 0 i = true) in Hbit.
  rewrite Z.bits_0 in Hbit. discriminate.
Defined.

Lemma Reset_disarms_every_source_witness :
  (∀ j, Z.testbit
          (psxRegisters.interrupt (m_regs (Reset (armed_at power_on 2 100)))) j
        = false) ∧
  psxRegisters.intTargets (m_regs (Reset (armed_at power_on 2 100)))
    = psxRegisters.intTargets (m_regs (armed_at power_on 2 100)) ∧
  psxRegisters.lowestTarget (m_regs (Reset (armed_at power_on 2 100)))
    = psxRegisters.lowestTarget (m_regs (armed_at power_on 2 100)) ∧
  lowest_bounds_armed (Reset (armed_at power_on 2 100)) ∧
  ∃ c',
    scheduleInterrupt (Reset (armed_at power_on 2 100)) 2 7 = Ok c' ∧
    at_index (psxRegisters.intTargets (m_regs c')) 2
      = Ok (wrap64
              (psxRegisters.cycle (m_regs (armed_at power_on 2 100)) + 7)) ∧
    (∀ j, Z.testbit (psxRegisters.interrupt (m_regs c')) j = (j =? 2)).
Proof.
  apply (Reset_disarms_every_source (armed_at power_on 2 100) 2 7 7 float_one);
    [vm_compute; split; [discriminate | reflexivity] | lia
    | reflexivity | vm_compute; reflexivity].
Defined.

Lemma readICache_reads_none_one_or_five_witness :
  ∃ reads,
    bus_reads warm_bus = bus_reads (idle Pattern) ++ reads ∧
    Forall (λ r, r.2 = Instr) reads ∧
    ((cacheable 0x80030004 = false ∧ reads = [(0x80030004, Instr)]) ∨
     (cacheable 0x80030004 = true ∧ reads = [] ∧ warm = power_on ∧
      bus_mem warm_bus = bus_mem (idle Pattern)) ∨
     (cacheable 0x80030004 = true ∧
      reads = [(Z.land 0x80030004 (Z.lnot 0xf), Instr);
               (Z.land 0x80030004 (Z.lnot 0xf) + 4, Instr);
               (Z.land 0x80030004 (Z.lnot 0xf) + 8, Instr);
               (Z.land 0x80030004 (Z.lnot 0xf) + 12, Instr);
               (0x80030004, Instr)])).
Proof.
  apply (readICache_reads_none_one_or_five
           power_on warm (idle Pattern) warm_bus 0x80030004 0xbc1c0004
           power_on_sized).
  vm_compute. reflexivity.
Defined.

Lemma readICache_keeps_other_lines_witness :
  ∃ W c' b',
    readICache warm warm_bus 0x80030010 = Ok (W, c', b') ∧
    readICache c' b' 0x80030004 = Ok (0xbc1c0004, c', b').
Proof.
  destruct (readICache warm warm_bus 0x80030010) as [[[W c'] b'] | |] eqn:H;
    [| vm_compute in H; discriminate..].
  exists W, c', b'. split; [reflexivity |].
  refine (readICache_keeps_other_lines
            warm c' warm_bus b' b' 0x80030010 0x80030004 0xbc1c0004 W
            (filled_sized _ _ _ _ _ _ power_on_sized)
            eq_refl eq_refl _ _ H).
  - split; vm_compute; reflexivity.
  - vm_compute. discriminate.
Defined.

(** KSEG0 0x80030004 and KUSEG 0x00030004 are the same physical word. *)
Lemma readICache_mirrors_share_lines_witness :
  ∃ W c' b' w,
    readICache power_on (idle Pattern) 0x80030004 = Ok (W, c', b') ∧
    readICache c' b' 0x00030004 = Ok (w, c', b') ∧
    readICache c' b' 0x80030004 = Ok (w, c', b').
Proof.
  destruct (readICache power_on (idle Pattern) 0x80030004)
    as [[[W c'] b'] | |] eqn:H; [| vm_compute in H; discriminate..].
  destruct (readICache_mirrors_share_lines
              power_on c' (idle Pattern) b' b' 0x80030004 0x00030004 W
              power_on_sized eq_refl eq_refl eq_refl eq_refl H)
    as (w & Hq & Hpc).
  exists W, c', b', w. split; [reflexivity | split; assumption].
Defined.

Lemma readICache_miss_brings_whole_line_witness :
  ∃ c',
    readICache power_on (idle (Counting 100)) 0x80030004
      = Ok (104, c',
            Build_Bus (Counting 105)
              [(0x80030000, Instr); (0x80030004, Instr); (0x80030008, Instr);
               (0x8003000c, Instr); (0x80030004, Instr)]) ∧
    ∀ (b'' : Bus CountingMemory),
      readICache c' b'' (Z.land 0x80030004 (Z.lnot 0xf))
        = Ok (100, c', b'') ∧
      readICache c' b'' (Z.land 0x80030004 (Z.lnot 0xf) + 4)
        = Ok (101, c', b'') ∧
      readICache c' b'' (Z.land 0x80030004 (Z.lnot 0xf) + 8)
        = Ok (102, c', b'') ∧
      readICache c' b'' (Z.land 0x80030004 (Z.lnot 0xf) + 12)
        = Ok (103, c', b'').
Proof.
  apply (readICache_miss_brings_whole_line
           power_on 0x80030004 0xffffffff 100 101 102 103 104
           (idle (Counting 100))
           (Build_Bus (Counting 101) [(0x80030000, Instr)])
           (Build_Bus (Counting 102)
              [(0x80030000, Instr); (0x80030004, Instr)])
           (Build_Bus (Counting 103)
              [(0x80030000, Instr); (0x80030004, Instr); (0x80030008, Instr)])
           (Build_Bus (Counting 104)
              [(0x80030000, Instr); (0x80030004, Instr); (0x80030008, Instr);
               (0x8003000c, Instr)])
           (Build_Bus (Counting 105)
              [(0x80030000, Instr); (0x80030004, Instr); (0x80030008, Instr);
               (0x8003000c, Instr); (0x80030004, Instr)])
           power_on_sized eq_refl);
    [vm_compute; reflexivity | vm_compute; discriminate | reflexivity..].
Defined.

(** 0x80031004 maps to the cache line of 0x80030004 with another tag. *)
Lemma readICache_miss_evicts_conflicting_line_witness :
  ∃ W2 c2 b2,
    readICache warm warm_bus 0x80031004 = Ok (W2, c2, b2) ∧
    bus_reads b2 =
      bus_reads warm_bus
      ++ [(Z.land 0x80031004 (Z.lnot 0xf), Instr);
          (Z.land 0x80031004 (Z.lnot 0xf) + 4, Instr);
          (Z.land 0x80031004 (Z.lnot 0xf) + 8, Instr);
          (Z.land 0x80031004 (Z.lnot 0xf) + 12, Instr);
          (0x80031004, Instr)].
Proof.
  destruct (readICache warm warm_bus 0x80031004) as [[[W2 c2] b2] | |] eqn:H;
    [| vm_compute in H; discriminate..].
  exists W2, c2, b2. split; [reflexivity |].
  refine (readICache_miss_evicts_conflicting_line
            power_on warm c2 (idle Pattern) warm_bus b2
            0x80030004 0x80031004 0xbc1c0004 W2 0xffffffff
            power_on_sized eq_refl _ _ _ eq_refl eq_refl eq_refl _ H);
    [vm_compute; reflexivity | vm_compute; discriminate
    | vm_compute; reflexivity | vm_compute; discriminate].
Defined.

Lemma invalidateCache_empties_the_cache_witness :
  readICache (invalidateCache warm) (idle Pattern) 0x80030004
    = Ok (0xbc1c0004,
          filled (invalidateCache warm) 0x80030004
            0xbc1c0000 0xbc1c0004 0xbc1c0008 0xbc1c000c,
          warm_bus) ∧
  readICache (Reset warm) (idle Pattern) 0x80030004
    = Ok (0xbc1c0004,
          filled (Reset warm) 0x80030004
            0xbc1c0000 0xbc1c0004 0xbc1c0008 0xbc1c000c,
          warm_bus).
Proof.
  apply (invalidateCache_empties_the_cache
           warm 0x80030004 0xbc1c0000 0xbc1c0004 0xbc1c0008 0xbc1c000c
           0xbc1c0004
           (idle Pattern)
           (Build_Bus Pattern [(0x80030000, Instr)])
           (Build_Bus Pattern [(0x80030000, Instr); (0x80030004, Instr)])
           (Build_Bus Pattern
              [(0x80030000, Instr); (0x80030004, Instr); (0x80030008, Instr)])
           (Build_Bus Pattern
              [(0x80030000, Instr); (0x80030004, Instr); (0x80030008, Instr);
               (0x8003000c, Instr)])
           warm_bus
           (filled_sized _ _ _ _ _ _ power_on_sized) eq_refl eq_refl);
    reflexivity.
Defined.

Lemma flushICacheLine_invalidates_its_line_only_witness :
  ∃ c',
    flushICacheLine warm 0x80030008 = Ok c' ∧
    (cacheable 0x80030008 = true → line_of 0x80030008 = line_of 0x80030004 →
     ∀ w', ¬ resident c' 0x80030004 w') ∧
    (cacheable 0x80030008 = false ∨ line_of 0x80030008 ≠ line_of 0x80030004 →
     resident c' 0x80030004 0xbc1c0004).
Proof.
  apply (flushICacheLine_invalidates_its_line_only
           warm 0x80030008 0x80030004 0xbc1c0004
           (filled_sized _ _ _ _ _ _ power_on_sized) eq_refl).
  split; vm_compute; reflexivity.
Defined.

Lemma InterceptBIOS_acts_in_low_memory_only_witness :
  (0 <= 0x800000a0 < 0x00400000 ∨
   0x80000000 <= 0x800000a0 < 0x80400000 ∨
   0xa0000000 <= 0x800000a0 < 0xa0400000) ∧
  (Z.land 0x800000a0 0x1fffff = 0xa0 ∨ Z.land 0x800000a0 0x1fffff = 0xb0 ∨
   (Z.land 0x800000a0 0x1fffff = 0xc0 ∧ true = true)) ∧
  (length [processA0KernelCall 0; logA0KernelCall 0] <= 2)%nat.
Proof.
  apply (InterceptBIOS_acts_in_low_memory_only
           0x1fffff true power_on 0x800000a0
           [processA0KernelCall 0; logA0KernelCall 0]);
    [lia | reflexivity | discriminate].
Defined.
